(** * RAPter / globOpt: line primitives and the correspondence matcher

    A shallow embedding of
    - [globOpt/include/globfit2/primitives/linePrimitive.h]
      (class [GF2::LinePrimitive]: [generateFrom], [getDistance],
      [projectPoint], [getExtent], [getSpatialSignificance], [draw]) and
    - [globOpt/src/correspondence.cpp]
      ([estimateDistance] and the work part of [correspCli]).

    The C++ code is templated over its scalar type; the embedding is
    generic over an interface [ScalarOps] of the arithmetic the code uses,
    the one comparison made in [double] included.
    Two instances are given: IEEE-754 single precision ([float], through
    the Standard Library's [SpecFloat]), on which the code can be run, and
    the real numbers, the exact arithmetic the geometry is meant in. *)

From Stdlib Require Import ZArith List Bool Lia Sorted Permutation.
From Stdlib Require Import Reals Lra.
From Stdlib Require Import Floats.SpecFloat.
From Stdlib Require Import Strings.String.
From stdpp Require Import base decidable option list gmap.

Local Open Scope Z_scope.

(* ===================================================================== *)
(** * Scalars                                                             *)
(* ===================================================================== *)

(** The arithmetic the two translation units use on [Scalar]: literals,
    the four operations, [std::sqrt] and [operator<]; and, for the
    threshold of [getExtent], which is a [double]: the type [double], the
    implicit conversion of a [Scalar] to it and [operator<] on it. *)
Class ScalarOps (Scalar : Type) := {
  s_of_Z : Z -> Scalar;
  s_add  : Scalar -> Scalar -> Scalar;
  s_sub  : Scalar -> Scalar -> Scalar;
  s_mul  : Scalar -> Scalar -> Scalar;
  s_div  : Scalar -> Scalar -> Scalar;
  s_opp  : Scalar -> Scalar;
  s_sqrt : Scalar -> Scalar;
  s_ltb  : Scalar -> Scalar -> bool;
  s_double : Type;
  s_to_double : Scalar -> s_double;
  d_ltb  : s_double -> s_double -> bool
}.

(** [double] for the scalar type [Scalar]. *)
Definition Double (Scalar : Type) `{ScalarOps Scalar} : Type := s_double.

(** [std::cos] and [std::sin], used by [Eigen::AngleAxis]. *)
Class TrigOps (Scalar : Type) := {
  s_cos : Scalar -> Scalar;
  s_sin : Scalar -> Scalar
}.

Declare Scope scalar_scope.
Delimit Scope scalar_scope with sc.
Notation "x + y" := (s_add x y) : scalar_scope.
Notation "x - y" := (s_sub x y) : scalar_scope.
Notation "x * y" := (s_mul x y) : scalar_scope.
Notation "x / y" := (s_div x y) : scalar_scope.
Notation "- x" := (s_opp x) : scalar_scope.
Notation "x <? y" := (s_ltb x y) : scalar_scope.

(** [a > b] is [b < a]. *)
Definition s_gtb {Scalar} `{ScalarOps Scalar} (a b : Scalar) : bool := s_ltb b a.

(** ** IEEE-754 binary64, the [double] of the threshold *)

Module Float64.
Definition prec : Z := 53.
Definition emax : Z := 1024.

Definition of_Z (z : Z) : spec_float := binary_normalize prec emax z 0 false.

(** The literal [0.01], the default threshold of [getExtent]: the double
    nearest to 1/100. *)
Definition default_threshold : spec_float := SFdiv prec emax (of_Z 1) (of_Z 100).
End Float64.

(** ** IEEE-754 binary32, the [float] the program is instantiated with *)

Module Float32.
Definition prec : Z := 24.
Definition emax : Z := 128.

Definition of_Z (z : Z) : spec_float := binary_normalize prec emax z 0 false.

(** Every value but NaN. *)
Definition ordered (x : spec_float) : bool :=
  match x with
  | S754_nan => false
  | _ => true
  end.

(** The conversion of a [float] to [double]: the same number in the
    wider format (every [float] is a [double], so nothing is rounded). *)
Definition to_double (x : spec_float) : spec_float :=
  match x with
  | S754_finite s m e =>
      binary_normalize Float64.prec Float64.emax (if s then Z.neg m else Z.pos m) e s
  | _ => x
  end.

#[global] Instance ops : ScalarOps spec_float := {|
  s_of_Z := of_Z;
  s_add  := SFadd prec emax;
  s_sub  := SFsub prec emax;
  s_mul  := SFmul prec emax;
  s_div  := SFdiv prec emax;
  s_opp  := SFopp;
  s_sqrt := SFsqrt prec emax;
  s_ltb  := SFltb;
  s_double := spec_float;
  s_to_double := to_double;
  d_ltb  := SFltb
|}.
End Float32.

(** ** Real numbers, the exact arithmetic *)

Module Real.
Definition ltb (x y : R) : bool := if Rlt_dec x y then true else false.

#[global] Instance ops : ScalarOps R := {|
  s_of_Z := IZR;
  s_add  := Rplus;
  s_sub  := Rminus;
  s_mul  := Rmult;
  s_div  := Rdiv;
  s_opp  := Ropp;
  s_sqrt := sqrt;
  s_ltb  := ltb;
  s_double := R;
  s_to_double := fun x => x;
  d_ltb  := ltb
|}.

#[global] Instance trig : TrigOps R := {| s_cos := cos; s_sin := sin |}.
End Real.

(* ===================================================================== *)
(** * Three-dimensional vectors ([Eigen::Matrix<Scalar,3,1>])             *)
(* ===================================================================== *)

Record Vec3 (Scalar : Type) := mkVec3 { vx : Scalar; vy : Scalar; vz : Scalar }.
Arguments mkVec3 {Scalar} _ _ _.
Arguments vx {Scalar} _.
Arguments vy {Scalar} _.
Arguments vz {Scalar} _.

Section Vectors.
Context {Scalar : Type} `{ScalarOps Scalar}.
Local Open Scope scalar_scope.

Definition vadd (a b : Vec3 Scalar) : Vec3 Scalar :=
  mkVec3 (vx a + vx b) (vy a + vy b) (vz a + vz b).

Definition vsub (a b : Vec3 Scalar) : Vec3 Scalar :=
  mkVec3 (vx a - vx b) (vy a - vy b) (vz a - vz b).

(** [v * k] *)
Definition vscale (a : Vec3 Scalar) (k : Scalar) : Vec3 Scalar :=
  mkVec3 (vx a * k) (vy a * k) (vz a * k).

(** [k * v] *)
Definition smul (k : Scalar) (a : Vec3 Scalar) : Vec3 Scalar :=
  mkVec3 (k * vx a) (k * vy a) (k * vz a).

(** [v / k] *)
Definition vdivs (a : Vec3 Scalar) (k : Scalar) : Vec3 Scalar :=
  mkVec3 (vx a / k) (vy a / k) (vz a / k).

(** [a.dot( b )]; the order in which Eigen adds the products is not fixed
    by the sources, the sum is taken from left to right. *)
Definition vdot (a b : Vec3 Scalar) : Scalar :=
  vx a * vx b + vy a * vy b + vz a * vz b.

Definition vcross (a b : Vec3 Scalar) : Vec3 Scalar :=
  mkVec3 (vy a * vz b - vz a * vy b)
         (vz a * vx b - vx a * vz b)
         (vx a * vy b - vy a * vx b).

(** [v.norm()] *)
Definition vnorm (a : Vec3 Scalar) : Scalar := s_sqrt (vdot a a).

(** [v.normalized()]: the vector divided by its norm. *)
Definition vnormalized (a : Vec3 Scalar) : Vec3 Scalar := vdivs a (vnorm a).

(** [Eigen::AngleAxis(angle, UnitZ()) * v]: the product with the rotation
    matrix [AngleAxis::toRotationMatrix] builds for the axis (0,0,1),
    whose rows are (c, -s, 0), (s, c, 0) and (0, 0, (1-c)+c). *)
Definition rotateZ `{TrigOps Scalar} (angle : Scalar) (v : Vec3 Scalar) : Vec3 Scalar :=
  let c := s_cos angle in
  let s := s_sin angle in
  mkVec3 (c * vx v - s * vy v)
         (s * vx v + c * vy v)
         (((s_of_Z 1 - c) + c) * vz v).
End Vectors.

(* ===================================================================== *)
(** * Outcomes of a call                                                  *)
(* ===================================================================== *)

(** A call either returns, or indexes a container out of range (undefined
    behaviour in C++), or, for the one loop modelled with fuel, runs out of
    fuel. *)
Inductive Result (A : Type) : Type :=
  | Ok (a : A)
  | Undefined
  | OutOfFuel.
Arguments Ok {A} _.
Arguments Undefined {A}.
Arguments OutOfFuel {A}.

#[export] Instance Result_ret : MRet Result := fun _ a => Ok a.
#[export] Instance Result_bind : MBind Result := fun _ _ f m =>
  match m with
  | Ok a => f a
  | Undefined => Undefined
  | OutOfFuel => OutOfFuel
  end.

(** [v[i]] for an [int] index. *)
Definition at_index {A} (l : list A) (i : Z) : Result A :=
  if 0 <=? i then
    match l !! Z.to_nat i with
    | Some a => Ok a
    | None => Undefined
    end
  else Undefined.

(** The indices [0, 1, ..., n-1] a counting loop visits. *)
Definition upto (n : nat) : list Z := map Z.of_nat (seq 0 n).

Definition EXIT_SUCCESS : Z := 0.
Definition EXIT_FAILURE : Z := 1.

(* ===================================================================== *)
(** * Tags and the extent cache                                           *)
(* ===================================================================== *)

(** The tag names a primitive carries. *)
Inductive PrimTag := GID | DIR_GID | STATUS.

(** The tag names a point carries; [correspCli] reads the group of the
    B side from [PNT_GID] and of the A side from [PNT_USER_ID1]. *)
Inductive PointTag := PNT_GID | PNT_USER_ID1.

#[export] Instance PrimTag_eq_dec : EqDecision PrimTag.
Proof. solve_decision. Defined.
#[export] Instance PointTag_eq_dec : EqDecision PointTag.
Proof. solve_decision. Defined.

(** Modelled from the spec: the class [Taggable] behind [getTag] and
    [setTag] is not among the sources; the spec describes the tags as a
    mapping from a small fixed tag namespace to integers. *)
Definition Tags (K : Type) : Type := K -> Z.

Definition getTag {K} (t : K) (tags : Tags K) : Z := tags t.

Definition setTag {K} `{EqDecision K} (t : K) (v : Z) (tags : Tags K) : Tags K :=
  fun t' => if decide (t' = t) then v else tags t'.

(** Modelled from the spec: the type of the member [_extents] is not among
    the sources; the spec describes it as an optional cached value plus a
    boolean "computed" flag, written by [update] and read by [get] and
    [isUpdated]. *)
Record Updatable (A : Type) := mkUpdatable { upd_value : A; isUpdated : bool }.
Arguments mkUpdatable {A} _ _.
Arguments upd_value {A} _.
Arguments isUpdated {A} _.

Definition upd_get {A} (u : Updatable A) : A := upd_value u.
Definition upd_update {A} (a : A) : Updatable A := mkUpdatable a true.
Definition upd_fresh {A} (a : A) : Updatable A := mkUpdatable a false.

(* ===================================================================== *)
(** * Points and line primitives                                          *)
(* ===================================================================== *)

Record PointPrimitive (Scalar : Type) := mkPoint {
  pnt_pos  : Vec3 Scalar;
  pnt_tags : Tags PointTag
}.
Arguments mkPoint {Scalar} _ _.
Arguments pnt_pos {Scalar} _.
Arguments pnt_tags {Scalar} _.

(** [ExtentsT] is [std::vector<Eigen::Matrix<Scalar,3,1> >]. *)
Definition ExtentsT (Scalar : Type) : Type := list (Vec3 Scalar).

(** A line: the first three coefficients are a point on it, the second
    three its direction; the tags and the extent cache come from the base
    class. *)
Record LinePrimitive (Scalar : Type) := mkLine {
  pos      : Vec3 Scalar;
  dir      : Vec3 Scalar;
  tags     : Tags PrimTag;
  _extents : Updatable (ExtentsT Scalar)
}.
Arguments mkLine {Scalar} _ _ _ _.
Arguments pos {Scalar} _.
Arguments dir {Scalar} _.
Arguments tags {Scalar} _.
Arguments _extents {Scalar} _.

Definition with_tags {Scalar} (l : LinePrimitive Scalar) (t : Tags PrimTag) : LinePrimitive Scalar :=
  mkLine (pos l) (dir l) t (_extents l).

Definition with_extents {Scalar} (l : LinePrimitive Scalar) (e : Updatable (ExtentsT Scalar)) : LinePrimitive Scalar :=
  mkLine (pos l) (dir l) (tags l) e.

Section LinePrimitiveOps.
Context {Scalar : Type} `{ScalarOps Scalar}.
Local Open Scope scalar_scope.

(** The tags a newly constructed primitive starts with (set by the base
    class, which is not among the sources). *)
Variable fresh_tags : Tags PrimTag.

(** The value of the enumerator [UNSET]. *)
Variable UNSET : Z.

(** [LinePrimitive( p0, dir )]: the point, and the direction normalized. *)
Definition LinePrimitive_from (p0 d : Vec3 Scalar) : LinePrimitive Scalar :=
  mkLine p0 (vnormalized d) fresh_tags (upd_fresh []).

(** ** [generateFrom] *)

Section GenerateFrom.
Context `{TrigOps Scalar}.

(** [angleInRad], the angle between two vectors; its definition is not
    among the sources. *)
Variable angleInRad : Vec3 Scalar -> Vec3 Scalar -> Scalar.

(** [generateFrom( out, other, closest_angle_id, angles, angle_multiplier )]:
    the value returned and the primitive written to [out], which is taken
    to be an object of its own (neither [*this] nor [other]). *)
Definition generateFrom (self other : LinePrimitive Scalar) (closest_angle_id : Z)
    (angles : list Scalar) (angle_multiplier : Scalar) : Result (bool * LinePrimitive Scalar) :=
  a ← at_index angles closest_angle_id;
  let angle := a * angle_multiplier in
  let d0 := rotateZ angle (dir other) in
  let d1 := rotateZ (- angle) (dir other) in
  let revert := s_gtb (angleInRad (dir self) d0) (angleInRad (dir self) d1) in
  let out := LinePrimitive_from (pos self) (if revert then d1 else d0) in
  (* copy position id from self *)
  let out := with_tags out (setTag GID (getTag GID (tags self)) (tags out)) in
  (* copy direction id from the other *)
  let out := with_tags out (setTag DIR_GID (getTag DIR_GID (tags other)) (tags out)) in
  (* erase chosen tag - this is a new candidate *)
  let out := with_tags out (setTag STATUS UNSET (tags out)) in
  Ok (true, out).

(** The rotation branch [generateFrom] does not choose. *)
Definition other_branch (self other : LinePrimitive Scalar) (closest_angle_id : Z)
    (angles : list Scalar) (angle_multiplier : Scalar) : Result (Vec3 Scalar) :=
  a ← at_index angles closest_angle_id;
  let angle := a * angle_multiplier in
  let d0 := rotateZ angle (dir other) in
  let d1 := rotateZ (- angle) (dir other) in
  let revert := s_gtb (angleInRad (dir self) d0) (angleInRad (dir self) d1) in
  Ok (if revert then d0 else d1).
End GenerateFrom.

(** ** Geometry *)

(** [getDistance]: point to line distance. *)
Definition getDistance (self : LinePrimitive Scalar) (point : Vec3 Scalar) : Scalar :=
  vnorm (vcross (vsub (pos self) point) (dir self)).

(** The dot product of two 4-vectors whose last coefficient is 0. *)
Definition vdot4 (a b : Vec3 Scalar) : Scalar := vdot a b + s_of_Z 0 * s_of_Z 0.

(** [projectPoint] *)
Definition projectPoint (self : LinePrimitive Scalar) (point : Vec3 Scalar) : Vec3 Scalar :=
  let line_pt := pos self in
  let line_dir := dir self in
  let k := (vdot4 point line_dir - vdot4 line_pt line_dir) / vdot4 line_dir line_dir in
  vadd line_pt (smul k line_dir).

(** ** [getExtent] *)

(** The loop selecting the inliers: [pids] are the point ids the loop
    visits, in order. *)
Fixpoint select_inliers (self : LinePrimitive Scalar) (cloud : list (PointPrimitive Scalar))
    (threshold : Double Scalar) (pids : list Z) (inliers : list Z) : Result (list Z) :=
  match pids with
  | [] => Ok inliers
  | pid :: rest =>
      p ← at_index cloud pid;
      if d_ltb (s_to_double (getDistance self (pnt_pos p))) threshold
      then select_inliers self cloud threshold rest (inliers ++ [pid])
      else select_inliers self cloud threshold rest inliers
  end.

(** The loop projecting the inliers onto the line. *)
Fixpoint project_cloud (self : LinePrimitive Scalar) (cloud : list (PointPrimitive Scalar))
    (inliers : list Z) (on_line_cloud : list (Vec3 Scalar)) : Result (list (Vec3 Scalar)) :=
  match inliers with
  | [] => Ok on_line_cloud
  | pid :: rest =>
      p ← at_index cloud pid;
      project_cloud self cloud rest (on_line_cloud ++ [projectPoint self (pnt_pos p)])
  end.

(** The state of the scan for the two extrema. *)
Record MinMaxScan := mkScan {
  min_dist : Scalar; max_dist : Scalar; min_id : nat; max_id : nat
}.

(** The signed distance the scan compares. *)
Definition scan_dist (p0 line_dir p1 : Vec3 Scalar) : Scalar :=
  vdot (vsub p1 p0) (vadd p0 line_dir).

Definition scan_step (p0 line_dir : Vec3 Scalar) (st : MinMaxScan) (point_id : nat)
    (p1 : Vec3 Scalar) : MinMaxScan :=
  let dist := scan_dist p0 line_dir p1 in
  if dist <? min_dist st then mkScan dist (max_dist st) point_id (max_id st)
  else if s_gtb dist (max_dist st) then mkScan (min_dist st) dist (min_id st) point_id
  else st.

(** The scan over [on_line_cloud[point_id ..]]. *)
Fixpoint scan_from (p0 line_dir : Vec3 Scalar) (st : MinMaxScan) (point_id : nat)
    (rest : list (Vec3 Scalar)) : MinMaxScan :=
  match rest with
  | [] => st
  | p1 :: rest' => scan_from p0 line_dir (scan_step p0 line_dir st point_id p1) (S point_id) rest'
  end.

Definition scan_start : MinMaxScan := mkScan (s_of_Z 0) (s_of_Z 0) 0%nat 0%nat.

(** [getExtent( minMax, cloud, threshold, indices_arg )]. It returns the
    status code, the new content of the output argument [minMax] and the
    primitive with its (mutable) extent cache. The parameter
    [force_axis_aligned] is not read by the code. The threshold is a
    [double]: the distance, a [Scalar], is converted to [double] for the
    comparison with it. *)
Definition getExtent (self : LinePrimitive Scalar) (minMax : ExtentsT Scalar)
    (cloud : list (PointPrimitive Scalar)) (threshold : Double Scalar)
    (indices_arg : option (list Z))
    : Result (Z * ExtentsT Scalar * LinePrimitive Scalar) :=
  if isUpdated (_extents self) then Ok (0, upd_get (_extents self), self)
  else
    let pids := match indices_arg with
                | Some indices => indices
                | None => upto (length cloud)
                end in
    inliers ← select_inliers self cloud threshold pids [];
    if (length inliers =? 0)%nat then Ok (EXIT_FAILURE, minMax, self)
    else
      on_line_cloud ← project_cloud self cloud inliers [];
      p0 ← at_index on_line_cloud 0;
      let line_dir := dir self in
      let st := scan_from p0 line_dir scan_start 1 (tail on_line_cloud) in
      pmin ← at_index on_line_cloud (Z.of_nat (min_id st));
      pmax ← at_index on_line_cloud (Z.of_nat (max_id st));
      let minMax' := [pmin; pmax] in
      Ok (EXIT_SUCCESS, minMax', with_extents self (upd_update minMax')).

(** ** [getSpatialSignificance] *)

(** Modelled from the spec: [processing::getPopulationOf] is not among the
    sources; the spec derives the population "from all points whose group
    tag equals the primitive's GID". *)
Fixpoint population_from (gid : Z) (pid : Z) (points : list (PointPrimitive Scalar)) : list Z :=
  match points with
  | [] => []
  | p :: rest =>
      if (getTag PNT_GID (pnt_tags p) =? gid)%Z
      then pid :: population_from gid (pid + 1)%Z rest
      else population_from gid (pid + 1)%Z rest
  end.

Definition getPopulationOf (gid : Z) (points : list (PointPrimitive Scalar)) : list Z :=
  population_from gid 0 points.

(** [in.setConstant( c )] *)
Definition setConstant (c : Scalar) (v : list Scalar) : list Scalar := map (fun _ => c) v.

(** [in(0) = c] *)
Definition set_coeff0 (c : Scalar) (v : list Scalar) : Result (list Scalar) :=
  match v with
  | [] => Undefined
  | _ :: v' => Ok (c :: v')
  end.

Section Significance.
(** [processing::eigenDecomposition], which is not among the sources: the
    eigen values it writes for a point set and a population. *)
Variable eigenDecomposition : list (PointPrimitive Scalar) -> list Z -> Vec3 Scalar.

(** The population the function scores. *)
Definition population (self : LinePrimitive Scalar) (points : list (PointPrimitive Scalar))
    (indices : option (list Z)) : list Z :=
  match indices with
  | None => getPopulationOf (getTag GID (tags self)) points
  | Some pop => pop
  end.

(** [getSpatialSignificance( in, points, scale, indices, return_squared )]:
    the new content of [in], which is also what the call returns. *)
Definition getSpatialSignificance (self : LinePrimitive Scalar) (in_ : list Scalar)
    (points : list (PointPrimitive Scalar)) (indices : option (list Z))
    (return_squared : bool) : Result (list Scalar) :=
  let pop := population self points indices in
  let in_ := if (length pop =? 0)%nat then setConstant (s_of_Z (-1)) in_ else in_ in
  let in_ := setConstant (s_of_Z 0) in_ in
  let eigen_values := eigenDecomposition points pop in
  if return_squared then set_coeff0 (vx eigen_values) in_
  else set_coeff0 (s_sqrt (vx eigen_values)) in_.
End Significance.

(** ** [draw] *)

Section Draw.
(** The type of the colour components, which are only passed on. *)
Context {Colour : Type}.

(** The calls a visualizer has received, oldest first. *)
Inductive ViewerCall :=
  | AddLine (p0 p1 : Vec3 Scalar) (r g b : Colour) (name : string) (viewport_id : Z)
  | SetLineWidth (name : string).

Definition Viewer : Type := list ViewerCall.

(** What [addLine] returns for a visualizer and a shape name. *)
Variable addLine_result : Viewer -> string -> bool.

(** [draw( ps, vptr, name, r, g, b, viewport_id )] *)
Definition draw_points (ps : list (Vec3 Scalar)) (vptr : Viewer) (name : string)
    (r g b : Colour) (viewport_id : Z) : Result (Z * Viewer) :=
  if negb (length ps =? 2)%nat then Ok (EXIT_FAILURE, vptr)
  else
    ps0 ← at_index ps 0;
    ps1 ← at_index ps 1;
    Ok (Z.b2z (addLine_result vptr name), vptr ++ [AddLine ps0 ps1 r g b name viewport_id]).

Definition max_it : Z := 10.

(** The state of [draw] when its [do ... while] loop is left. *)
Record RetryState := mkRetry {
  rs_err : Z;
  rs_minMax : ExtentsT Scalar;
  rs_line : LinePrimitive Scalar;
  rs_it : Z;
  rs_tmp_radius : Scalar
}.

(** The [do ... while] loop: one unit of fuel per run of the body. *)
Fixpoint draw_retry (fuel : nat) (line : LinePrimitive Scalar)
    (cloud : list (PointPrimitive Scalar)) (indices : option (list Z))
    (minMax : ExtentsT Scalar) (it : Z) (tmp_radius : Scalar) : Result RetryState :=
  match fuel with
  | O => OutOfFuel
  | S fuel' =>
      '(err, minMax, line) ← getExtent line minMax cloud (s_to_double tmp_radius) indices;
      let tmp_radius := tmp_radius * s_of_Z 2 in
      if (length minMax <? 2)%nat then
        let it := (it + 1)%Z in
        if (it <? max_it)%Z
        then draw_retry fuel' line cloud indices minMax it tmp_radius
        else Ok (mkRetry err minMax line it tmp_radius)
      else Ok (mkRetry err minMax line it tmp_radius)
  end.

(** The segment [draw] falls back to. *)
Definition fallback_segment (line : LinePrimitive Scalar) : ExtentsT Scalar :=
  [pos line; vadd (pos line) (vdivs (dir line) (s_of_Z 10))].

(** The two points handed to the visualizer for the segment [minMax]. *)
Definition stretched (minMax : ExtentsT Scalar) (stretch : Scalar) : Result (list (Vec3 Scalar)) :=
  p0 ← at_index minMax 0;
  p1 ← at_index minMax 1;
  let diff := vsub p1 p0 in
  let half_stretch := s_of_Z 1 + (stretch - s_of_Z 1) / s_of_Z 2 in
  let p1_final := vadd p0 (vscale diff half_stretch) in
  let p0_final := vsub p1 (vscale diff half_stretch) in
  Ok [p0_final; p1_final].

(** [draw( line, cloud, radius, indices, v, plane_name, r, g, b,
    viewport_id, stretch )]: the status code, the visualizer and the
    primitive (with its extent cache) after the call. The parameters
    [draw_mode] and [hull_alpha] are not read by the code. The loop is
    given [max_it] units of fuel. *)
Definition draw (line : LinePrimitive Scalar)
    (cloud : list (PointPrimitive Scalar)) (radius : Scalar) (indices : option (list Z))
    (v : Viewer) (plane_name : string) (r g b : Colour) (viewport_id : Z)
    (stretch : Scalar) : Result (Z * Viewer * LinePrimitive Scalar) :=
  rs ← draw_retry (Z.to_nat max_it) line cloud indices [] 0 radius;
  let minMax := if (max_it <=? rs_it rs)%Z then fallback_segment line else rs_minMax rs in
  ps ← stretched minMax stretch;
  '(e, v) ← draw_points ps v plane_name r g b viewport_id;
  let err := (rs_err rs + e)%Z in
  Ok (err, v ++ [SetLineWidth plane_name], rs_line rs).
End Draw.
End LinePrimitiveOps.

(* ===================================================================== *)
(** * Ordered containers                                                  *)
(* ===================================================================== *)

(** [operator<] of [std::pair]: lexicographic. *)
Definition pair_ltb {A B} (ltA : A -> A -> bool) (ltB : B -> B -> bool)
    (x y : A * B) : bool :=
  ltA (fst x) (fst y) || (negb (ltA (fst y) (fst x)) && ltB (snd x) (snd y)).

(** A [std::map<K,V>] is kept as the list of its entries in iteration
    order, that is, ascending by key. *)
Module StdMap.
Section Map.
Context {K V : Type}.
Variable ltb : K -> K -> bool.

(** [m[k] = v]: a new entry at its place in the order, or the value of the
    entry with an equivalent key replaced. *)
Fixpoint insert (k : K) (v : V) (m : list (K * V)) : list (K * V) :=
  match m with
  | [] => [(k, v)]
  | (k', v') :: m' =>
      if ltb k k' then (k, v) :: (k', v') :: m'
      else if ltb k' k then (k', v') :: insert k v m'
      else (k', v) :: m'
  end.

(** [m.find( k )] *)
Fixpoint find (k : K) (m : list (K * V)) : option V :=
  match m with
  | [] => None
  | (k', v') :: m' =>
      if ltb k k' then None
      else if ltb k' k then find k m'
      else Some v'
  end.

(** The entries are in strictly ascending key order. *)
Definition ascending (m : list (K * V)) : Prop :=
  StronglySorted (fun x y => ltb (fst x) (fst y) = true) m.
End Map.
End StdMap.

(** [std::sort( first, last )] with [operator<]: the ascending arrangement
    of the elements. ([std::sort] leaves the relative order of equivalent
    elements open; [sort_unique] below shows that the entries sorted here
    admit one ascending arrangement only.) *)
Fixpoint sort_insert {A} (lt : A -> A -> bool) (x : A) (l : list A) : list A :=
  match l with
  | [] => [x]
  | y :: l' => if lt x y then x :: y :: l' else y :: sort_insert lt x l'
  end.

Definition std_sort {A} (lt : A -> A -> bool) (l : list A) : list A :=
  fold_right (sort_insert lt) [] l.

(* ===================================================================== *)
(** * The correspondence matcher ([correspCli])                           *)
(* ===================================================================== *)

(** first: GID (map key), second: linear id in the vector [map[gid]]. *)
Definition GidLid : Type := Z * Z.
(** first: primitive A, second: primitive B. *)
Definition CostKey : Type := GidLid * GidLid.

Definition gidlid_ltb : GidLid -> GidLid -> bool := pair_ltb Z.ltb Z.ltb.
Definition costkey_ltb : CostKey -> CostKey -> bool := pair_ltb gidlid_ltb gidlid_ltb.

(** [CorrespT], a [std::map<GidLid,GidLid>]. *)
Definition CorrespT : Type := list (GidLid * GidLid).

Section Correspondence.
Context {Scalar : Type} `{ScalarOps Scalar}.

(** [PrimitiveMapT], a [std::map<int, vector<primitive> >]. *)
Definition PrimitiveMapT : Type := list (Z * list (LinePrimitive Scalar)).
(** [CostMap], a [std::map<CostKey,Scalar>]. *)
Definition CostMap : Type := list (CostKey * Scalar).
(** first: cost, second: the pair of identities. *)
Definition CostEntry : Type := Scalar * CostKey.

Definition entry_ltb : CostEntry -> CostEntry -> bool := pair_ltb s_ltb costkey_ltb.

(** [estimateDistance]; the points and the two tag ids it is passed are
    not read. *)
Definition estimateDistance (prim gt_prim : LinePrimitive Scalar) : Scalar :=
  vnorm (vsub (pos prim) (pos gt_prim)).

(** The four nested loops filling [costs], innermost first. *)
Fixpoint costs_primsB (a : LinePrimitive Scalar) (gidA lidA gidB lidB : Z)
    (primsB : list (LinePrimitive Scalar)) (costs : CostMap) : CostMap :=
  match primsB with
  | [] => costs
  | b :: rest =>
      costs_primsB a gidA lidA gidB (lidB + 1) rest
        (StdMap.insert costkey_ltb ((gidA, lidA), (gidB, lidB)) (estimateDistance a b) costs)
  end.

Fixpoint costs_patchesB (a : LinePrimitive Scalar) (gidA lidA : Z)
    (prims_mapB : PrimitiveMapT) (costs : CostMap) : CostMap :=
  match prims_mapB with
  | [] => costs
  | (gidB, primsB) :: rest =>
      costs_patchesB a gidA lidA rest (costs_primsB a gidA lidA gidB 0 primsB costs)
  end.

Fixpoint costs_primsA (gidA lidA : Z) (primsA : list (LinePrimitive Scalar))
    (prims_mapB : PrimitiveMapT) (costs : CostMap) : CostMap :=
  match primsA with
  | [] => costs
  | a :: rest =>
      costs_primsA gidA (lidA + 1) rest prims_mapB (costs_patchesB a gidA lidA prims_mapB costs)
  end.

Fixpoint costs_patchesA (prims_mapA prims_mapB : PrimitiveMapT) (costs : CostMap) : CostMap :=
  match prims_mapA with
  | [] => costs
  | (gidA, primsA) :: rest =>
      costs_patchesA rest prims_mapB (costs_primsA gidA 0 primsA prims_mapB costs)
  end.

Definition calc_costs (prims_mapA prims_mapB : PrimitiveMapT) : CostMap :=
  costs_patchesA prims_mapA prims_mapB [].

(** The sorted cost keyed list. *)
Definition make_cost_list (costs : CostMap) : list CostEntry :=
  std_sort entry_ltb (map (fun it => (snd it, fst it)) costs).

(** The state of the loop calculating the correspondences; [chosen] is the
    sequence of its "chose ..." log lines. *)
Record Greedy := mkGreedy {
  taken_primsA : gset GidLid;
  taken_primsB : gset GidLid;
  corresps : CorrespT;
  chosen : list CostEntry
}.

Definition greedy_start : Greedy := mkGreedy ∅ ∅ [] [].

(** Whether the loop takes the entry: both primitives free to pair up. *)
Definition both_free (st : Greedy) (e : CostEntry) : bool :=
  bool_decide (fst (snd e) ∉ taken_primsA st) && bool_decide (snd (snd e) ∉ taken_primsB st).

(** One run of the loop body. (The "duplicate choice" diagnostic only
    prints and is left out.) *)
Definition greedy_step (st : Greedy) (e : CostEntry) : Greedy :=
  let gidLidA := fst (snd e) in
  let gidLidB := snd (snd e) in
  if both_free st e then
    mkGreedy ({[gidLidA]} ∪ taken_primsA st) ({[gidLidB]} ∪ taken_primsB st)
             (StdMap.insert gidlid_ltb gidLidA gidLidB (corresps st))
             (chosen st ++ [e])
  else st.

Definition greedy_from (st : Greedy) (cost_list : list CostEntry) : Greedy :=
  fold_left greedy_step cost_list st.

Definition greedy (cost_list : list CostEntry) : Greedy :=
  greedy_from greedy_start cost_list.

(** The rows [gidA,lidA,gidB,lidB] written to the correspondence file: one
    per entry of [corresps], in its iteration order. *)
Definition emit (c : CorrespT) : list (Z * Z * Z * Z) :=
  map (fun it => (fst (fst it), snd (fst it), fst (snd it), snd (snd it))) c.

(** The work part of [correspCli], from the two primitive maps to the rows
    written. *)
Definition correspond (prims_mapA prims_mapB : PrimitiveMapT) : Greedy :=
  greedy (make_cost_list (calc_costs prims_mapA prims_mapB)).

Definition correspCli_rows (prims_mapA prims_mapB : PrimitiveMapT) : list (Z * Z * Z * Z) :=
  emit (corresps (correspond prims_mapA prims_mapB)).
End Correspondence.

(* ===================================================================== *)
(** * Further members of [LinePrimitive]                                  *)
(* ===================================================================== *)

(** [Eigen::Matrix<Scalar,3,3>], by its columns. *)
Record Mat3 (Scalar : Type) := mkMat3 {
  col0 : Vec3 Scalar; col1 : Vec3 Scalar; col2 : Vec3 Scalar
}.
Arguments mkMat3 {Scalar} _ _ _.
Arguments col0 {Scalar} _.
Arguments col1 {Scalar} _.
Arguments col2 {Scalar} _.

Section LinePrimitiveMore.
Context {Scalar : Type} `{ScalarOps Scalar}.
Local Open Scope scalar_scope.

Variable fresh_tags : Tags PrimTag.

(** [v(i)] *)
Definition coeff (v : Vec3 Scalar) (i : nat) : Scalar :=
  match i with
  | O => vx v
  | S O => vy v
  | _ => vz v
  end.

(** [m.col(i)] *)
Definition mcol (m : Mat3 Scalar) (i : nat) : Vec3 Scalar :=
  match i with
  | O => col0 m
  | S O => col1 m
  | _ => col2 m
  end.

(** [std::max_element( v.data(), v.data()+3 )], as the distance from
    [v.data()]: the first coefficient is the largest so far, and a later
    one replaces it when the largest so far is less than it. *)
Definition max_element3 (v : Vec3 Scalar) : nat :=
  let largest := 0%nat in
  let largest := if coeff v largest <? coeff v 1 then 1%nat else largest in
  let largest := if coeff v largest <? coeff v 2 then 2%nat else largest in
  largest.

(** [LinePrimitive( centroid, eigen_values, eigen_vectors )] *)
Definition LinePrimitive_from_eigen (centroid eigen_values : Vec3 Scalar)
    (eigen_vectors : Mat3 Scalar) : LinePrimitive Scalar :=
  let max_eig_val_id := max_element3 eigen_values in
  mkLine centroid (vnormalized (mcol eigen_vectors max_eig_val_id)) fresh_tags (upd_fresh []).

(** [fromEndPoints( p0, p1 )] *)
Definition fromEndPoints (p0 p1 : Vec3 Scalar) : LinePrimitive Scalar :=
  LinePrimitive_from fresh_tags p0 (vnormalized (vsub p1 p0)).

(** [Eigen::Matrix<Scalar,3,1>::UnitZ()], also the default plane normal
    of [normal]. *)
Definition UnitZ : Vec3 Scalar := mkVec3 (s_of_Z 0) (s_of_Z 0) (s_of_Z 1).

(** [normal( plane_normal )] *)
Definition normal (self : LinePrimitive Scalar) (plane_normal : Vec3 Scalar) : Vec3 Scalar :=
  let perp := vscale plane_normal (vdot (dir self) plane_normal) in
  let par := vnormalized (vsub (dir self) perp) in
  vnormalized (vcross par plane_normal).

(** [getFileEntryLength()] *)
Definition getFileEntryLength : Z := 6.

(** The six numbers [toFileEntry] formats, position first, then the
    normal; the formatting itself (nine decimals each) is not modelled. *)
Definition toFileEntry_values (self : LinePrimitive Scalar) : list Scalar :=
  let p := pos self in
  let nrm := normal self UnitZ in
  [vx p; vy p; vz p; vx nrm; vy nrm; vz nrm].

(** [fromFileEntry( entries )]: the first six entries are read. *)
Definition fromFileEntry (entries : list Scalar) : Result (LinePrimitive Scalar) :=
  e0 ← at_index entries 0;
  e1 ← at_index entries 1;
  e2 ← at_index entries 2;
  e3 ← at_index entries 3;
  e4 ← at_index entries 4;
  e5 ← at_index entries 5;
  Ok (LinePrimitive_from fresh_tags (mkVec3 e0 e1 e2) (vcross (mkVec3 e3 e4 e5) UnitZ)).
End LinePrimitiveMore.

(* ===================================================================== *)
(** * [rapter/util/pcl_util.hpp]                                          *)
(* ===================================================================== *)

Section PclUtil.
Context {Scalar : Type} {Point : Type}.

(** [PointAllocatorFunctorT::eval] *)
Variable eval : Vec3 Scalar -> Point.

(** The loop of [cloudToVector]: [cloud->at(pid)] checks its index and
    throws when it is out of range, which ends the call. *)
Fixpoint cloudToVector_loop (cloud : list (Vec3 Scalar)) (pids : list Z)
    (container : list Point) : Result (list Point) :=
  match pids with
  | [] => Ok container
  | pid :: rest =>
      p ← at_index cloud pid;
      cloudToVector_loop cloud rest (container ++ [eval p])
  end.

(** [cloudToVector( container, cloud )]: the status and the container. *)
Definition cloudToVector (container : list Point) (cloud : list (Vec3 Scalar))
    : Result (Z * list Point) :=
  let count := length cloud in
  container ← cloudToVector_loop cloud (upto count) container;
  Ok (EXIT_SUCCESS, container).
End PclUtil.

(** The point cloud [buildANN] hands to the search tree: the positions of
    the points, in order. *)
Fixpoint buildANN_cloud {Scalar} (points : list (PointPrimitive Scalar))
    (ann_cloud : list (Vec3 Scalar)) : list (Vec3 Scalar) :=
  match points with
  | [] => ann_cloud
  | p :: rest =>
      let pnt := mkVec3 (vx (pnt_pos p)) (vy (pnt_pos p)) (vz (pnt_pos p)) in
      buildANN_cloud rest (ann_cloud ++ [pnt])
  end.

(* ===================================================================== *)
(** * Further parts of [correspCli]                                       *)
(* ===================================================================== *)

Section CorrespondenceMore.
Context {Scalar : Type} `{ScalarOps Scalar}.

(** The condition of the "duplicate choice" diagnostic, which the loop
    tests after it has found both primitives free. *)
Definition duplicate_choice (st : @Greedy Scalar) (e : CostEntry) : bool :=
  both_free st e &&
  match StdMap.find gidlid_ltb (fst (snd e)) (corresps st) with
  | Some _ => true
  | None => false
  end.

(** [prims_map[id.first][id.second]] as the print loop reads it: a group
    id that is missing gets an empty vector, so that the index is out of
    range. *)
Definition prim_lookup (prims_map : @PrimitiveMapT Scalar) (id : GidLid)
    : Result (LinePrimitive Scalar) :=
  match StdMap.find Z.ltb (fst id) prims_map with
  | Some prims => at_index prims (snd id)
  | None => Undefined
  end.
End CorrespondenceMore.

(* ===================================================================== *)
(** * Laws of the comparison                                              *)
(* ===================================================================== *)

(** What the proofs use of [operator<]: it is irreflexive and transitive,
    and on the ordered values (for [float]: all but NaN) "not less" is
    transitive as well. *)
Class ScalarOrder (Scalar : Type) `{ScalarOps Scalar} := {
  s_ordered : Scalar -> bool;
  s_ltb_irrefl : forall x, s_ltb x x = false;
  s_ltb_trans : forall x y z, s_ltb x y = true -> s_ltb y z = true -> s_ltb x z = true;
  s_ltb_negtrans : forall x y z,
    s_ordered x = true -> s_ordered y = true -> s_ordered z = true ->
    s_ltb x y = false -> s_ltb y z = false -> s_ltb x z = false
}.

(** The same of [operator<] on [double], as far as the proofs use it. *)
Class DoubleOrder (Scalar : Type) `{ScalarOps Scalar} := {
  d_ordered : Double Scalar -> bool;
  d_ltb_negtrans : forall x y z : Double Scalar,
    d_ordered x = true -> d_ordered y = true -> d_ordered z = true ->
    d_ltb x y = false -> d_ltb y z = false -> d_ltb x z = false
}.

(** The single and double precision values with the sign bit [s], the
    zeros, and NaN. *)
Definition signed_or_nan (s : bool) (x : spec_float) : Prop :=
  match x with
  | S754_nan => True
  | S754_zero _ => True
  | S754_infinity s' | S754_finite s' _ _ => s' = s
  end.

(** A value the comparison cannot tell from the literal 0. *)
Definition zero_like {Scalar} `{ScalarOps Scalar} (d : Scalar) : Prop :=
  forall x, s_ltb x d = s_ltb x (s_of_Z 0) /\ s_ltb d x = s_ltb (s_of_Z 0) x.

(* ===================================================================== *)
(** * Vocabulary of the specification                                     *)
(* ===================================================================== *)

(** An index a container of that size can be read at. *)
Definition in_range {A} (l : list A) (i : Z) : Prop := 0 <= i < Z.of_nat (length l).

(** A strict total order given by its test. *)
Record StrictTotal {K : Type} (ltb : K -> K -> bool) : Prop := {
  st_irrefl : forall a, ltb a a = false;
  st_trans : forall a b c, ltb a b = true -> ltb b c = true -> ltb a c = true;
  st_total : forall a b, ltb a b = false -> ltb b a = false -> a = b
}.

Section ExtentVocabulary.
Context {Scalar : Type} `{ScalarOps Scalar}.

(** The point ids [getExtent] looks at: the given indices, or all. *)
Definition visited (cloud : list (PointPrimitive Scalar)) (indices_arg : option (list Z)) : list Z :=
  match indices_arg with
  | Some indices => indices
  | None => upto (length cloud)
  end.

(** The point [pid] is closer to the line than [threshold]. *)
Definition is_inlier (self : LinePrimitive Scalar) (cloud : list (PointPrimitive Scalar))
    (threshold : Double Scalar) (pid : Z) : bool :=
  match at_index cloud pid with
  | Ok p => d_ltb (s_to_double (getDistance self (pnt_pos p))) threshold
  | _ => false
  end.

Definition inlier_ids (self : LinePrimitive Scalar) (cloud : list (PointPrimitive Scalar))
    (threshold : Double Scalar) (indices_arg : option (list Z)) : list Z :=
  List.filter (is_inlier self cloud threshold) (visited cloud indices_arg).

(** The points with the given ids. *)
Definition points_at (cloud : list (PointPrimitive Scalar)) (pids : list Z)
    : list (PointPrimitive Scalar) :=
  flat_map (fun pid => match at_index cloud pid with Ok p => [p] | _ => [] end) pids.

(** The images of the inliers under [projectPoint], in the order of the
    inliers. *)
Definition projections (self : LinePrimitive Scalar) (cloud : list (PointPrimitive Scalar))
    (threshold : Double Scalar) (indices_arg : option (list Z)) : list (Vec3 Scalar) :=
  map (fun p => projectPoint self (pnt_pos p))
      (points_at cloud (inlier_ids self cloud threshold indices_arg)).

(** What the scan has established once it has seen the distances [ds]. *)
Definition scan_inv (st : MinMaxScan) (ds : list Scalar) : Prop :=
  ds !! min_id st = Some (min_dist st) /\
  ds !! max_id st = Some (max_dist st) /\
  Forall (fun x => s_ltb x (min_dist st) = false /\ s_ltb (max_dist st) x = false) ds /\
  s_ltb (max_dist st) (min_dist st) = false.

(** Calls following one another on the same primitive, each with its own
    arguments; the codes and endpoint containers they return. *)
Fixpoint getExtent_calls (self : LinePrimitive Scalar)
    (calls : list (ExtentsT Scalar * list (PointPrimitive Scalar) * Double Scalar * option (list Z)))
    : Result (list (Z * ExtentsT Scalar)) :=
  match calls with
  | [] => Ok []
  | (minMax, cloud, threshold, indices_arg) :: rest =>
      '(err, minMax', self') ← getExtent self minMax cloud threshold indices_arg;
      results ← getExtent_calls self' rest;
      Ok ((err, minMax') :: results)
  end.
End ExtentVocabulary.

Section ProjectionVocabulary.
Context {Scalar : Type} `{ScalarOps Scalar}.

(** The point [q] is the orthogonal projection of the point [p] onto the
    line, in the spec's words: [q] is a point of the line, and the vector
    from [q] to [p] is perpendicular to the direction of the line. *)
Definition orthogonal_projection (self : LinePrimitive Scalar) (p q : Vec3 Scalar) : Prop :=
  (exists k, q = vadd (pos self) (smul k (dir self))) /\
  vdot (vsub p q) (dir self) = s_of_Z 0.
End ProjectionVocabulary.

Section DrawVocabulary.
Context {Scalar : Type} `{ScalarOps Scalar}.

(** The radius after [k] doublings. *)
Fixpoint doubled (radius : Scalar) (k : nat) : Scalar :=
  match k with
  | O => radius
  | S k' => s_mul (doubled radius k') (s_of_Z 2)
  end.

(** Attempt number [k] (from 0) finds no inlier. *)
Definition attempt_fails (line : LinePrimitive Scalar) (cloud : list (PointPrimitive Scalar))
    (radius : Scalar) (indices : option (list Z)) (k : nat) : Prop :=
  inlier_ids line cloud (s_to_double (doubled radius k)) indices = [].
End DrawVocabulary.

Section GreedyVocabulary.
Context {Scalar : Type} `{ScalarOps Scalar}.

(** The pairs taken so far, in the order they were taken. *)
Definition accepted (st : @Greedy Scalar) : list CostKey := map snd (chosen st).

(** The A and the B identity of a row written. *)
Definition rowA (r : Z * Z * Z * Z) : GidLid := (fst (fst (fst r)), snd (fst (fst r))).
Definition rowB (r : Z * Z * Z * Z) : GidLid := (snd (fst r), snd r).

(** What holds of the state of the loop between two runs of its body. *)
Record greedy_inv (st : @Greedy Scalar) : Prop := {
  gi_takenA : forall a, a ∈ taken_primsA st <-> In a (map fst (accepted st));
  gi_takenB : forall b, b ∈ taken_primsB st <-> In b (map snd (accepted st));
  gi_nodupA : NoDup (map fst (accepted st));
  gi_nodupB : NoDup (map snd (accepted st));
  gi_ascending : StdMap.ascending gidlid_ltb (corresps st);
  gi_entries : forall x, In x (corresps st) <-> In x (accepted st)
}.
End GreedyVocabulary.

Section CostVocabulary.
Context {Scalar : Type} `{ScalarOps Scalar}.
Local Open Scope scalar_scope.

(** The Euclidean distance of two points, in the spec's words. *)
Definition euclidean (p q : Vec3 Scalar) : Scalar :=
  s_sqrt ((vx p - vx q) * (vx p - vx q) + (vy p - vy q) * (vy p - vy q)
          + (vz p - vz q) * (vz p - vz q)).

(** The assignments [costs[key] = cost] the four loops make, in order. *)
Fixpoint entries_primsB (a : LinePrimitive Scalar) (gidA lidA gidB lidB : Z)
    (primsB : list (LinePrimitive Scalar)) : list (CostKey * Scalar) :=
  match primsB with
  | [] => []
  | b :: rest =>
      (((gidA, lidA), (gidB, lidB)), estimateDistance a b)
        :: entries_primsB a gidA lidA gidB (lidB + 1)%Z rest
  end.

Fixpoint entries_patchesB (a : LinePrimitive Scalar) (gidA lidA : Z)
    (prims_mapB : PrimitiveMapT) : list (CostKey * Scalar) :=
  match prims_mapB with
  | [] => []
  | (gidB, primsB) :: rest =>
      entries_primsB a gidA lidA gidB 0 primsB ++ entries_patchesB a gidA lidA rest
  end.

Fixpoint entries_primsA (gidA lidA : Z) (primsA : list (LinePrimitive Scalar))
    (prims_mapB : PrimitiveMapT) : list (CostKey * Scalar) :=
  match primsA with
  | [] => []
  | a :: rest =>
      entries_patchesB a gidA lidA prims_mapB ++ entries_primsA gidA (lidA + 1)%Z rest prims_mapB
  end.

Fixpoint entries_patchesA (prims_mapA prims_mapB : PrimitiveMapT) : list (CostKey * Scalar) :=
  match prims_mapA with
  | [] => []
  | (gidA, primsA) :: rest =>
      entries_primsA gidA 0 primsA prims_mapB ++ entries_patchesA rest prims_mapB
  end.

Definition insert_all (l : list (CostKey * Scalar)) (costs : CostMap) : CostMap :=
  fold_left (fun m kv => StdMap.insert costkey_ltb (fst kv) (snd kv) m) l costs.

(** The primitive [a] is number [lid] of the group [gid] of the map. *)
Definition prim_at (m : PrimitiveMapT) (gid : Z) (lid : nat) (a : LinePrimitive Scalar) : Prop :=
  exists prims, In (gid, prims) m /\ prims !! lid = Some a.

(** Every pair of the two maps has an ordered cost (for [float]: not NaN). *)
Definition costs_ordered `{!ScalarOrder Scalar} (prims_mapA prims_mapB : PrimitiveMapT) : Prop :=
  forall gidA lidA a gidB lidB b,
    prim_at prims_mapA gidA lidA a -> prim_at prims_mapB gidB lidB b ->
    s_ordered (estimateDistance a b) = true.
End CostVocabulary.

Section RowVocabulary.
Context {Scalar : Type} `{ScalarOps Scalar}.

(** The identities [<gid,lid>] of the primitives of one group, and of a
    whole map, as the cost loops number them. *)
Definition group_ids (gp : Z * list (LinePrimitive Scalar)) : list GidLid :=
  map (fun lid => (fst gp, Z.of_nat lid)) (seq 0 (length (snd gp))).

Definition prim_ids (m : @PrimitiveMapT Scalar) : list GidLid := flat_map group_ids m.

(** The number of primitives of a map. *)
Definition prim_count (m : @PrimitiveMapT Scalar) : nat :=
  list_sum (map (fun gp => length (snd gp)) m).
End RowVocabulary.

(* ===================================================================== *)
(** * Test data                                                           *)
(* ===================================================================== *)

Module Examples.
Definition f32 : Z -> spec_float := Float32.of_Z.
Definition f64 : Z -> Double spec_float := Float64.of_Z.
Definition v3 (x y z : Z) : Vec3 spec_float := mkVec3 (f32 x) (f32 y) (f32 z).
Definition no_tags {K} : Tags K := fun _ => 0.

(** The line through the origin along the x axis, in group [gid]. *)
Definition x_axis (gid : Z) : LinePrimitive spec_float :=
  mkLine (v3 0 0 0) (v3 1 0 0) (setTag GID gid no_tags) (upd_fresh []).

(** A line along the x axis anchored at [(x, 0, 0)]. *)
Definition line_at (x : Z) : LinePrimitive spec_float :=
  mkLine (v3 x 0 0) (v3 1 0 0) no_tags (upd_fresh []).

Definition pt (x y z : Z) : PointPrimitive spec_float := mkPoint (v3 x y z) no_tags.

(** Four points, all but the second within distance 1 of the x axis. *)
Definition cloud4 : list (PointPrimitive spec_float) :=
  [pt 1 0 0; pt 3 5 0; pt (-2) 0 0; pt 7 0 0].

(** Points at distance 5 from the x axis. *)
Definition far_cloud : list (PointPrimitive spec_float) := [pt 1 5 0; pt 4 5 0].

(** Two primitives per side, in one group each. *)
Definition primsA : @PrimitiveMapT spec_float := [(0, [line_at 0; line_at 5])].
Definition primsB : @PrimitiveMapT spec_float := [(0, [line_at 5; line_at 1])].
End Examples.

(** The visualizer of the examples accepts every line. *)
Definition accepting_viewer : @Viewer spec_float unit -> string -> bool := fun _ _ => true.

Module RealExamples.
(** Two lines in the plane z = 0, in the groups 3 and 4. *)
Definition self_line : LinePrimitive R :=
  mkLine (mkVec3 1 2 0)%R (mkVec3 1 0 0)%R
         (setTag DIR_GID 3 (setTag GID 3 Examples.no_tags)) (upd_fresh []).
Definition other_line : LinePrimitive R :=
  mkLine (mkVec3 0 0 0)%R (mkVec3 0 1 0)%R
         (setTag DIR_GID 4 (setTag GID 4 Examples.no_tags)) (upd_fresh []).
(** The angles 0 and pi / 2. *)
Definition angles : list R := [0%R; (PI / 2)%R].
(** The angle between two vectors through the arc cosine. *)
Definition angle_acos (u v : Vec3 R) : R := acos (vdot u v / (vnorm u * vnorm v)).
End RealExamples.

Module MoreExamples.
(** Two points of the line through (1, 2, 0) along the x axis. *)
Definition line_points : list (PointPrimitive R) :=
  [mkPoint (mkVec3 1 2 0)%R Examples.no_tags; mkPoint (mkVec3 4 2 0)%R Examples.no_tags].

(** The threshold 1. *)
Definition one : Double R := 1%R.

(** A point at distance 1/2 from the line through (1, 2, 0) along the x
    axis. *)
Definition near_point : list (PointPrimitive R) :=
  [mkPoint (mkVec3 4 (5 / 2) 0)%R Examples.no_tags].

(** The line through the origin along (3, 1, 0), in single precision, and
    the point (1, 0, 0), at distance 1 in the measure of [getDistance]. *)
Definition slanted_line : LinePrimitive spec_float :=
  mkLine (Examples.v3 0 0 0) (Examples.v3 3 1 0) Examples.no_tags (upd_fresh []).
Definition slanted_cloud : list (PointPrimitive spec_float) := [Examples.pt 1 0 0].

(** A primitive whose direction is the null vector. *)
Definition null_line : LinePrimitive spec_float :=
  mkLine (Examples.v3 0 0 0) (Examples.v3 0 0 0) Examples.no_tags (upd_fresh []).

(** [std::cos] and [std::sin] in single precision at the angles 0 and -0,
    where their values are exact: 1, and the angle itself. The examples
    use no other angle; at any other the two functions are not given
    (NaN). *)
Definition cos_at_zero (x : spec_float) : spec_float :=
  match x with
  | S754_zero _ => Float32.of_Z 1
  | _ => S754_nan
  end.
Definition sin_at_zero (x : spec_float) : spec_float :=
  match x with
  | S754_zero s => S754_zero s
  | _ => S754_nan
  end.
Definition trig_at_zero : TrigOps spec_float :=
  {| s_cos := cos_at_zero; s_sin := sin_at_zero |}.

(** A line along the diagonal (1, 1, 0), in group 4. *)
Definition diagonal_line : LinePrimitive spec_float :=
  mkLine (Examples.v3 0 0 0) (Examples.v3 1 1 0)
         (setTag DIR_GID 4 (setTag GID 4 Examples.no_tags)) (upd_fresh []).

(** A primitive map without primitives. *)
Definition no_prims : @PrimitiveMapT spec_float := [(3, [])].

(** Eigen values with the largest in the middle, and the eigen vectors. *)
Definition eigen_values : Vec3 spec_float := Examples.v3 1 9 4.
Definition eigen_vectors : Mat3 spec_float :=
  mkMat3 (Examples.v3 1 0 0) (Examples.v3 0 1 0) (Examples.v3 0 0 1).
End MoreExamples.

Import Examples.

(* ===================================================================== *)
(** * Properties of the containers                                        *)
(* ===================================================================== *)

Lemma Result_bind_Ok {A B} (m : Result A) (f : A -> Result B) (b : B) :
  m ≫= f = Ok b -> exists a, m = Ok a /\ f a = Ok b.
Proof. destruct m as [a | |]; simpl; [eauto | discriminate | discriminate]. Qed.

Lemma Result_bind_ret {A B} (a : A) (f : A -> Result B) : Ok a ≫= f = f a.
Proof. reflexivity. Qed.

(** Splits a hypothesis [m ≫= f = Ok b] into the steps of the call. *)
Ltac inv_bind H :=
  let a := fresh "r" in
  let Ha := fresh "H" a in
  apply Result_bind_Ok in H as (a & Ha & H); simpl in H.

Lemma at_index_Ok {A} (l : list A) (i : Z) (a : A) :
  at_index l i = Ok a <-> (0 <= i /\ l !! Z.to_nat i = Some a).
Proof.
  unfold at_index. destruct (Z.leb_spec 0 i) as [Hi | Hi].
  - destruct (l !! Z.to_nat i) as [x |]; split.
    + intros [= ->]. auto.
    + intros [_ [= ->]]. reflexivity.
    + discriminate.
    + intros [_ ?]. discriminate.
  - split; [discriminate | lia].
Qed.

Lemma at_index_of_nat {A} (l : list A) (n : nat) (a : A) :
  l !! n = Some a -> at_index l (Z.of_nat n) = Ok a.
Proof.
  intros Hn. apply at_index_Ok. rewrite Nat2Z.id. split; [lia | exact Hn].
Qed.

Lemma at_index_in_range {A} (l : list A) (i : Z) :
  in_range l i -> exists a, at_index l i = Ok a.
Proof.
  intros [Hlo Hhi]. destruct (lookup_lt_is_Some_2 l (Z.to_nat i)) as [a Ha]; [lia |].
  exists a. apply at_index_Ok. auto.
Qed.

Lemma upto_in_range {A} (l : list A) : Forall (in_range l) (upto (length l)).
Proof.
  unfold upto. apply List.Forall_forall. intros i Hi.
  apply in_map_iff in Hi as [n [<- Hn]]. apply in_seq in Hn.
  unfold in_range. lia.
Qed.

(* ===================================================================== *)
(** * [getExtent]                                                         *)
(* ===================================================================== *)

Section ExtentFacts.
Context {Scalar : Type} `{ScalarOps Scalar}.

Lemma select_inliers_filter (self : LinePrimitive Scalar) cloud threshold pids :
  Forall (in_range cloud) pids ->
  forall acc, select_inliers self cloud threshold pids acc
              = Ok (acc ++ List.filter (is_inlier self cloud threshold) pids).
Proof.
  induction 1 as [| pid rest Hpid _ IH]; intros acc; simpl.
  - now rewrite app_nil_r.
  - destruct (at_index_in_range _ _ Hpid) as [p Hp].
    unfold is_inlier at 1. rewrite Hp. simpl.
    destruct (d_ltb (s_to_double (getDistance self (pnt_pos p))) threshold).
    + rewrite IH, <- app_assoc. reflexivity.
    + apply IH.
Qed.

Lemma project_cloud_map (self : LinePrimitive Scalar) cloud inliers :
  Forall (in_range cloud) inliers ->
  forall acc, project_cloud self cloud inliers acc
              = Ok (acc ++ map (fun p => projectPoint self (pnt_pos p)) (points_at cloud inliers)).
Proof.
  induction 1 as [| pid rest Hpid _ IH]; intros acc; simpl.
  - now rewrite app_nil_r.
  - destruct (at_index_in_range _ _ Hpid) as [p Hp].
    rewrite Hp. simpl. rewrite IH, <- app_assoc. reflexivity.
Qed.

Lemma filter_in_range {A} (cloud : list A) (f : Z -> bool) pids :
  Forall (in_range cloud) pids -> Forall (in_range cloud) (List.filter f pids).
Proof.
  intros Hall. apply List.Forall_forall. intros x Hx.
  apply filter_In in Hx as [Hx _].
  eapply List.Forall_forall in Hall; eauto.
Qed.

Lemma points_at_length (cloud : list (PointPrimitive Scalar)) pids :
  Forall (in_range cloud) pids -> length (points_at cloud pids) = length pids.
Proof.
  induction 1 as [| pid rest Hpid _ IH]; simpl; [reflexivity |].
  destruct (at_index_in_range _ _ Hpid) as [p Hp]. rewrite Hp. simpl. now rewrite IH.
Qed.

(** A call on a primitive whose cache is populated returns the cache. *)
Lemma getExtent_cached (self : LinePrimitive Scalar) minMax cloud threshold indices_arg :
  isUpdated (_extents self) = true ->
  getExtent self minMax cloud threshold indices_arg = Ok (0, upd_get (_extents self), self).
Proof. intros Hup. unfold getExtent. now rewrite Hup. Qed.

(** A call that finds no inlier. *)
Lemma getExtent_no_inlier (self : LinePrimitive Scalar) minMax cloud threshold indices_arg :
  isUpdated (_extents self) = false ->
  select_inliers self cloud threshold (visited cloud indices_arg) [] = Ok [] ->
  getExtent self minMax cloud threshold indices_arg = Ok (EXIT_FAILURE, minMax, self).
Proof.
  intros Hup Hsel. unfold getExtent. rewrite Hup.
  change (match indices_arg with Some i => i | None => upto (length cloud) end)
    with (visited cloud indices_arg).
  rewrite Hsel. reflexivity.
Qed.

(** A successful call leaves the cache populated with what it returns. *)
Lemma getExtent_success_populates (self : LinePrimitive Scalar) minMax cloud threshold
    indices_arg minMax' self' :
  getExtent self minMax cloud threshold indices_arg = Ok (EXIT_SUCCESS, minMax', self') ->
  isUpdated (_extents self') = true /\ upd_get (_extents self') = minMax'.
Proof.
  unfold getExtent. destruct (isUpdated (_extents self)) eqn:Hup.
  - intros [= <- <-]. split; [exact Hup | reflexivity].
  - intros Hcall. inv_bind Hcall.
    destruct (length r =? 0)%nat; [discriminate |].
    do 4 inv_bind Hcall.
    injection Hcall as <- <-. split; reflexivity.
Qed.
End ExtentFacts.

Section ScanFacts.
Context {Scalar : Type} `{ScalarOps Scalar}.

(** The ids the scan holds are ids of points it has seen. *)
Lemma scan_from_ids (p0 line_dir : Vec3 Scalar) rest :
  forall st k, (min_id st < k)%nat -> (max_id st < k)%nat ->
  (min_id (scan_from p0 line_dir st k rest) < k + length rest)%nat /\
  (max_id (scan_from p0 line_dir st k rest) < k + length rest)%nat.
Proof.
  induction rest as [| p1 rest IH]; intros st k Hmin Hmax; simpl.
  - lia.
  - specialize (IH (scan_step p0 line_dir st k p1) (S k)).
    assert (Hstep : (min_id (scan_step p0 line_dir st k p1) < S k)%nat /\
                    (max_id (scan_step p0 line_dir st k p1) < S k)%nat).
    { unfold scan_step.
      destruct (s_ltb _ (min_dist st)); simpl; [lia |].
      destruct (s_gtb _ (max_dist st)); simpl; lia. }
    destruct Hstep as [H1 H2]. specialize (IH H1 H2). lia.
Qed.

Context `{!ScalarOrder Scalar}.

Lemma scan_inv_start : scan_inv scan_start [s_of_Z 0].
Proof.
  unfold scan_inv, scan_start; simpl.
  repeat split; try reflexivity; try apply s_ltb_irrefl.
  constructor; [| constructor]. split; apply s_ltb_irrefl.
Qed.

(** [x < y] and [y < z] exclude [z < x]. *)
Lemma s_ltb_chain_false (x y z : Scalar) :
  s_ltb x y = true -> s_ltb z y = false -> s_ltb z x = false.
Proof.
  intros Hxy Hzy. destruct (s_ltb z x) eqn:Hzx; [| reflexivity].
  rewrite (s_ltb_trans z x y Hzx Hxy) in Hzy. discriminate.
Qed.

Lemma s_ltb_chain_false' (x y z : Scalar) :
  s_ltb y x = true -> s_ltb y z = false -> s_ltb x z = false.
Proof.
  intros Hyx Hyz. destruct (s_ltb x z) eqn:Hxz; [| reflexivity].
  rewrite (s_ltb_trans y x z Hyx Hxz) in Hyz. discriminate.
Qed.

Lemma scan_step_inv (p0 line_dir : Vec3 Scalar) st ds p1 :
  scan_inv st ds ->
  scan_inv (scan_step p0 line_dir st (length ds) p1) (ds ++ [scan_dist p0 line_dir p1]).
Proof.
  intros (Hmin & Hmax & Hall & Hmm).
  assert (Hlt_min := lookup_lt_Some _ _ _ Hmin).
  assert (Hlt_max := lookup_lt_Some _ _ _ Hmax).
  unfold scan_step. set (d := scan_dist p0 line_dir p1).
  destruct (s_ltb d (min_dist st)) eqn:Hd; [| unfold s_gtb; destruct (s_ltb (max_dist st) d) eqn:Hd'];
    unfold scan_inv; simpl.
  - (* a new minimum *)
    assert (Hmaxd : s_ltb (max_dist st) d = false) by (eapply s_ltb_chain_false; eauto).
    repeat split.
    + rewrite lookup_app_r, Nat.sub_diag by lia. reflexivity.
    + rewrite lookup_app_l by lia. exact Hmax.
    + apply Forall_app. split.
      * eapply Forall_impl; [exact Hall |]. simpl. intros x [Hx1 Hx2]. split; [| exact Hx2].
        eapply s_ltb_chain_false; eauto.
      * constructor; [| constructor]. split; [apply s_ltb_irrefl | exact Hmaxd].
    + exact Hmaxd.
  - (* a new maximum *)
    repeat split.
    + rewrite lookup_app_l by lia. exact Hmin.
    + rewrite lookup_app_r, Nat.sub_diag by lia. reflexivity.
    + apply Forall_app. split.
      * eapply Forall_impl; [exact Hall |]. simpl. intros x [Hx1 Hx2]. split; [exact Hx1 |].
        eapply s_ltb_chain_false'; eauto.
      * constructor; [| constructor]. split; [exact Hd | apply s_ltb_irrefl].
    + exact Hd.
  - (* neither *)
    repeat split.
    + rewrite lookup_app_l by lia. exact Hmin.
    + rewrite lookup_app_l by lia. exact Hmax.
    + apply Forall_app. split; [exact Hall |].
      constructor; [| constructor]. split; assumption.
    + exact Hmm.
Qed.

Lemma scan_from_inv (p0 line_dir : Vec3 Scalar) rest :
  forall st ds, scan_inv st ds ->
  scan_inv (scan_from p0 line_dir st (length ds) rest)
           (ds ++ map (scan_dist p0 line_dir) rest).
Proof.
  induction rest as [| p1 rest IH]; intros st ds Hinv; simpl.
  - now rewrite app_nil_r.
  - apply (scan_step_inv p0 line_dir _ _ p1) in Hinv.
    apply IH in Hinv. rewrite length_app in Hinv. simpl in Hinv.
    rewrite Nat.add_1_r, <- app_assoc in Hinv. exact Hinv.
Qed.
End ScanFacts.

Section ExtentTheorems.
Context {Scalar : Type} `{ScalarOps Scalar}.

(** What a call computes on a primitive whose cache is not populated. *)
Lemma getExtent_unpopulated (self : LinePrimitive Scalar) minMax cloud threshold indices_arg :
  isUpdated (_extents self) = false ->
  Forall (in_range cloud) (visited cloud indices_arg) ->
  getExtent self minMax cloud threshold indices_arg =
    match projections self cloud threshold indices_arg with
    | [] => Ok (EXIT_FAILURE, minMax, self)
    | p0 :: rest =>
        let st := scan_from p0 (dir self) scan_start 1 rest in
        let pmin := nth (min_id st) (p0 :: rest) p0 in
        let pmax := nth (max_id st) (p0 :: rest) p0 in
        Ok (EXIT_SUCCESS, [pmin; pmax], with_extents self (upd_update [pmin; pmax]))
    end.
Proof.
  intros Hup Hrange.
  assert (Hin : Forall (in_range cloud) (inlier_ids self cloud threshold indices_arg))
    by (apply filter_in_range; exact Hrange).
  assert (Hlen : length (projections self cloud threshold indices_arg)
                 = length (inlier_ids self cloud threshold indices_arg)).
  { unfold projections. rewrite length_map. now apply points_at_length. }
  unfold getExtent. rewrite Hup.
  change (match indices_arg with Some i => i | None => upto (length cloud) end)
    with (visited cloud indices_arg).
  rewrite (select_inliers_filter _ _ _ _ Hrange).
  change ([] ++ List.filter (is_inlier self cloud threshold) (visited cloud indices_arg))
    with (inlier_ids self cloud threshold indices_arg).
  rewrite Result_bind_ret.
  rewrite (project_cloud_map _ _ _ Hin).
  change ([] ++ map (fun p => projectPoint self (pnt_pos p))
                    (points_at cloud (inlier_ids self cloud threshold indices_arg)))
    with (projections self cloud threshold indices_arg).
  rewrite Result_bind_ret.
  destruct (projections self cloud threshold indices_arg) as [| p0 rest].
  - destruct (inlier_ids self cloud threshold indices_arg); [reflexivity | discriminate].
  - destruct (inlier_ids self cloud threshold indices_arg) as [| pid inl]; [discriminate |].
    cbn [length Nat.eqb].
    change (at_index (p0 :: rest) 0) with (Ok p0).
    rewrite Result_bind_ret. cbn [tail].
    destruct (scan_from_ids p0 (dir self) rest scan_start 1) as [Hmin Hmax]; [simpl; lia.. |].
    set (st := scan_from p0 (dir self) scan_start 1 rest) in *.
    destruct (nth_lookup_or_length (p0 :: rest) (min_id st) p0) as [Hmin' | Hbad];
      [| simpl in Hbad; lia].
    destruct (nth_lookup_or_length (p0 :: rest) (max_id st) p0) as [Hmax' | Hbad];
      [| simpl in Hbad; lia].
    rewrite (at_index_of_nat _ _ _ Hmin'), Result_bind_ret.
    rewrite (at_index_of_nat _ _ _ Hmax'), Result_bind_ret.
    reflexivity.
Qed.
End ExtentTheorems.

(* ===================================================================== *)
(** * The comparison of [float] and of the reals                          *)
(* ===================================================================== *)

Module Float32Order.

(** Decides the comparisons of exponents and mantissas in the goal. *)
Ltac cases_compare :=
  repeat match goal with
         | |- context [Z.compare ?a ?b] => destruct (Z.compare_spec a b); subst
         | H : context [Z.compare ?a ?b] |- _ => destruct (Z.compare_spec a b); subst
         | |- context [Pos.compare_cont Eq ?a ?b] =>
             change (Pos.compare_cont Eq a b) with (Pos.compare a b);
             destruct (Pos.compare_spec a b); subst
         | H : context [Pos.compare_cont Eq ?a ?b] |- _ =>
             change (Pos.compare_cont Eq a b) with (Pos.compare a b) in H;
             destruct (Pos.compare_spec a b); subst
         end.

Lemma SFltb_irrefl (x : spec_float) : SFltb x x = false.
Proof.
  unfold SFltb, SFcompare.
  destruct x as [s | s | | s m e]; try destruct s; try reflexivity;
    rewrite Z.compare_refl; change (Pos.compare_cont Eq m m) with (Pos.compare m m);
    rewrite Pos.compare_refl; reflexivity.
Qed.

Lemma SFltb_trans (x y z : spec_float) :
  SFltb x y = true -> SFltb y z = true -> SFltb x z = true.
Proof.
  unfold SFltb, SFcompare.
  destruct x as [sx | sx | | sx mx ex]; destruct y as [sy | sy | | sy my ey];
    destruct z as [sz | sz | | sz mz ez];
    try destruct sx; try destruct sy; try destruct sz;
    try discriminate; try reflexivity;
    intros Hxy Hyz; cases_compare; simpl in *;
    try discriminate; try reflexivity; try lia.
Qed.

Lemma SFltb_negtrans (x y z : spec_float) :
  Float32.ordered x = true -> Float32.ordered y = true -> Float32.ordered z = true ->
  SFltb x y = false -> SFltb y z = false -> SFltb x z = false.
Proof.
  unfold SFltb, SFcompare, Float32.ordered.
  destruct x as [sx | sx | | sx mx ex]; destruct y as [sy | sy | | sy my ey];
    destruct z as [sz | sz | | sz mz ez];
    try destruct sx; try destruct sy; try destruct sz;
    try discriminate; try reflexivity;
    intros _ _ _ Hxy Hyz; cases_compare; simpl in *;
    try discriminate; try reflexivity; try lia.
Qed.

#[global] Instance order : ScalarOrder spec_float := {|
  s_ordered := Float32.ordered;
  s_ltb_irrefl := SFltb_irrefl;
  s_ltb_trans := SFltb_trans;
  s_ltb_negtrans := SFltb_negtrans
|}.

(** Both zeros compare as the literal 0 does. *)
Lemma zero_like_zero (s : bool) : zero_like (S754_zero s).
Proof.
  intros x. split; destruct x as [sx | sx | | sx mx ex]; try destruct sx; reflexivity.
Qed.
End Float32Order.

Module RealOrder.
Lemma Rltb_true (x y : R) : Real.ltb x y = true <-> (x < y)%R.
Proof. unfold Real.ltb. destruct (Rlt_dec x y); split; auto; discriminate. Qed.

Lemma Rltb_false (x y : R) : Real.ltb x y = false <-> (y <= x)%R.
Proof.
  unfold Real.ltb. destruct (Rlt_dec x y); split; auto; try discriminate; lra.
Qed.

Lemma Rltb_irrefl (x : R) : Real.ltb x x = false.
Proof. apply Rltb_false. lra. Qed.

Lemma Rltb_trans (x y z : R) :
  Real.ltb x y = true -> Real.ltb y z = true -> Real.ltb x z = true.
Proof. rewrite !Rltb_true. lra. Qed.

Lemma Rltb_negtrans (x y z : R) :
  true = true -> true = true -> true = true ->
  Real.ltb x y = false -> Real.ltb y z = false -> Real.ltb x z = false.
Proof. intros _ _ _. rewrite !Rltb_false. lra. Qed.

#[global] Instance order : ScalarOrder R := {|
  s_ordered := fun _ => true;
  s_ltb_irrefl := Rltb_irrefl;
  s_ltb_trans := Rltb_trans;
  s_ltb_negtrans := Rltb_negtrans
|}.
End RealOrder.

Section ExtentClaims.
Context {Scalar : Type} `{ScalarOps Scalar}.

(** A call on an unpopulated cache that has inliers succeeds with two of
    their projections. *)
Lemma getExtent_with_inliers (self : LinePrimitive Scalar) minMax cloud threshold indices_arg :
  isUpdated (_extents self) = false ->
  Forall (in_range cloud) (visited cloud indices_arg) ->
  inlier_ids self cloud threshold indices_arg <> [] ->
  exists p0 rest,
    projections self cloud threshold indices_arg = p0 :: rest /\
    let st := scan_from p0 (dir self) scan_start 1 rest in
    let pmin := nth (min_id st) (p0 :: rest) p0 in
    let pmax := nth (max_id st) (p0 :: rest) p0 in
    (min_id st < length (p0 :: rest))%nat /\ (max_id st < length (p0 :: rest))%nat /\
    getExtent self minMax cloud threshold indices_arg
    = Ok (EXIT_SUCCESS, [pmin; pmax], with_extents self (upd_update [pmin; pmax])).
Proof.
  intros Hup Hrange Hne.
  pose proof (getExtent_unpopulated self minMax cloud threshold indices_arg Hup Hrange) as Hcall.
  assert (Hlen : length (projections self cloud threshold indices_arg)
                 = length (inlier_ids self cloud threshold indices_arg)).
  { unfold projections. rewrite length_map. apply points_at_length.
    apply filter_in_range. exact Hrange. }
  destruct (projections self cloud threshold indices_arg) as [| p0 rest].
  - destruct (inlier_ids self cloud threshold indices_arg); [congruence | discriminate].
  - exists p0, rest. split; [reflexivity |].
    destruct (scan_from_ids p0 (dir self) rest scan_start 1) as [Hmin Hmax]; [simpl; lia.. |].
    cbn zeta. repeat split; [simpl; lia | simpl; lia | exact Hcall].
Qed.

(** C7: once a call of getExtent has succeeded on a primitive, every later
    call on that primitive returns the success code and the endpoint pair
    of that first call and leaves the primitive as it is, whatever point
    set, threshold, indices and output container it is given; the cache is
    never computed again. *)
Theorem getExtent_first_computation_wins (self : LinePrimitive Scalar) minMax cloud threshold
    indices_arg minMax1 self1 :
  getExtent self minMax cloud threshold indices_arg = Ok (EXIT_SUCCESS, minMax1, self1) ->
  (forall minMax' cloud' threshold' indices',
      getExtent self1 minMax' cloud' threshold' indices' = Ok (EXIT_SUCCESS, minMax1, self1)) /\
  (forall calls,
      getExtent_calls self1 calls = Ok (map (fun _ => (EXIT_SUCCESS, minMax1)) calls)).
Proof.
  intros Hfirst. apply getExtent_success_populates in Hfirst as [Hup Hget].
  assert (Hnext : forall minMax' cloud' threshold' indices',
             getExtent self1 minMax' cloud' threshold' indices' = Ok (EXIT_SUCCESS, minMax1, self1)).
  { intros. rewrite getExtent_cached by exact Hup. rewrite Hget. reflexivity. }
  split; [exact Hnext |].
  induction calls as [| [[[mm cl] th] ix] calls IH]; [reflexivity |].
  cbn [getExtent_calls]. rewrite Hnext, Result_bind_ret. cbn beta iota.
  rewrite IH, Result_bind_ret. reflexivity.
Qed.

(** C10: on a primitive whose extent cache is not populated, a call of
    getExtent that finds no inlier returns the failure code, leaves the
    output endpoint container as it was and leaves the primitive, hence its
    cache, as it was; a following call whose threshold admits an inlier
    therefore computes and returns two projected endpoints instead of a
    cached empty result. *)
Theorem getExtent_failure_leaves_no_trace (self : LinePrimitive Scalar) minMax cloud threshold
    indices_arg :
  isUpdated (_extents self) = false ->
  select_inliers self cloud threshold (visited cloud indices_arg) [] = Ok [] ->
  getExtent self minMax cloud threshold indices_arg = Ok (EXIT_FAILURE, minMax, self) /\
  forall minMax2 cloud2 threshold2 indices2,
    Forall (in_range cloud2) (visited cloud2 indices2) ->
    inlier_ids self cloud2 threshold2 indices2 <> [] ->
    exists pmin pmax,
      In pmin (projections self cloud2 threshold2 indices2) /\
      In pmax (projections self cloud2 threshold2 indices2) /\
      getExtent_calls self [(minMax, cloud, threshold, indices_arg);
                            (minMax2, cloud2, threshold2, indices2)]
      = Ok [(EXIT_FAILURE, minMax); (EXIT_SUCCESS, [pmin; pmax])].
Proof.
  intros Hup Hnone.
  pose proof (getExtent_no_inlier self minMax cloud threshold indices_arg Hup Hnone) as Hfail.
  split; [exact Hfail |].
  intros minMax2 cloud2 threshold2 indices2 Hrange Hne.
  destruct (getExtent_with_inliers self minMax2 cloud2 threshold2 indices2 Hup Hrange Hne)
    as (p0 & rest & Hproj & Hmin & Hmax & Hcall).
  eexists _, _. rewrite Hproj. split; [apply nth_In; exact Hmin |].
  split; [apply nth_In; exact Hmax |].
  cbn [getExtent_calls]. rewrite Hfail, Result_bind_ret. cbn beta iota.
  rewrite Hcall. reflexivity.
Qed.
End ExtentClaims.

(** The x axis and four points: after the first call, calls with another
    cloud, a threshold of 0 and an index out of range return the same pair. *)
Lemma getExtent_first_computation_wins_witness :
  exists minMax1 self1,
    getExtent (x_axis 0) [] cloud4 (f64 1) None = Ok (EXIT_SUCCESS, minMax1, self1) /\
    getExtent self1 [] far_cloud (f64 0) (Some [99]) = Ok (EXIT_SUCCESS, minMax1, self1) /\
    getExtent_calls self1 [([], far_cloud, f64 0, Some [99]); ([], [], f64 1, None)]
    = Ok [(EXIT_SUCCESS, minMax1); (EXIT_SUCCESS, minMax1)].
Proof.
  eexists _, _.
  assert (Hfirst : getExtent (x_axis 0) [] cloud4 (f64 1) None = Ok (EXIT_SUCCESS, _, _))
    by (vm_compute; reflexivity).
  split; [exact Hfirst |].
  destruct (getExtent_first_computation_wins _ _ _ _ _ _ _ Hfirst) as [Hnext Hcalls].
  split; [apply Hnext | apply Hcalls].
Defined.

(** The x axis and two points at distance 5: no inlier at threshold 1, two
    endpoints at threshold 8. *)
Lemma getExtent_failure_leaves_no_trace_witness :
  isUpdated (_extents (x_axis 0)) = false /\
  select_inliers (x_axis 0) far_cloud (f64 1) (visited far_cloud None) [] = Ok [] /\
  getExtent (x_axis 0) [v3 9 9 9] far_cloud (f64 1) None
  = Ok (EXIT_FAILURE, [v3 9 9 9], x_axis 0) /\
  exists pmin pmax,
    getExtent_calls (x_axis 0) [([v3 9 9 9], far_cloud, f64 1, None);
                                ([v3 9 9 9], far_cloud, f64 8, None)]
    = Ok [(EXIT_FAILURE, [v3 9 9 9]); (EXIT_SUCCESS, [pmin; pmax])].
Proof.
  assert (Hup : isUpdated (_extents (x_axis 0)) = false) by reflexivity.
  assert (Hnone : select_inliers (x_axis 0) far_cloud (f64 1) (visited far_cloud None) [] = Ok [])
    by (vm_compute; reflexivity).
  destruct (getExtent_failure_leaves_no_trace (x_axis 0) [v3 9 9 9] far_cloud (f64 1) None Hup Hnone)
    as [Hfail Hnext].
  split; [exact Hup |]. split; [exact Hnone |]. split; [exact Hfail |].
  destruct (Hnext [v3 9 9 9] far_cloud (f64 8) None) as (pmin & pmax & _ & _ & Hcalls).
  - apply upto_in_range.
  - vm_compute. discriminate.
  - exists pmin, pmax. exact Hcalls.
Defined.

Section ExtentExtrema.
Context {Scalar : Type} `{ScalarOps Scalar} `{!ScalarOrder Scalar}.

(** The extrema the scan returns, in terms of the signed distances of all
    projected points, the first one included. *)
Lemma scan_extrema (p0 line_dir : Vec3 Scalar) (rest : list (Vec3 Scalar)) :
  zero_like (scan_dist p0 line_dir p0) ->
  let st := scan_from p0 line_dir scan_start 1 rest in
  let pmin := nth (min_id st) (p0 :: rest) p0 in
  let pmax := nth (max_id st) (p0 :: rest) p0 in
  forall p, In p (p0 :: rest) ->
    s_ltb (scan_dist p0 line_dir p) (scan_dist p0 line_dir pmin) = false /\
    s_ltb (scan_dist p0 line_dir pmax) (scan_dist p0 line_dir p) = false.
Proof.
  intros Hzero st pmin pmax.
  pose proof (scan_from_inv p0 line_dir rest scan_start [s_of_Z 0] scan_inv_start) as Hinv.
  change (length [s_of_Z 0]) with 1%nat in Hinv. fold st in Hinv.
  destruct Hinv as (Hmin & Hmax & Hall & _).
  set (sd := scan_dist p0 line_dir) in *.
  (* the distance the scan holds for a point and the distance of the point
     compare alike *)
  assert (Hsame : forall i q d, (p0 :: rest) !! i = Some q ->
             ([s_of_Z 0] ++ map sd rest) !! i = Some d ->
             forall x, s_ltb x (sd q) = s_ltb x d /\ s_ltb (sd q) x = s_ltb d x).
  { intros [| i] q d Hq Hd x; simpl in Hq, Hd.
    - injection Hq as <-. injection Hd as <-. apply Hzero.
    - rewrite list_lookup_fmap in Hd. rewrite Hq in Hd. injection Hd as <-. auto. }
  assert (Hpmin : (p0 :: rest) !! min_id st = Some pmin).
  { destruct (nth_lookup_or_length (p0 :: rest) (min_id st) p0) as [Hl | Hl]; [exact Hl |].
    apply lookup_lt_Some in Hmin. simpl in Hmin, Hl. rewrite length_map in Hmin. lia. }
  assert (Hpmax : (p0 :: rest) !! max_id st = Some pmax).
  { destruct (nth_lookup_or_length (p0 :: rest) (max_id st) p0) as [Hl | Hl]; [exact Hl |].
    apply lookup_lt_Some in Hmax. simpl in Hmax, Hl. rewrite length_map in Hmax. lia. }
  intros p Hp. apply list_elem_of_In, list_elem_of_lookup in Hp as [i Hi].
  assert (Hd : exists d, ([s_of_Z 0] ++ map sd rest) !! i = Some d).
  { apply lookup_lt_is_Some_2. apply lookup_lt_Some in Hi. simpl in *.
    rewrite length_map. exact Hi. }
  destruct Hd as [d Hd].
  assert (Hbound : s_ltb d (min_dist st) = false /\ s_ltb (max_dist st) d = false).
  { rewrite Forall_forall in Hall. apply Hall. apply list_elem_of_lookup. eauto. }
  destruct Hbound as [Hlo Hhi].
  destruct (Hsame _ _ _ Hi Hd (sd pmin)) as [_ E1].
  destruct (Hsame _ _ _ Hi Hd (sd pmax)) as [E2 _].
  destruct (Hsame _ _ _ Hpmin Hmin d) as [E3 _].
  destruct (Hsame _ _ _ Hpmax Hmax d) as [_ E4].
  split.
  - rewrite E1, E3. exact Hlo.
  - rewrite E2, E4. exact Hhi.
Qed.

(** On a primitive whose extent cache is not populated, getExtent selects
    exactly the visited points (the given indices, or all) whose
    point-to-line distance is strictly below the threshold; it returns the
    failure code if and only if there is none, leaving its output as it
    was; otherwise it returns two of the images of the inliers under
    projectPoint, the first with no image of smaller and the second with
    no image of larger signed distance dot(p_i - p_0, p_0 + direction),
    where p_0 is the first image. (The indices are in range, and the
    signed distance of p_0 itself compares as 0 does.) *)
Lemma getExtent_selects_and_scans (self : LinePrimitive Scalar) minMax cloud threshold
    indices_arg :
  isUpdated (_extents self) = false ->
  Forall (in_range cloud) (visited cloud indices_arg) ->
  (forall p0, head (projections self cloud threshold indices_arg) = Some p0 ->
              zero_like (scan_dist p0 (dir self) p0)) ->
  let inliers := inlier_ids self cloud threshold indices_arg in
  let proj := projections self cloud threshold indices_arg in
  select_inliers self cloud threshold (visited cloud indices_arg) [] = Ok inliers /\
  (forall pid, In pid inliers <->
     In pid (visited cloud indices_arg) /\
     exists p, at_index cloud pid = Ok p /\
               d_ltb (s_to_double (getDistance self (pnt_pos p))) threshold = true) /\
  ((exists mm s, getExtent self minMax cloud threshold indices_arg = Ok (EXIT_FAILURE, mm, s))
   <-> inliers = []) /\
  (inliers = [] ->
   getExtent self minMax cloud threshold indices_arg = Ok (EXIT_FAILURE, minMax, self)) /\
  (inliers <> [] ->
   exists p0 pmin pmax,
     head proj = Some p0 /\ In pmin proj /\ In pmax proj /\
     getExtent self minMax cloud threshold indices_arg
     = Ok (EXIT_SUCCESS, [pmin; pmax], with_extents self (upd_update [pmin; pmax])) /\
     forall p, In p proj ->
       s_ltb (scan_dist p0 (dir self) p) (scan_dist p0 (dir self) pmin) = false /\
       s_ltb (scan_dist p0 (dir self) pmax) (scan_dist p0 (dir self) p) = false).
Proof.
  intros Hup Hrange Hzero inliers proj.
  assert (Hsel : select_inliers self cloud threshold (visited cloud indices_arg) [] = Ok inliers)
    by (rewrite (select_inliers_filter _ _ _ _ Hrange); reflexivity).
  assert (Hsuccess : inliers <> [] ->
    exists p0 pmin pmax,
     head proj = Some p0 /\ In pmin proj /\ In pmax proj /\
     getExtent self minMax cloud threshold indices_arg
     = Ok (EXIT_SUCCESS, [pmin; pmax], with_extents self (upd_update [pmin; pmax])) /\
     forall p, In p proj ->
       s_ltb (scan_dist p0 (dir self) p) (scan_dist p0 (dir self) pmin) = false /\
       s_ltb (scan_dist p0 (dir self) pmax) (scan_dist p0 (dir self) p) = false).
  { intros Hne.
    destruct (getExtent_with_inliers self minMax cloud threshold indices_arg Hup Hrange Hne)
      as (p0 & rest & Hproj & Hmin & Hmax & Hcall).
    unfold proj. rewrite Hproj in *.
    eexists p0, _, _. split; [reflexivity |].
    split; [apply nth_In; exact Hmin |]. split; [apply nth_In; exact Hmax |].
    split; [exact Hcall |].
    apply scan_extrema. apply Hzero. reflexivity. }
  split; [exact Hsel |]. split; [| split; [| split; [| exact Hsuccess]]].
  - intros pid. unfold inliers, inlier_ids. rewrite filter_In. unfold is_inlier.
    split.
    + intros [Hv Hd]. split; [exact Hv |].
      destruct (at_index cloud pid) as [p | |]; try discriminate. eauto.
    + intros [Hv (p & Hp & Hd)]. split; [exact Hv |]. rewrite Hp. exact Hd.
  - split.
    + intros (mm & s & Hcall).
      destruct inliers as [| pid inl] eqn:Hin; [reflexivity |].
      destruct Hsuccess as (p0 & pmin & pmax & _ & _ & _ & Hok & _); [discriminate |].
      rewrite Hok in Hcall. discriminate.
    + intros Hnil. exists minMax, self. apply getExtent_no_inlier; [exact Hup |].
      rewrite Hsel, Hnil. reflexivity.
  - intros Hnil. apply getExtent_no_inlier; [exact Hup |]. rewrite Hsel, Hnil. reflexivity.
Qed.
End ExtentExtrema.

(* ===================================================================== *)
(** * Ordered maps and sorting                                            *)
(* ===================================================================== *)

Lemma Zltb_strict_total : StrictTotal Z.ltb.
Proof.
  split.
  - intros a. apply Z.ltb_irrefl.
  - intros a b c. rewrite !Z.ltb_lt. lia.
  - intros a b. rewrite !Z.ltb_ge. lia.
Qed.

Lemma pair_ltb_strict_total {A B} (ltA : A -> A -> bool) (ltB : B -> B -> bool) :
  StrictTotal ltA -> StrictTotal ltB -> StrictTotal (pair_ltb ltA ltB).
Proof.
  intros [irA trA toA] [irB trB toB]. split.
  - intros [a b]. unfold pair_ltb; simpl. now rewrite irA, irB.
  - intros [a1 b1] [a2 b2] [a3 b3]. unfold pair_ltb; simpl.
    intros H12 H23.
    destruct (ltA a1 a2) eqn:E12; simpl in H12.
    + destruct (ltA a2 a3) eqn:E23; simpl in H23.
      * now rewrite (trA _ _ _ E12 E23).
      * apply andb_prop in H23 as [N32 _]. apply negb_true_iff in N32.
        rewrite (toA _ _ E23 N32) in E12. now rewrite E12.
    + apply andb_prop in H12 as [N21 L12]. apply negb_true_iff in N21.
      pose proof (toA _ _ E12 N21) as ->.
      destruct (ltA a2 a3) eqn:E23; simpl in *; [reflexivity |].
      apply andb_prop in H23 as [N32 L23]. rewrite N32. simpl. eapply trB; eauto.
  - intros [a1 b1] [a2 b2]. unfold pair_ltb; simpl. intros H12 H21.
    apply orb_false_iff in H12 as [E12 H12]. apply orb_false_iff in H21 as [E21 H21].
    rewrite E21 in H12. rewrite E12 in H21. simpl in *.
    f_equal; [apply toA | apply toB]; assumption.
Qed.

Lemma gidlid_ltb_strict_total : StrictTotal gidlid_ltb.
Proof. apply pair_ltb_strict_total; apply Zltb_strict_total. Qed.

Lemma costkey_ltb_strict_total : StrictTotal costkey_ltb.
Proof. apply pair_ltb_strict_total; apply gidlid_ltb_strict_total. Qed.

Module StdMapFacts.
Section Facts.
Context {K V : Type} (ltb : K -> K -> bool) (Hlt : StrictTotal ltb).
Local Abbreviation ascending := (@StdMap.ascending K V ltb).

Lemma ascending_cons_inv (e : K * V) (m : list (K * V)) :
  ascending (e :: m) ->
  ascending m /\ forall x, In x m -> ltb (fst e) (fst x) = true.
Proof.
  intros Hs. apply StronglySorted_inv in Hs as [Hm Hall].
  split; [exact Hm |]. now apply List.Forall_forall.
Qed.

Lemma ascending_cons (e : K * V) (m : list (K * V)) :
  ascending m -> (forall x, In x m -> ltb (fst e) (fst x) = true) -> ascending (e :: m).
Proof.
  intros Hm Hall. constructor; [exact Hm |]. now apply List.Forall_forall.
Qed.

Lemma lt_neq (a b : K) : ltb a b = true -> a <> b.
Proof. intros Hab ->. rewrite (st_irrefl _ Hlt) in Hab. discriminate. Qed.

(** The entries after [m[k] = v]. *)
Lemma insert_In (k : K) (v : V) (m : list (K * V)) :
  ascending m ->
  forall x, In x (StdMap.insert ltb k v m) <-> x = (k, v) \/ (In x m /\ fst x <> k).
Proof.
  induction m as [| [k' v'] m IH]; intros Hs x; simpl.
  - split; [intros [<- | []]; now left | intros [-> | [[] _]]; now left].
  - apply ascending_cons_inv in Hs as [Hm Hall]. simpl in Hall.
    destruct (ltb k k') eqn:E1; [| destruct (ltb k' k) eqn:E2]; simpl.
    + split.
      * intros [<- | [<- | Hin]]; [now left | right | right].
        -- split; [now left |]. simpl. apply not_eq_sym, lt_neq, E1.
        -- split; [now right |]. apply not_eq_sym, lt_neq.
           eapply (st_trans _ Hlt); [exact E1 | now apply Hall].
      * intros [-> | [[<- | Hin] _]]; auto.
    + rewrite (IH Hm). split.
      * intros [<- | [-> | [Hin Hne]]]; auto.
        right. split; [now left |]. simpl. apply lt_neq, E2.
      * intros [-> | [[<- | Hin] Hne]]; auto.
    + pose proof (st_total _ Hlt _ _ E1 E2) as ->. split.
      * intros [<- | Hin]; [now left |]. right. split; [now right |].
        apply not_eq_sym, lt_neq. now apply Hall.
      * intros [-> | [[<- | Hin] Hne]]; auto. simpl in Hne. congruence.
Qed.

(** [m[k] = v] keeps the order of the entries. *)
Lemma insert_ascending (k : K) (v : V) (m : list (K * V)) :
  ascending m -> ascending (StdMap.insert ltb k v m).
Proof.
  induction m as [| [k' v'] m IH]; intros Hs; simpl.
  - apply ascending_cons; [constructor | intros x []].
  - pose proof Hs as Hs'. apply ascending_cons_inv in Hs' as [Hm Hall]. simpl in Hall.
    destruct (ltb k k') eqn:E1; [| destruct (ltb k' k) eqn:E2].
    + apply ascending_cons; [exact Hs |]. simpl. intros x [<- | Hin]; [exact E1 |].
      eapply (st_trans _ Hlt); [exact E1 | now apply Hall].
    + apply ascending_cons; [now apply IH |]. simpl. intros x Hin.
      apply (insert_In k v m Hm) in Hin as [-> | [Hin _]]; [exact E2 | now apply Hall].
    + apply ascending_cons; [exact Hm | exact Hall].
Qed.

Lemma ascending_NoDup_keys (m : list (K * V)) : ascending m -> NoDup (map fst m).
Proof.
  induction m as [| e m IH]; intros Hs; simpl; [constructor |].
  apply ascending_cons_inv in Hs as [Hm Hall].
  apply NoDup_cons_2; [| now apply IH].
  rewrite list_elem_of_In. intros Hin. apply in_map_iff in Hin as [x [Hx Hin]].
  apply Hall in Hin. rewrite Hx in Hin. rewrite (st_irrefl _ Hlt) in Hin. discriminate.
Qed.

(** [m.find( k )] finds the entry with the key [k]. *)
Lemma find_In (k : K) (v : V) (m : list (K * V)) :
  ascending m -> (StdMap.find ltb k m = Some v <-> In (k, v) m).
Proof.
  induction m as [| [k' v'] m IH]; intros Hs; simpl.
  - split; [discriminate | intros []].
  - apply ascending_cons_inv in Hs as [Hm Hall]. simpl in Hall.
    destruct (ltb k k') eqn:E1; [| destruct (ltb k' k) eqn:E2].
    + split; [discriminate |]. intros [[= -> ->] | Hin].
      * rewrite (st_irrefl _ Hlt) in E1. discriminate.
      * apply Hall in Hin. simpl in Hin.
        pose proof (st_trans _ Hlt _ _ _ E1 Hin) as Hkk.
        rewrite (st_irrefl _ Hlt) in Hkk. discriminate.
    + rewrite (IH Hm). split; [now right |]. intros [[= -> ->] | Hin]; [| exact Hin].
      rewrite (st_irrefl _ Hlt) in E2. discriminate.
    + pose proof (st_total _ Hlt _ _ E1 E2) as ->. split.
      * intros [= ->]. now left.
      * intros [[= ->] | Hin]; [reflexivity |].
        apply Hall in Hin. simpl in Hin. rewrite (st_irrefl _ Hlt) in Hin. discriminate.
Qed.
End Facts.
End StdMapFacts.

(* ===================================================================== *)
(** * The greedy assignment                                               *)
(* ===================================================================== *)

Section GreedyFacts.
Context {Scalar : Type} `{ScalarOps Scalar}.

Lemma greedy_inv_start : greedy_inv (@greedy_start Scalar).
Proof.
  split; simpl; try (intros; split; [set_solver | intros []]); try constructor.
  all: tauto.
Qed.

(** When the loop takes an entry. *)
Lemma both_free_iff (st : @Greedy Scalar) (e : @CostEntry Scalar) :
  greedy_inv st ->
  (both_free st e = true <->
   ~ In (fst (snd e)) (map fst (accepted st)) /\ ~ In (snd (snd e)) (map snd (accepted st))).
Proof.
  intros Hinv. unfold both_free.
  rewrite andb_true_iff, !bool_decide_eq_true.
  rewrite (gi_takenA _ Hinv), (gi_takenB _ Hinv). reflexivity.
Qed.

Lemma greedy_step_chosen (st : @Greedy Scalar) (e : @CostEntry Scalar) :
  chosen (greedy_step st e) = if both_free st e then chosen st ++ [e] else chosen st.
Proof. unfold greedy_step. destruct (both_free st e); reflexivity. Qed.

Lemma greedy_step_inv (st : @Greedy Scalar) (e : @CostEntry Scalar) :
  greedy_inv st -> greedy_inv (greedy_step st e).
Proof.
  intros Hinv. unfold greedy_step.
  destruct (both_free st e) eqn:Hfree; [| exact Hinv].
  apply (both_free_iff st e Hinv) in Hfree as [HfreeA HfreeB].
  destruct e as [c [a b]]. simpl in *.
  destruct Hinv as [HtA HtB HndA HndB Hasc Hent]. unfold accepted in *.
  split; unfold accepted; simpl; rewrite ?map_app; simpl.
  - intros x. rewrite in_app_iff, elem_of_union, elem_of_singleton, HtA.
    simpl. intuition congruence.
  - intros x. rewrite in_app_iff, elem_of_union, elem_of_singleton, HtB.
    simpl. intuition congruence.
  - apply NoDup_app. split; [exact HndA |]. split; [| apply NoDup_singleton].
    intros x Hx Hx'. apply list_elem_of_In in Hx. apply list_elem_of_singleton in Hx'.
    subst x. apply HfreeA, Hx.
  - apply NoDup_app. split; [exact HndB |]. split; [| apply NoDup_singleton].
    intros x Hx Hx'. apply list_elem_of_In in Hx. apply list_elem_of_singleton in Hx'.
    subst x. apply HfreeB, Hx.
  - apply StdMapFacts.insert_ascending; [apply gidlid_ltb_strict_total | exact Hasc].
  - intros x.
    rewrite (StdMapFacts.insert_In _ gidlid_ltb_strict_total a b _ Hasc).
    rewrite in_app_iff, Hent. simpl. split.
    + intros [-> | [Hin _]]; auto.
    + intros [Hin | [<- | []]]; [right | now left].
      split; [exact Hin |]. intros Hfst. apply HfreeA. rewrite <- Hfst. now apply in_map.
Qed.

Lemma greedy_from_inv (cost_list : list (@CostEntry Scalar)) :
  forall st : @Greedy Scalar, greedy_inv st -> greedy_inv (greedy_from st cost_list).
Proof.
  induction cost_list as [| e l IH]; intros st Hinv; simpl; [exact Hinv |].
  apply IH, greedy_step_inv, Hinv.
Qed.

Lemma greedy_inv_greedy (cost_list : list (@CostEntry Scalar)) : greedy_inv (greedy cost_list).
Proof. apply greedy_from_inv, greedy_inv_start. Qed.

Lemma greedy_snoc (pre : list (@CostEntry Scalar)) (e : @CostEntry Scalar) :
  greedy (pre ++ [e]) = greedy_step (greedy pre) e.
Proof. unfold greedy, greedy_from. now rewrite fold_left_app. Qed.

(** The log only grows. *)
Lemma greedy_from_chosen_prefix (post : list (@CostEntry Scalar)) :
  forall st : @Greedy Scalar, exists later, chosen (greedy_from st post) = chosen st ++ later.
Proof.
  induction post as [| e l IH]; intros st; simpl.
  - exists []. now rewrite app_nil_r.
  - destruct (IH (greedy_step st e)) as [later Hl]. rewrite Hl, greedy_step_chosen.
    destruct (both_free st e).
    + exists (e :: later). now rewrite <- app_assoc.
    + now exists later.
Qed.

(** The entries of [corresps] are the pairs taken, each once. *)
Lemma corresps_accepted (st : @Greedy Scalar) :
  greedy_inv st -> Permutation (corresps st) (accepted st).
Proof.
  intros Hinv. apply NoDup_Permutation.
  - apply (NoDup_fmap_1 fst). change (fst <$> corresps st) with (map fst (corresps st)).
    apply StdMapFacts.ascending_NoDup_keys with (ltb := gidlid_ltb);
      [apply gidlid_ltb_strict_total | apply (gi_ascending _ Hinv)].
  - apply (NoDup_fmap_1 fst). apply (gi_nodupA _ Hinv).
  - intros x. rewrite !list_elem_of_In. apply (gi_entries _ Hinv).
Qed.
End GreedyFacts.

Section GreedyClaims.
Context {Scalar : Type} `{ScalarOps Scalar}.

Lemma emit_rowA (c : CorrespT) : map rowA (emit c) = map fst c.
Proof.
  unfold emit. rewrite map_map. apply map_ext. intros [[ga la] [gb lb]]. reflexivity.
Qed.

Lemma emit_rowB (c : CorrespT) : map rowB (emit c) = map snd c.
Proof.
  unfold emit. rewrite map_map. apply map_ext. intros [[ga la] [gb lb]]. reflexivity.
Qed.

(** C8: the scan takes an entry of the cost list if and only if neither
    its A identity nor its B identity belongs to a pair taken before it
    (and otherwise leaves the pairs taken as they are); hence no identity
    is the A side of two pairs taken, none is the B side of two, and the
    same holds of the rows written. *)
Theorem greedy_takes_free_pairs_only (cost_list : list (@CostEntry Scalar)) :
  (forall pre e post, cost_list = pre ++ e :: post ->
     (chosen (greedy (pre ++ [e])) = chosen (greedy pre) ++ [e] <->
        ~ In (fst (snd e)) (map fst (accepted (greedy pre))) /\
        ~ In (snd (snd e)) (map snd (accepted (greedy pre)))) /\
     (chosen (greedy (pre ++ [e])) = chosen (greedy pre) ++ [e] \/
      chosen (greedy (pre ++ [e])) = chosen (greedy pre)) /\
     exists later, chosen (greedy cost_list) = chosen (greedy (pre ++ [e])) ++ later) /\
  NoDup (map fst (accepted (greedy cost_list))) /\
  NoDup (map snd (accepted (greedy cost_list))) /\
  NoDup (map rowA (emit (corresps (greedy cost_list)))) /\
  NoDup (map rowB (emit (corresps (greedy cost_list)))).
Proof.
  pose proof (greedy_inv_greedy cost_list) as Hinv.
  split; [| split; [apply (gi_nodupA _ Hinv) | split; [apply (gi_nodupB _ Hinv) | split]]].
  - intros pre e post ->.
    pose proof (greedy_inv_greedy pre) as Hpre.
    rewrite greedy_snoc, greedy_step_chosen, <- (both_free_iff _ e Hpre).
    split; [| split].
    + destruct (both_free (greedy pre) e); split; auto; try discriminate.
      intros Heq. apply (f_equal (@length _)) in Heq. rewrite length_app in Heq.
      simpl in Heq. lia.
    + destruct (both_free (greedy pre) e); auto.
    + replace (pre ++ e :: post) with ((pre ++ [e]) ++ post) by now rewrite <- app_assoc.
      unfold greedy at 1, greedy_from. rewrite fold_left_app.
      fold (greedy_from (@greedy_start Scalar) (pre ++ [e])). fold (greedy (pre ++ [e])).
      rewrite <- greedy_step_chosen, <- greedy_snoc.
      apply (greedy_from_chosen_prefix post (greedy (pre ++ [e]))).
  - rewrite emit_rowA.
    apply StdMapFacts.ascending_NoDup_keys with (ltb := gidlid_ltb);
      [apply gidlid_ltb_strict_total | apply (gi_ascending _ Hinv)].
  - rewrite emit_rowB.
    rewrite (Permutation_map snd (corresps_accepted _ Hinv)). apply (gi_nodupB _ Hinv).
Qed.

(** C3, as the code has it: the rows are written in ascending order of
    the A identity (gidA, lidA), the iteration order of the map the pairs
    are kept in, and they are the pairs the scan took, each once. *)
Theorem rows_in_A_identity_order (prims_mapA prims_mapB : @PrimitiveMapT Scalar) :
  StronglySorted (fun r1 r2 => gidlid_ltb (rowA r1) (rowA r2) = true)
                 (correspCli_rows prims_mapA prims_mapB) /\
  Permutation (correspCli_rows prims_mapA prims_mapB)
              (emit (accepted (correspond prims_mapA prims_mapB))).
Proof.
  unfold correspCli_rows, correspond.
  pose proof (greedy_inv_greedy (make_cost_list (calc_costs prims_mapA prims_mapB))) as Hinv.
  set (st := greedy (make_cost_list (calc_costs prims_mapA prims_mapB))) in *.
  split.
  - pose proof (gi_ascending _ Hinv) as Hasc. unfold StdMap.ascending in Hasc.
    induction Hasc as [| e m Hm IH Hall]; simpl; constructor.
    + exact IH.
    + unfold emit. apply Forall_map. eapply Forall_impl; [exact Hall |].
      intros [[ga la] [gb lb]]. destruct e as [[ga' la'] [gb' lb']]. simpl. auto.
  - unfold emit. apply Permutation_map. apply corresps_accepted, Hinv.
Qed.
End GreedyClaims.

(** C3, as claimed, fails: on two primitives per side, anchored at x = 0
    and 5 on the A side and at x = 5 and 1 on the B side, the scan takes
    A(0,1)-B(0,0) (cost 0) and then A(0,0)-B(0,1) (cost 1), and the rows are
    written in the other order. *)
Lemma rows_not_in_acceptance_order :
  emit (accepted (correspond primsA primsB)) = [(0, 1, 0, 0); (0, 0, 0, 1)] /\
  map fst (chosen (correspond primsA primsB)) = [f32 0; f32 1] /\
  correspCli_rows primsA primsB = [(0, 0, 0, 1); (0, 1, 0, 0)] /\
  correspCli_rows primsA primsB <> emit (accepted (correspond primsA primsB)).
Proof.
  repeat split; try (vm_compute; reflexivity).
  vm_compute. discriminate.
Qed.

(* ===================================================================== *)
(** * Sorting                                                             *)
(* ===================================================================== *)

Section SortFacts.
Context {A K : Type} (lt : A -> A -> bool) (key : A -> K) (P : A -> Prop).

(** Elements with different keys are comparable, and on the elements of
    [P] the comparison is transitive. *)
Hypothesis lt_total : forall x y, key x <> key y -> lt x y = false -> lt y x = true.
Hypothesis lt_trans : forall x y z, P x -> P y -> P z ->
  lt x y = true -> lt y z = true -> lt x z = true.
Hypothesis lt_asym : forall x y, lt x y = true -> lt y x = false.

Lemma sort_insert_perm (x : A) (l : list A) : Permutation (x :: l) (sort_insert lt x l).
Proof.
  induction l as [| y l IH]; simpl; [reflexivity |].
  destruct (lt x y); [reflexivity |].
  rewrite perm_swap. now apply perm_skip.
Qed.

Lemma std_sort_perm (l : list A) : Permutation l (std_sort lt l).
Proof.
  induction l as [| x l IH]; simpl; [reflexivity |].
  rewrite <- sort_insert_perm. now apply perm_skip.
Qed.

Lemma sort_insert_sorted (x : A) (l : list A) :
  P x -> List.Forall P l -> ~ In (key x) (map key l) ->
  StronglySorted (fun a b => lt a b = true) l ->
  StronglySorted (fun a b => lt a b = true) (sort_insert lt x l).
Proof.
  intros Px. induction l as [| y l IH]; intros Pl Hfresh Hs; simpl.
  - constructor; [constructor | constructor].
  - apply List.Forall_cons_iff in Pl as [Py Pl].
    apply StronglySorted_inv in Hs as [Hl Hy].
    destruct (lt x y) eqn:Hxy.
    + constructor; [constructor; assumption |].
      constructor; [exact Hxy |].
      rewrite List.Forall_forall in Hy, Pl. apply List.Forall_forall. intros z Hz.
      apply (lt_trans x y z); auto.
    + assert (Hyx : lt y x = true).
      { apply lt_total; [| exact Hxy]. intros Hk. apply Hfresh. left. now symmetry. }
      constructor.
      * apply IH; auto. intros Hin. apply Hfresh. now right.
      * apply List.Forall_forall. intros z Hz.
        apply Permutation_in with (l' := x :: l) in Hz;
          [| symmetry; apply sort_insert_perm].
        destruct Hz as [<- | Hz]; [exact Hyx |].
        rewrite List.Forall_forall in Hy. now apply Hy.
Qed.

Lemma std_sort_sorted (l : list A) :
  List.Forall P l -> List.NoDup (map key l) ->
  StronglySorted (fun a b => lt a b = true) (std_sort lt l).
Proof.
  induction l as [| x l IH]; intros Pl Hnd; simpl; [constructor |].
  apply List.Forall_cons_iff in Pl as [Px Pl].
  apply List.NoDup_cons_iff in Hnd as [Hfresh Hnd].
  apply sort_insert_sorted; auto.
  - apply List.Forall_forall. intros z Hz.
    apply Permutation_in with (l' := l) in Hz; [| symmetry; apply std_sort_perm].
    rewrite List.Forall_forall in Pl. now apply Pl.
  - intros Hin. apply Hfresh.
    eapply Permutation_in; [| exact Hin].
    apply Permutation_map. symmetry. apply std_sort_perm.
Qed.

(** Two ascending arrangements of the same elements are the same list:
    the result of sorting does not depend on the sorting algorithm. *)
Lemma sorted_perm_unique (l1 l2 : list A) :
  Permutation l1 l2 ->
  StronglySorted (fun a b => lt a b = true) l1 ->
  StronglySorted (fun a b => lt a b = true) l2 ->
  l1 = l2.
Proof.
  revert l2. induction l1 as [| x l1 IH]; intros l2 Hperm Hs1 Hs2.
  - apply Permutation_nil in Hperm. now subst.
  - destruct l2 as [| y l2]; [apply Permutation_sym, Permutation_nil in Hperm; discriminate |].
    apply StronglySorted_inv in Hs1 as [Hs1 Hx]. apply StronglySorted_inv in Hs2 as [Hs2 Hy].
    rewrite List.Forall_forall in Hx, Hy.
    assert (Hxy : x = y).
    { assert (Hin1 : In x (y :: l2)) by (eapply Permutation_in; [exact Hperm | now left]).
      assert (Hin2 : In y (x :: l1))
        by (eapply Permutation_in; [symmetry; exact Hperm | now left]).
      destruct Hin1 as [-> | Hin1]; [reflexivity |].
      destruct Hin2 as [-> | Hin2]; [reflexivity |].
      apply Hx in Hin2. apply Hy in Hin1. apply lt_asym in Hin1. congruence. }
    subst y. f_equal. apply IH; auto. eapply Permutation_cons_inv; exact Hperm.
Qed.

Lemma sort_unique (l l' : list A) :
  List.Forall P l -> List.NoDup (map key l) ->
  Permutation l l' -> StronglySorted (fun a b => lt a b = true) l' ->
  l' = std_sort lt l.
Proof.
  intros Pl Hnd Hperm Hs. apply sorted_perm_unique; auto.
  - rewrite <- Hperm. apply std_sort_perm.
  - now apply std_sort_sorted.
Qed.
End SortFacts.

(* ===================================================================== *)
(** * The cost table                                                      *)
(* ===================================================================== *)

Section CostFacts.
Context {Scalar : Type} `{ScalarOps Scalar}.

Lemma estimateDistance_euclidean (a b : LinePrimitive Scalar) :
  estimateDistance a b = euclidean (pos a) (pos b).
Proof. reflexivity. Qed.

Lemma insert_all_app (l1 l2 : list (CostKey * Scalar)) (m : CostMap) :
  insert_all (l1 ++ l2) m = insert_all l2 (insert_all l1 m).
Proof. unfold insert_all. apply fold_left_app. Qed.

Lemma costs_primsB_entries (a : LinePrimitive Scalar) gidA lidA gidB primsB :
  forall lidB costs,
    costs_primsB a gidA lidA gidB lidB primsB costs
    = insert_all (entries_primsB a gidA lidA gidB lidB primsB) costs.
Proof. induction primsB as [| b rest IH]; intros lidB costs; simpl; [reflexivity | apply IH]. Qed.

Lemma costs_patchesB_entries (a : LinePrimitive Scalar) gidA lidA prims_mapB :
  forall costs,
    costs_patchesB a gidA lidA prims_mapB costs
    = insert_all (entries_patchesB a gidA lidA prims_mapB) costs.
Proof.
  induction prims_mapB as [| [gidB primsB] rest IH]; intros costs; simpl; [reflexivity |].
  now rewrite IH, costs_primsB_entries, insert_all_app.
Qed.

Lemma costs_primsA_entries gidA (primsA : list (LinePrimitive Scalar)) prims_mapB :
  forall lidA costs,
    costs_primsA gidA lidA primsA prims_mapB costs
    = insert_all (entries_primsA gidA lidA primsA prims_mapB) costs.
Proof.
  induction primsA as [| a rest IH]; intros lidA costs; simpl; [reflexivity |].
  now rewrite IH, costs_patchesB_entries, insert_all_app.
Qed.

Lemma costs_patchesA_entries (prims_mapA prims_mapB : @PrimitiveMapT Scalar) :
  forall costs,
    costs_patchesA prims_mapA prims_mapB costs
    = insert_all (entries_patchesA prims_mapA prims_mapB) costs.
Proof.
  induction prims_mapA as [| [gidA primsA] rest IH]; intros costs; simpl; [reflexivity |].
  now rewrite IH, costs_primsA_entries, insert_all_app.
Qed.

(** The assignments made are those of the pairs of the two maps. *)
Lemma entries_primsB_In (a : LinePrimitive Scalar) gidA lidA gidB primsB x :
  forall lidB,
    In x (entries_primsB a gidA lidA gidB lidB primsB) <->
    exists j b, primsB !! j = Some b /\
                x = (((gidA, lidA), (gidB, lidB + Z.of_nat j)), estimateDistance a b).
Proof.
  induction primsB as [| b0 rest IH]; intros lidB; simpl.
  - split; [intros [] | intros (j & b & Hj & _); discriminate].
  - rewrite IH. split.
    + intros [<- | (j & b & Hj & ->)].
      * exists 0%nat, b0. split; [reflexivity |]. now rewrite Z.add_0_r.
      * exists (S j), b. split; [exact Hj |]. do 3 f_equal. lia.
    + intros ([| j] & b & Hj & ->); simpl in Hj.
      * injection Hj as ->. left. now rewrite Z.add_0_r.
      * right. exists j, b. split; [exact Hj |]. do 3 f_equal. lia.
Qed.

Lemma entries_patchesB_In (a : LinePrimitive Scalar) gidA lidA prims_mapB x :
  In x (entries_patchesB a gidA lidA prims_mapB) <->
  exists gidB j b, prim_at prims_mapB gidB j b /\
                   x = (((gidA, lidA), (gidB, Z.of_nat j)), estimateDistance a b).
Proof.
  induction prims_mapB as [| [gidB primsB] rest IH]; simpl.
  - split; [intros [] | intros (? & ? & ? & (? & [] & _) & _)].
  - rewrite in_app_iff, IH, entries_primsB_In. split.
    + intros [(j & b & Hj & ->) | (g & j & b & (prims & Hin & Hj) & ->)].
      * exists gidB, j, b. split; [| reflexivity]. exists primsB. split; [now left | exact Hj].
      * exists g, j, b. split; [| reflexivity]. exists prims. split; [now right | exact Hj].
    + intros (g & j & b & (prims & [[= <- <-] | Hin] & Hj) & ->).
      * left. exists j, b. split; [exact Hj | reflexivity].
      * right. exists g, j, b. split; [| reflexivity]. exists prims. auto.
Qed.

Lemma entries_primsA_In gidA (primsA : list (LinePrimitive Scalar)) prims_mapB x :
  forall lidA,
    In x (entries_primsA gidA lidA primsA prims_mapB) <->
    exists i a gidB j b, primsA !! i = Some a /\ prim_at prims_mapB gidB j b /\
      x = (((gidA, lidA + Z.of_nat i), (gidB, Z.of_nat j)), estimateDistance a b).
Proof.
  induction primsA as [| a0 rest IH]; intros lidA; simpl.
  - split; [intros [] | intros (i & a & ? & ? & ? & Hi & _); discriminate].
  - rewrite in_app_iff, IH, entries_patchesB_In. split.
    + intros [(g & j & b & Hb & ->) | (i & a & g & j & b & Hi & Hb & ->)].
      * exists 0%nat, a0, g, j, b. split; [reflexivity |]. split; [exact Hb |].
        now rewrite Z.add_0_r.
      * exists (S i), a, g, j, b. split; [exact Hi |]. split; [exact Hb |]. do 3 f_equal. lia.
    + intros ([| i] & a & g & j & b & Hi & Hb & ->); simpl in Hi.
      * injection Hi as ->. left. exists g, j, b. split; [exact Hb |]. now rewrite Z.add_0_r.
      * right. exists i, a, g, j, b. split; [exact Hi |]. split; [exact Hb |]. do 3 f_equal. lia.
Qed.

Lemma entries_patchesA_In (prims_mapA prims_mapB : @PrimitiveMapT Scalar) x :
  In x (entries_patchesA prims_mapA prims_mapB) <->
  exists gidA i a gidB j b, prim_at prims_mapA gidA i a /\ prim_at prims_mapB gidB j b /\
    x = (((gidA, Z.of_nat i), (gidB, Z.of_nat j)), estimateDistance a b).
Proof.
  induction prims_mapA as [| [gidA primsA] rest IH]; simpl.
  - split; [intros [] | intros (? & ? & ? & ? & ? & ? & (? & [] & _) & _)].
  - rewrite in_app_iff, IH, entries_primsA_In. split.
    + intros [(i & a & g & j & b & Hi & Hb & ->) | (gA & i & a & g & j & b & (prims & Hin & Hi) & Hb & ->)].
      * exists gidA, i, a, g, j, b. split; [exists primsA; split; [now left | exact Hi] |].
        split; [exact Hb | reflexivity].
      * exists gA, i, a, g, j, b. split; [exists prims; split; [now right | exact Hi] |].
        split; [exact Hb | reflexivity].
    + intros (gA & i & a & g & j & b & (prims & [[= <- <-] | Hin] & Hi) & Hb & ->).
      * left. exists i, a, g, j, b. auto.
      * right. exists gA, i, a, g, j, b. split; [exists prims; auto |]. auto.
Qed.
End CostFacts.

Module StdMapMore.
Section More.
Context {K V : Type} (ltb : K -> K -> bool) (Hlt : StrictTotal ltb).

Lemma find_insert_eq (k : K) (v : V) (m : list (K * V)) :
  StdMap.ascending ltb m -> StdMap.find ltb k (StdMap.insert ltb k v m) = Some v.
Proof.
  intros Hm. apply (StdMapFacts.find_In ltb Hlt).
  - now apply StdMapFacts.insert_ascending.
  - apply (StdMapFacts.insert_In ltb Hlt); auto.
Qed.

Lemma find_insert_ne (k k0 : K) (v0 : V) (m : list (K * V)) :
  StdMap.ascending ltb m -> k <> k0 ->
  StdMap.find ltb k (StdMap.insert ltb k0 v0 m) = StdMap.find ltb k m.
Proof.
  intros Hm Hne. apply option_eq. intros v.
  rewrite (StdMapFacts.find_In ltb Hlt) by now apply StdMapFacts.insert_ascending.
  rewrite (StdMapFacts.find_In ltb Hlt) by exact Hm.
  rewrite (StdMapFacts.insert_In ltb Hlt) by exact Hm. split.
  - intros [[= -> _] | [Hin _]]; [congruence | exact Hin].
  - intros Hin. right. auto.
Qed.

(** A map holds one value per key. *)
Lemma ascending_functional (k : K) (v v' : V) (m : list (K * V)) :
  StdMap.ascending ltb m -> In (k, v) m -> In (k, v') m -> v = v'.
Proof.
  intros Hm Hv Hv'.
  apply (StdMapFacts.find_In ltb Hlt _ _ _ Hm) in Hv, Hv'. congruence.
Qed.
End More.
End StdMapMore.

Section CostTableFacts.
Context {Scalar : Type} `{ScalarOps Scalar}.

Lemma insert_all_ascending (l : list (CostKey * Scalar)) :
  forall m, StdMap.ascending costkey_ltb m ->
            StdMap.ascending costkey_ltb (insert_all l m).
Proof.
  induction l as [| [k v] l IH]; intros m Hm; simpl; [exact Hm |].
  apply IH. apply StdMapFacts.insert_ascending; [apply costkey_ltb_strict_total | exact Hm].
Qed.

Lemma insert_all_In (l : list (CostKey * Scalar)) :
  forall m x, StdMap.ascending costkey_ltb m ->
              In x (insert_all l m) -> In x l \/ In x m.
Proof.
  induction l as [| [k v] l IH]; intros m x Hm Hin; simpl in *; [now right |].
  apply IH in Hin as [Hin | Hin];
    [now left; right | |
     apply StdMapFacts.insert_ascending; [apply costkey_ltb_strict_total | exact Hm]].
  apply (StdMapFacts.insert_In _ costkey_ltb_strict_total k v m Hm) in Hin as [-> | [Hin _]];
    [left; now left | now right].
Qed.

(** A key that is only ever assigned the value [v] holds [v] in the end. *)
Lemma insert_all_find (k : CostKey) (v : Scalar) (l : list (CostKey * Scalar)) :
  (forall v', In (k, v') l -> v' = v) ->
  forall m, StdMap.ascending costkey_ltb m ->
            In (k, v) l \/ StdMap.find costkey_ltb k m = Some v ->
            StdMap.find costkey_ltb k (insert_all l m) = Some v.
Proof.
  induction l as [| [k0 v0] l IH]; intros Hfun m Hm Hor; simpl.
  - destruct Hor as [[] | Hf]. exact Hf.
  - apply IH.
    + intros v' Hv'. apply Hfun. now right.
    + apply StdMapFacts.insert_ascending; [apply costkey_ltb_strict_total | exact Hm].
    + destruct Hor as [[[= -> ->] | Hin] | Hf].
      * right. apply StdMapMore.find_insert_eq; [apply costkey_ltb_strict_total | exact Hm].
      * now left.
      * right. destruct (decide (k = k0)) as [<- | Hne].
        -- rewrite (Hfun v0) by now left.
           apply StdMapMore.find_insert_eq; [apply costkey_ltb_strict_total | exact Hm].
        -- rewrite StdMapMore.find_insert_ne; auto. apply costkey_ltb_strict_total.
Qed.

Lemma calc_costs_entries (prims_mapA prims_mapB : @PrimitiveMapT Scalar) :
  calc_costs prims_mapA prims_mapB = insert_all (entries_patchesA prims_mapA prims_mapB) [].
Proof. apply costs_patchesA_entries. Qed.

Lemma calc_costs_ascending (prims_mapA prims_mapB : @PrimitiveMapT Scalar) :
  StdMap.ascending costkey_ltb (calc_costs prims_mapA prims_mapB).
Proof. rewrite calc_costs_entries. apply insert_all_ascending. constructor. Qed.

Lemma prim_at_functional (m : @PrimitiveMapT Scalar) gid lid a a' :
  StdMap.ascending Z.ltb m -> prim_at m gid lid a -> prim_at m gid lid a' -> a = a'.
Proof.
  intros Hm (prims & Hin & Hl) (prims' & Hin' & Hl').
  pose proof (StdMapMore.ascending_functional Z.ltb Zltb_strict_total _ _ _ _ Hm Hin Hin') as ->.
  congruence.
Qed.
End CostTableFacts.

Lemma StronglySorted_weaken {A} (R1 R2 : A -> A -> Prop) (l : list A) :
  (forall x y, R1 x y -> R2 x y) -> StronglySorted R1 l -> StronglySorted R2 l.
Proof.
  intros Himp. induction 1 as [| x l Hl IH Hx]; constructor; [exact IH |].
  eapply List.Forall_impl; [| exact Hx]. intros y. apply Himp.
Qed.

Section CostClaims.
Context {Scalar : Type} `{ScalarOps Scalar} `{!ScalarOrder Scalar}.

Lemma s_ltb_asym (x y : Scalar) : s_ltb x y = true -> s_ltb y x = false.
Proof.
  intros Hxy. destruct (s_ltb y x) eqn:Hyx; [| reflexivity].
  pose proof (s_ltb_trans _ _ _ Hxy Hyx) as Hxx. rewrite s_ltb_irrefl in Hxx. discriminate.
Qed.

Lemma strict_total_asym {K} (ltb : K -> K -> bool) (a b : K) :
  StrictTotal ltb -> ltb a b = true -> ltb b a = false.
Proof.
  intros Hlt Hab. destruct (ltb b a) eqn:Hba; [| reflexivity].
  pose proof (st_trans _ Hlt _ _ _ Hab Hba) as Haa. rewrite (st_irrefl _ Hlt) in Haa.
  discriminate.
Qed.

Lemma entry_ltb_total (x y : @CostEntry Scalar) :
  snd x <> snd y -> entry_ltb x y = false -> entry_ltb y x = true.
Proof.
  destruct x as [c1 k1], y as [c2 k2]. unfold entry_ltb, pair_ltb. simpl.
  intros Hne Hxy. apply orb_false_iff in Hxy as [Hc Hk].
  destruct (s_ltb c2 c1) eqn:Hc'; [reflexivity |]. simpl in *. rewrite Hc. simpl.
  destruct (costkey_ltb k2 k1) eqn:Hk'; [reflexivity |].
  exfalso. apply Hne. apply (st_total _ costkey_ltb_strict_total); assumption.
Qed.

Lemma entry_ltb_asym (x y : @CostEntry Scalar) :
  entry_ltb x y = true -> entry_ltb y x = false.
Proof.
  destruct x as [c1 k1], y as [c2 k2]. unfold entry_ltb, pair_ltb. simpl.
  intros Hxy. apply orb_true_iff in Hxy as [Hc | Hck].
  - rewrite (s_ltb_asym _ _ Hc), Hc. reflexivity.
  - apply andb_true_iff in Hck as [Hc Hk]. apply negb_true_iff in Hc. rewrite Hc. simpl.
    rewrite (strict_total_asym _ _ _ costkey_ltb_strict_total Hk). apply andb_false_r.
Qed.

Lemma entry_ltb_trans (x y z : @CostEntry Scalar) :
  s_ordered (fst x) = true -> s_ordered (fst y) = true -> s_ordered (fst z) = true ->
  entry_ltb x y = true -> entry_ltb y z = true -> entry_ltb x z = true.
Proof.
  destruct x as [c1 k1], y as [c2 k2], z as [c3 k3]. unfold entry_ltb, pair_ltb. simpl.
  intros O1 O2 O3 Hxy Hyz.
  destruct (s_ltb c1 c3) eqn:H13; [reflexivity |]. simpl.
  apply orb_true_iff in Hxy as [H12 | Hxy]; apply orb_true_iff in Hyz as [H23 | Hyz].
  - rewrite (s_ltb_trans _ _ _ H12 H23) in H13. discriminate.
  - apply andb_true_iff in Hyz as [N32 _]. apply negb_true_iff in N32.
    rewrite (s_ltb_negtrans c1 c3 c2 O1 O3 O2 H13 N32) in H12. discriminate.
  - apply andb_true_iff in Hxy as [N21 _]. apply negb_true_iff in N21.
    rewrite (s_ltb_negtrans c2 c1 c3 O2 O1 O3 N21 H13) in H23. discriminate.
  - apply andb_true_iff in Hxy as [N21 K12]. apply negb_true_iff in N21.
    apply andb_true_iff in Hyz as [N32 K23]. apply negb_true_iff in N32.
    rewrite (s_ltb_negtrans c3 c2 c1 O3 O2 O1 N32 N21). simpl.
    apply (st_trans _ costkey_ltb_strict_total _ _ _ K12 K23).
Qed.

(** C9: for well-formed primitive maps whose pairwise costs are ordered
    values, the cost stored for a pair of primitives a and b is the
    Euclidean distance between their anchor positions, every entry of the
    candidate list is such a pair with that cost, and the candidate list
    ascends: of two entries the earlier has the smaller cost or, at
    incomparable (tied) costs, the smaller identity pair. *)
Theorem cost_list_of_anchor_distances_ascends (prims_mapA prims_mapB : @PrimitiveMapT Scalar) :
  StdMap.ascending Z.ltb prims_mapA ->
  StdMap.ascending Z.ltb prims_mapB ->
  costs_ordered prims_mapA prims_mapB ->
  let costs := calc_costs prims_mapA prims_mapB in
  let cost_list := make_cost_list costs in
  (forall gidA lidA a gidB lidB b,
      prim_at prims_mapA gidA lidA a -> prim_at prims_mapB gidB lidB b ->
      StdMap.find costkey_ltb ((gidA, Z.of_nat lidA), (gidB, Z.of_nat lidB)) costs
      = Some (euclidean (pos a) (pos b)) /\
      In (euclidean (pos a) (pos b), ((gidA, Z.of_nat lidA), (gidB, Z.of_nat lidB))) cost_list) /\
  (forall c key, In (c, key) cost_list ->
      exists gidA lidA a gidB lidB b,
        prim_at prims_mapA gidA lidA a /\ prim_at prims_mapB gidB lidB b /\
        key = ((gidA, Z.of_nat lidA), (gidB, Z.of_nat lidB)) /\
        c = euclidean (pos a) (pos b)) /\
  StronglySorted (fun e1 e2 =>
                    s_ltb (fst e1) (fst e2) = true \/
                    (s_ltb (fst e2) (fst e1) = false /\ costkey_ltb (snd e1) (snd e2) = true))
                 cost_list.
Proof.
  intros HwfA HwfB Hord costs cost_list.
  pose proof (calc_costs_ascending prims_mapA prims_mapB) as Hasc. fold costs in Hasc.
  assert (Hperm : Permutation (map (fun it => (snd it, fst it)) costs) cost_list)
    by apply std_sort_perm.
  assert (Hswap : forall c key, In (c, key) cost_list <-> In (key, c) costs).
  { intros c key. split.
    - intros Hin. apply Permutation_in with (l' := map (fun it => (snd it, fst it)) costs) in Hin;
        [| now symmetry].
      apply in_map_iff in Hin as [[k v] [[= <- <-] Hin]]. exact Hin.
    - intros Hin. eapply Permutation_in; [exact Hperm |].
      apply in_map_iff. exists (key, c). auto. }
  assert (Hfrom : forall c key, In (key, c) costs ->
      exists gidA lidA a gidB lidB b,
        prim_at prims_mapA gidA lidA a /\ prim_at prims_mapB gidB lidB b /\
        key = ((gidA, Z.of_nat lidA), (gidB, Z.of_nat lidB)) /\
        c = euclidean (pos a) (pos b)).
  { intros c key Hin. unfold costs in Hin. rewrite calc_costs_entries in Hin.
    apply insert_all_In in Hin as [Hin | []]; [| constructor].
    apply entries_patchesA_In in Hin as (gA & i & a & gB & j & b & Ha & Hb & [= -> ->]).
    exists gA, i, a, gB, j, b. auto. }
  split; [| split].
  - intros gidA lidA a gidB lidB b Ha Hb.
    assert (Hfind : StdMap.find costkey_ltb ((gidA, Z.of_nat lidA), (gidB, Z.of_nat lidB)) costs
                    = Some (euclidean (pos a) (pos b))).
    { unfold costs. rewrite calc_costs_entries. apply insert_all_find.
      - intros v' Hv'.
        apply entries_patchesA_In in Hv' as (gA & i & a' & gB & j & b' & Ha' & Hb' & [= -> Hi -> Hj ->]).
        apply Nat2Z.inj in Hi, Hj. subst i j.
        rewrite (prim_at_functional _ _ _ _ _ HwfA Ha Ha'), (prim_at_functional _ _ _ _ _ HwfB Hb Hb').
        reflexivity.
      - constructor.
      - left. apply entries_patchesA_In. exists gidA, lidA, a, gidB, lidB, b. auto. }
    split; [exact Hfind |].
    apply Hswap. apply (StdMapFacts.find_In _ costkey_ltb_strict_total _ _ _ Hasc). exact Hfind.
  - intros c key Hin. apply Hfrom, Hswap, Hin.
  - eapply StronglySorted_weaken.
    2: { unfold cost_list, make_cost_list.
         apply (std_sort_sorted entry_ltb snd (fun e => s_ordered (fst e) = true)).
         - apply entry_ltb_total.
         - intros x y z. apply entry_ltb_trans.
         - apply List.Forall_forall. intros [c key] Hin.
           apply in_map_iff in Hin as [[k v] [[= <- <-] Hin]]. simpl.
           apply Hfrom in Hin as (gA & i & a & gB & j & b & Ha & Hb & _ & ->).
           apply (Hord _ _ _ _ _ _ Ha Hb).
         - rewrite map_map. simpl.
           apply NoDup_ListNoDup.
           apply (StdMapFacts.ascending_NoDup_keys _ costkey_ltb_strict_total _ Hasc). }
    intros [c1 k1] [c2 k2]. unfold entry_ltb, pair_ltb. simpl. intros Hlt.
    apply orb_true_iff in Hlt as [Hc | Hck]; [now left | right].
    apply andb_true_iff in Hck as [Hc Hk]. apply negb_true_iff in Hc. auto.
Qed.
End CostClaims.

Lemma examples_ascending :
  StdMap.ascending Z.ltb primsA /\ StdMap.ascending Z.ltb primsB.
Proof. split; (constructor; [constructor | constructor]). Qed.

Lemma examples_costs_ordered : costs_ordered primsA primsB.
Proof.
  intros gidA lidA a gidB lidB b (pa & [[= <- <-] | []] & Ha) (pb & [[= <- <-] | []] & Hb).
  destruct lidA as [| [| lidA]]; simpl in Ha; try discriminate;
    destruct lidB as [| [| lidB]]; simpl in Hb; try discriminate;
    injection Ha as <-; injection Hb as <-; vm_compute; reflexivity.
Qed.

(** Two primitives per side, in single precision. *)
Lemma cost_list_of_anchor_distances_ascends_witness :
  StdMap.find costkey_ltb ((0, Z.of_nat 0), (0, Z.of_nat 1)) (calc_costs primsA primsB)
  = Some (euclidean (pos (line_at 0)) (pos (line_at 1))) /\
  StronglySorted (fun e1 e2 =>
                    s_ltb (fst e1) (fst e2) = true \/
                    (s_ltb (fst e2) (fst e1) = false /\ costkey_ltb (snd e1) (snd e2) = true))
                 (make_cost_list (calc_costs primsA primsB)).
Proof.
  destruct (cost_list_of_anchor_distances_ascends primsA primsB
              (proj1 examples_ascending) (proj2 examples_ascending) examples_costs_ordered)
    as (Hcost & _ & Hsorted).
  split; [| exact Hsorted].
  assert (Ha : prim_at primsA 0 0%nat (line_at 0))
    by (exists [line_at 0; line_at 5]; split; [now left | reflexivity]).
  assert (Hb : prim_at primsB 0 1%nat (line_at 1))
    by (exists [line_at 5; line_at 1]; split; [now left | reflexivity]).
  exact (proj1 (Hcost 0 0%nat (line_at 0) 0 1%nat (line_at 1) Ha Hb)).
Defined.

(* ===================================================================== *)
(** * [generateFrom]: the tags of the candidate                           *)
(* ===================================================================== *)

Section GenerateFromTags.
Context {Scalar : Type} `{ScalarOps Scalar} `{TrigOps Scalar}.

(** C6: for every pair of primitives self and other and every generation
    request whose closest-angle index is in range, generateFrom returns a
    candidate whose GID is that of self, whose DIR_GID is that of other
    and whose STATUS is UNSET. *)
Theorem generateFrom_tags (fresh_tags : Tags PrimTag) (UNSET : Z)
    (angleInRad : Vec3 Scalar -> Vec3 Scalar -> Scalar)
    (self other : LinePrimitive Scalar) (closest_angle_id : Z) (angles : list Scalar)
    (angle_multiplier : Scalar) :
  in_range angles closest_angle_id ->
  exists out,
    generateFrom fresh_tags UNSET angleInRad self other closest_angle_id angles angle_multiplier
    = Ok (true, out) /\
    getTag GID (tags out) = getTag GID (tags self) /\
    getTag DIR_GID (tags out) = getTag DIR_GID (tags other) /\
    getTag STATUS (tags out) = UNSET.
Proof.
  intros Hid. destruct (at_index_in_range _ _ Hid) as [a Ha].
  unfold generateFrom. rewrite Ha, Result_bind_ret.
  eexists. split; [reflexivity |]. repeat split.
Qed.
End GenerateFromTags.

(** Two lines in the groups 3 and 4 and the angle pi / 2. *)
Lemma generateFrom_tags_witness :
  in_range RealExamples.angles 1 /\
  exists out,
    generateFrom Examples.no_tags (-1) RealExamples.angle_acos RealExamples.self_line
                 RealExamples.other_line 1 RealExamples.angles 1%R = Ok (true, out) /\
    getTag GID (tags out) = 3 /\ getTag DIR_GID (tags out) = 4 /\ getTag STATUS (tags out) = -1.
Proof.
  assert (Hid : in_range RealExamples.angles 1) by (unfold in_range; simpl; lia).
  split; [exact Hid |].
  destruct (generateFrom_tags Examples.no_tags (-1) RealExamples.angle_acos RealExamples.self_line
              RealExamples.other_line 1 RealExamples.angles 1%R Hid)
    as (out & Hout & Hgid & Hdir & Hstatus).
  exists out. split; [exact Hout |]. split; [exact Hgid |]. split; [exact Hdir | exact Hstatus].
Defined.

(* ===================================================================== *)
(** * [getSpatialSignificance] on an empty population                     *)
(* ===================================================================== *)

Section SignificanceFacts.
Context {Scalar : Type} `{ScalarOps Scalar}.

Lemma setConstant_twice (c c' : Scalar) (v : list Scalar) :
  setConstant c (setConstant c' v) = setConstant c v.
Proof. unfold setConstant. rewrite map_map. reflexivity. Qed.

(** The value -1 written for an empty population is overwritten before it
    can be returned: the call goes on as for any other population. *)
Lemma getSpatialSignificance_empty (eigenDecomposition : list (PointPrimitive Scalar) -> list Z -> Vec3 Scalar)
    (self : LinePrimitive Scalar) in_ points indices return_squared :
  population self points indices = [] ->
  getSpatialSignificance eigenDecomposition self in_ points indices return_squared
  = set_coeff0 (if return_squared then vx (eigenDecomposition points [])
                else s_sqrt (vx (eigenDecomposition points [])))
               (setConstant (s_of_Z 0) in_).
Proof.
  intros Hpop. unfold getSpatialSignificance. rewrite Hpop. simpl.
  rewrite setConstant_twice. destruct return_squared; reflexivity.
Qed.
End SignificanceFacts.

Lemma SFsqrt_not_negative (x : spec_float) :
  SFltb (SFsqrt Float32.prec Float32.emax x) (Float32.of_Z 0) = false.
Proof.
  destruct x as [s | s | | s m e]; try destruct s; try reflexivity.
  unfold SFsqrt.
  destruct (SFsqrt_core_binary Float32.prec Float32.emax (Z.pos m) e) as [[mz ez] lz].
  unfold binary_round_aux.
  destruct (shr_fexp Float32.prec Float32.emax mz ez lz) as [mrs' e'].
  destruct (shr_fexp Float32.prec Float32.emax _ e' loc_Exact) as [mrs'' e''].
  destruct (shr_m mrs''); try reflexivity.
  destruct (Z.leb e'' _); reflexivity.
Qed.

(** C1, on the code: in single precision, with the eigen value not asked
    squared, a call on an empty population returns the square root of the
    first eigen value followed by zeros; no coefficient is negative, so
    the sentinel -1 does not reach the caller. *)
Theorem getSpatialSignificance_returns_no_sentinel
    (eigenDecomposition : list (PointPrimitive spec_float) -> list Z -> Vec3 spec_float)
    (self : LinePrimitive spec_float) (in_ : list spec_float)
    (points : list (PointPrimitive spec_float)) (indices : option (list Z)) :
  population self points indices = [] ->
  in_ <> [] ->
  exists out,
    getSpatialSignificance eigenDecomposition self in_ points indices false = Ok out /\
    out = s_sqrt (vx (eigenDecomposition points [])) :: tail (setConstant (s_of_Z 0) in_) /\
    List.Forall (fun c => s_ltb c (s_of_Z 0) = false) out.
Proof.
  intros Hpop Hne. rewrite (getSpatialSignificance_empty _ _ _ _ _ _ Hpop).
  destruct in_ as [| c0 rest]; [congruence |]. simpl.
  eexists. split; [reflexivity |]. split; [reflexivity |].
  constructor.
  - apply SFsqrt_not_negative.
  - unfold setConstant. apply List.Forall_forall. intros c Hc.
    apply in_map_iff in Hc as [? [<- _]]. reflexivity.
Qed.

(** A primitive of group 7 among points of group 0, and a first eigen value
    of 4: the call returns (2, 0). *)
Lemma getSpatialSignificance_returns_no_sentinel_witness :
  population (x_axis 7) cloud4 None = [] /\
  exists out,
    getSpatialSignificance (fun _ _ => v3 4 0 0) (x_axis 7) [f32 5; f32 5] cloud4 None false
    = Ok out /\
    out = [f32 2; f32 0].
Proof.
  assert (Hpop : population (x_axis 7) cloud4 None = []) by reflexivity.
  split; [exact Hpop |].
  destruct (getSpatialSignificance_returns_no_sentinel (fun _ _ => v3 4 0 0) (x_axis 7)
              [f32 5; f32 5] cloud4 None Hpop) as (out & Hcall & Hout & _);
    [discriminate |].
  exists out. split; [exact Hcall |]. rewrite Hout. vm_compute. reflexivity.
Defined.

(* ===================================================================== *)
(** * [draw]: retrying and degrading                                      *)
(* ===================================================================== *)

Section DrawFacts.
Context {Scalar : Type} `{ScalarOps Scalar} {Colour : Type}.
Variable addLine_result : @Viewer Scalar Colour -> string -> bool.

Variable line : LinePrimitive Scalar.
Variable cloud : list (PointPrimitive Scalar).
Variable radius : Scalar.
Variable indices : option (list Z).
Hypothesis Hfresh : isUpdated (_extents line) = false.
Hypothesis Hrange : Forall (in_range cloud) (visited cloud indices).

Lemma attempt_fails_getExtent (k : nat) (minMax : ExtentsT Scalar) :
  attempt_fails line cloud radius indices k ->
  getExtent line minMax cloud (s_to_double (doubled radius k)) indices
  = Ok (EXIT_FAILURE, minMax, line).
Proof.
  intros Hk. apply getExtent_no_inlier; [exact Hfresh |].
  rewrite (select_inliers_filter _ _ _ _ Hrange). simpl app.
  unfold attempt_fails, inlier_ids in Hk. now rewrite Hk.
Qed.

(** From attempt [s] on, with all attempts up to the tenth failing. *)
Lemma draw_retry_all_fail (n : nat) :
  forall s : nat,
    (s + S n = 10)%nat ->
    (forall k, (s <= k < 10)%nat -> attempt_fails line cloud radius indices k) ->
    draw_retry (S n) line cloud indices [] (Z.of_nat s) (doubled radius s)
    = Ok (mkRetry EXIT_FAILURE [] line 10 (doubled radius 10)).
Proof.
  induction n as [| n IH]; intros s Hs Hfail.
  - assert (s = 9%nat) by lia. subst s.
    cbn [draw_retry]. rewrite attempt_fails_getExtent by (apply Hfail; lia).
    reflexivity.
  - cbn [draw_retry]. rewrite attempt_fails_getExtent by (apply Hfail; lia).
    rewrite Result_bind_ret. cbn beta iota. cbn [length Nat.ltb Nat.leb].
    replace (Z.of_nat s + 1 <? max_it) with true
      by (symmetry; apply Z.ltb_lt; unfold max_it; lia).
    replace (Z.of_nat s + 1) with (Z.of_nat (S s)) by lia.
    change (s_mul (doubled radius s) (s_of_Z 2)) with (doubled radius (S s)).
    apply IH; [lia |]. intros k Hk. apply Hfail. lia.
Qed.

(** From attempt [s] on, with attempt [k] the first to find an inlier. *)
Lemma draw_retry_first_success (d : nat) :
  forall (s k n : nat),
    (k = s + d)%nat -> (k < 10)%nat -> (s + S n = 10)%nat ->
    (forall j, (s <= j < k)%nat -> attempt_fails line cloud radius indices j) ->
    ~ attempt_fails line cloud radius indices k ->
    exists pmin pmax,
      getExtent line [] cloud (s_to_double (doubled radius k)) indices
      = Ok (EXIT_SUCCESS, [pmin; pmax], with_extents line (upd_update [pmin; pmax])) /\
      draw_retry (S n) line cloud indices [] (Z.of_nat s) (doubled radius s)
      = Ok (mkRetry EXIT_SUCCESS [pmin; pmax] (with_extents line (upd_update [pmin; pmax]))
                    (Z.of_nat k) (doubled radius (S k))).
Proof.
  induction d as [| d IH]; intros s k n Hk Hlt Hs Hfail Hok.
  - rewrite Nat.add_0_r in Hk. subst k.
    destruct (getExtent_with_inliers line [] cloud (s_to_double (doubled radius s)) indices
                Hfresh Hrange Hok)
      as (p0 & rest & _ & _ & _ & Hcall).
    eexists _, _. split; [exact Hcall |].
    cbn [draw_retry]. rewrite Hcall. reflexivity.
  - destruct n as [| n]; [lia |].
    destruct (IH (S s) k n) as (pmin & pmax & Hcall & Hretry); try lia; auto.
    { intros j Hj. apply Hfail. lia. }
    exists pmin, pmax. split; [exact Hcall |].
    cbn [draw_retry]. rewrite attempt_fails_getExtent by (apply Hfail; lia).
    rewrite Result_bind_ret. cbn beta iota. cbn [length Nat.ltb Nat.leb].
    replace (Z.of_nat s + 1 <? max_it) with true
      by (symmetry; apply Z.ltb_lt; unfold max_it; lia).
    replace (Z.of_nat s + 1) with (Z.of_nat (S s)) by lia.
    change (s_mul (doubled radius s) (s_of_Z 2)) with (doubled radius (S s)).
    exact Hretry.
Qed.
End DrawFacts.

Section DrawClaims.
Context {Scalar : Type} `{ScalarOps Scalar} {Colour : Type}.

(** The two points [draw] hands to the visualizer for a segment. *)
Lemma stretched_pair (p0 p1 : Vec3 Scalar) (stretch : Scalar) :
  exists q0 q1, stretched [p0; p1] stretch = Ok [q0; q1].
Proof. eexists _, _. reflexivity. Qed.

(** What [draw] does once its loop is over. *)
Lemma draw_after_retry (addLine_result : @Viewer Scalar Colour -> string -> bool)
    line cloud radius indices v plane_name (r g b : Colour) viewport_id stretch rs q0 q1 :
  draw_retry 10 line cloud indices [] 0 radius = Ok rs ->
  stretched (if max_it <=? rs_it rs then fallback_segment line else rs_minMax rs) stretch
  = Ok [q0; q1] ->
  draw addLine_result line cloud radius indices v plane_name r g b viewport_id stretch
  = Ok (rs_err rs + Z.b2z (addLine_result v plane_name),
        v ++ [AddLine q0 q1 r g b plane_name viewport_id] ++ [SetLineWidth plane_name],
        rs_line rs).
Proof.
  intros Hretry Hps. unfold draw. change (Z.to_nat max_it) with 10%nat.
  rewrite Hretry, Result_bind_ret. cbn zeta.
  rewrite Hps, Result_bind_ret. unfold draw_points. cbn [length Nat.eqb negb].
  change (at_index [q0; q1] 0) with (Ok q0). change (at_index [q0; q1] 1) with (Ok q1).
  rewrite !Result_bind_ret. cbn beta iota. rewrite <- app_assoc. reflexivity.
Qed.

(** C2, as the code has it: on a primitive whose extent cache is not
    populated, draw calls getExtent with the radius doubled after each
    attempt that finds no inlier and stops at the first attempt that finds
    one, drawing the segment it returns; it makes at most ten attempts
    (the loop never exhausts its ten units of fuel). If all ten attempts fail it draws none the
    less (the call returns, with the failure code of the last attempt added
    to the visualizer's result): the segment from the primitive's position
    to position + direction / 10. *)
Theorem draw_retries_then_degrades (addLine_result : @Viewer Scalar Colour -> string -> bool)
    (line : LinePrimitive Scalar) (cloud : list (PointPrimitive Scalar)) (radius : Scalar)
    (indices : option (list Z)) (v : Viewer) (plane_name : string) (r g b : Colour)
    (viewport_id : Z) (stretch : Scalar) :
  isUpdated (_extents line) = false ->
  Forall (in_range cloud) (visited cloud indices) ->
  (forall k, (k < 10)%nat ->
     (forall j, (j < k)%nat -> attempt_fails line cloud radius indices j) ->
     ~ attempt_fails line cloud radius indices k ->
     exists pmin pmax q0 q1,
       getExtent line [] cloud (s_to_double (doubled radius k)) indices
       = Ok (EXIT_SUCCESS, [pmin; pmax], with_extents line (upd_update [pmin; pmax])) /\
       stretched [pmin; pmax] stretch = Ok [q0; q1] /\
       draw addLine_result line cloud radius indices v plane_name r g b viewport_id stretch
       = Ok (EXIT_SUCCESS + Z.b2z (addLine_result v plane_name),
             v ++ [AddLine q0 q1 r g b plane_name viewport_id] ++ [SetLineWidth plane_name],
             with_extents line (upd_update [pmin; pmax]))) /\
  ((forall k, (k < 10)%nat -> attempt_fails line cloud radius indices k) ->
   draw_retry 10 line cloud indices [] 0 radius
   = Ok (mkRetry EXIT_FAILURE [] line 10 (doubled radius 10)) /\
   exists q0 q1,
     stretched [pos line; vadd (pos line) (vdivs (dir line) (s_of_Z 10))] stretch = Ok [q0; q1] /\
     draw addLine_result line cloud radius indices v plane_name r g b viewport_id stretch
     = Ok (EXIT_FAILURE + Z.b2z (addLine_result v plane_name),
           v ++ [AddLine q0 q1 r g b plane_name viewport_id] ++ [SetLineWidth plane_name],
           line)).
Proof.
  intros Hfresh Hrange. split.
  - intros k Hk Hfail Hok.
    destruct (draw_retry_first_success line cloud radius indices Hfresh Hrange k 0 k 9)
      as (pmin & pmax & Hcall & Hretry); try lia; auto.
    { intros j Hj. apply Hfail. lia. }
    destruct (stretched_pair pmin pmax stretch) as (q0 & q1 & Hps).
    exists pmin, pmax, q0, q1. split; [exact Hcall |]. split; [exact Hps |].
    change (Z.of_nat 0) with 0 in Hretry. change (doubled radius 0) with radius in Hretry.
    rewrite (draw_after_retry addLine_result _ _ _ _ v plane_name r g b viewport_id stretch
               _ q0 q1 Hretry); [reflexivity |].
    cbn [rs_it rs_minMax].
    replace (max_it <=? Z.of_nat k) with false
      by (symmetry; apply Z.leb_gt; unfold max_it; lia).
    exact Hps.
  - intros Hfail.
    assert (Hretry : draw_retry 10 line cloud indices [] 0 radius
                     = Ok (mkRetry EXIT_FAILURE [] line 10 (doubled radius 10))).
    { apply (draw_retry_all_fail line cloud radius indices Hfresh Hrange 9 0); [lia |].
      intros k Hk. apply Hfail. lia. }
    split; [exact Hretry |].
    destruct (stretched_pair (pos line) (vadd (pos line) (vdivs (dir line) (s_of_Z 10))) stretch)
      as (q0 & q1 & Hps).
    exists q0, q1. split; [exact Hps |].
    rewrite (draw_after_retry addLine_result _ _ _ _ v plane_name r g b viewport_id stretch
               _ q0 q1 Hretry); [reflexivity |].
    exact Hps.
Qed.
End DrawClaims.

(** C2, as claimed, fails: for the x axis and an empty cloud all ten
    attempts fail, and the segment drawn runs from the origin to
    (0.1, 0, 0); its length is below 1. *)
Lemma draw_fallback_not_unit_length :
  exists p0 p1,
    draw accepting_viewer (x_axis 0) [] (f32 1) None [] "line"%string tt tt tt 0 (f32 1)
    = Ok (2, [AddLine p0 p1 tt tt tt "line"%string 0; SetLineWidth "line"%string], x_axis 0) /\
    p0 = v3 0 0 0 /\
    p1 = vdivs (v3 1 0 0) (f32 10) /\
    s_ltb (vnorm (vsub p1 p0)) (f32 1) = true /\
    vnorm (vsub p1 p0) <> f32 1.
Proof.
  eexists _, _. split; [vm_compute; reflexivity |].
  split; [vm_compute; reflexivity |]. split; [vm_compute; reflexivity |].
  split; [vm_compute; reflexivity |]. vm_compute. discriminate.
Qed.

(** Two points at distance 5 and the radius 1: the attempts at 1, 2 and 4
    fail, the attempt at 8 succeeds. *)
Lemma draw_retries_then_degrades_witness :
  isUpdated (_extents (x_axis 0)) = false /\
  Forall (in_range far_cloud) (visited far_cloud None) /\
  ~ attempt_fails (x_axis 0) far_cloud (f32 1) None 3 /\
  exists pmin pmax q0 q1,
    getExtent (x_axis 0) [] far_cloud (doubled (f32 1) 3) None
    = Ok (EXIT_SUCCESS, [pmin; pmax], with_extents (x_axis 0) (upd_update [pmin; pmax])) /\
    draw accepting_viewer (x_axis 0) far_cloud (f32 1) None [] "line"%string tt tt tt 0 (f32 1)
    = Ok (EXIT_SUCCESS + 1,
          [] ++ [AddLine q0 q1 tt tt tt "line"%string 0] ++ [SetLineWidth "line"%string],
          with_extents (x_axis 0) (upd_update [pmin; pmax])).
Proof.
  assert (Hfresh : isUpdated (_extents (x_axis 0)) = false) by reflexivity.
  assert (Hrange : Forall (in_range far_cloud) (visited far_cloud None)) by apply upto_in_range.
  assert (Hok : ~ attempt_fails (x_axis 0) far_cloud (f32 1) None 3)
    by (vm_compute; discriminate).
  split; [exact Hfresh |]. split; [exact Hrange |]. split; [exact Hok |].
  destruct (draw_retries_then_degrades accepting_viewer (x_axis 0) far_cloud (f32 1) None []
              "line"%string tt tt tt 0 (f32 1) Hfresh Hrange) as [Hsuccess _].
  destruct (Hsuccess 3%nat) as (pmin & pmax & q0 & q1 & Hcall & _ & Hdraw); [lia | | exact Hok |].
  - intros j Hj. destruct j as [| [| [| j]]]; [vm_compute; reflexivity.. | lia].
  - exists pmin, pmax, q0, q1. split; [exact Hcall | exact Hdraw].
Defined.

(* ===================================================================== *)
(** * [generateFrom] in exact arithmetic                                  *)
(* ===================================================================== *)

Section GenerateFromReal.
Local Open Scope R_scope.

Lemma vdot_self_nonneg (v : Vec3 R) : 0 <= vdot v v.
Proof. destruct v as [x y z]. unfold vdot; simpl. nra. Qed.

Lemma vnorm_nonneg (v : Vec3 R) : 0 <= vnorm v.
Proof. apply sqrt_pos. Qed.

Lemma vnorm_sqr (v : Vec3 R) : vnorm v * vnorm v = vdot v v.
Proof. apply sqrt_def, vdot_self_nonneg. Qed.

(** A rotation about the z axis keeps the length. *)
Lemma vnorm_rotateZ (angle : R) (v : Vec3 R) : vnorm (rotateZ angle v) = vnorm v.
Proof.
  destruct v as [x y z]. unfold vnorm. f_equal. unfold vdot, rotateZ; simpl.
  pose proof (sin2_cos2 angle) as Hsc. unfold Rsqr in Hsc.
  replace ((cos angle * x - sin angle * y) * (cos angle * x - sin angle * y)
           + (sin angle * x + cos angle * y) * (sin angle * x + cos angle * y)
           + (1 - cos angle + cos angle) * z * ((1 - cos angle + cos angle) * z))
    with ((sin angle * sin angle + cos angle * cos angle) * (x * x + y * y) + z * z) by ring.
  rewrite Hsc. ring.
Qed.

(** A vector that is not null, normalized, has length 1. *)
Lemma vnorm_normalized (v : Vec3 R) : vnorm v <> 0 -> vnorm (vnormalized v) = 1.
Proof.
  intros Hne. pose proof (vnorm_sqr v) as Hsq. pose proof (vnorm_nonneg v) as Hpos.
  unfold vnormalized. set (n := vnorm v) in *.
  destruct v as [x y z]. unfold vnorm, vdot, vdivs in *; simpl in *.
  replace (x / n * (x / n) + y / n * (y / n) + z / n * (z / n))
    with ((x * x + y * y + z * z) / (n * n)) by (field; exact Hne).
  rewrite <- Hsq. replace (n * n / (n * n)) with 1 by (field; exact Hne).
  apply sqrt_1.
Qed.

(** In exact arithmetic: for every pair of primitives self and other with
    other's direction not null, every angle set with the closest-angle
    index in range and every angle multiplier, generateFrom returns a
    candidate whose direction has length 1 and whose angle to self's
    direction is at most that of either rotation of other's direction, so
    also at most that of the rotation branch it did not choose.
    ([angleInRad] is any function that does not change when its second
    argument is divided by a positive number.) *)
Lemma generateFrom_exact (fresh_tags : Tags PrimTag) (UNSET : Z)
    (angleInRad : Vec3 R -> Vec3 R -> R)
    (self other : LinePrimitive R) (closest_angle_id : Z) (angles : list R)
    (angle_multiplier : R) :
  in_range angles closest_angle_id ->
  vnorm (dir other) <> 0 ->
  (forall u v k, 0 < k -> angleInRad u (vdivs v k) = angleInRad u v) ->
  exists a out not_chosen,
    at_index angles closest_angle_id = Ok a /\
    generateFrom fresh_tags UNSET angleInRad self other closest_angle_id angles angle_multiplier
    = Ok (true, out) /\
    other_branch angleInRad self other closest_angle_id angles angle_multiplier
    = Ok not_chosen /\
    pos out = pos self /\
    vnorm (dir out) = 1 /\
    angleInRad (dir self) (dir out)
    <= angleInRad (dir self) (rotateZ (a * angle_multiplier) (dir other)) /\
    angleInRad (dir self) (dir out)
    <= angleInRad (dir self) (rotateZ (- (a * angle_multiplier)) (dir other)) /\
    angleInRad (dir self) (dir out) <= angleInRad (dir self) not_chosen.
Proof.
  intros Hid Hother Hscale. destruct (at_index_in_range _ _ Hid) as [a Ha].
  unfold generateFrom, other_branch. rewrite Ha, !Result_bind_ret. cbn zeta.
  change (s_mul a angle_multiplier) with (a * angle_multiplier).
  change (s_opp (a * angle_multiplier)) with (- (a * angle_multiplier)).
  set (angle := a * angle_multiplier).
  set (d0 := rotateZ angle (dir other)). set (d1 := rotateZ (- angle) (dir other)).
  assert (Hn0 : vnorm d0 = vnorm (dir other)) by apply vnorm_rotateZ.
  assert (Hn1 : vnorm d1 = vnorm (dir other)) by apply vnorm_rotateZ.
  eexists a, _, _. split; [reflexivity |]. split; [reflexivity |]. split; [reflexivity |].
  cbn [pos dir with_tags LinePrimitive_from]. split; [reflexivity |].
  change (rotateZ (a * angle_multiplier) (dir other)) with d0.
  change (rotateZ (- (a * angle_multiplier)) (dir other)) with d1.
  unfold s_gtb. cbn [s_ltb Real.ops].
  destruct (Real.ltb (angleInRad (dir self) d1) (angleInRad (dir self) d0)) eqn:Hrev.
  - split; [apply vnorm_normalized; congruence |].
    unfold vnormalized. rewrite Hscale by (pose proof (vnorm_nonneg d1); lra).
    apply RealOrder.Rltb_true in Hrev. repeat split; lra.
  - split; [apply vnorm_normalized; congruence |].
    unfold vnormalized. rewrite Hscale by (pose proof (vnorm_nonneg d0); lra).
    apply RealOrder.Rltb_false in Hrev. repeat split; lra.
Qed.
End GenerateFromReal.

Section AngleAcos.
Local Open Scope R_scope.

Lemma vdot_vdivs (u v : Vec3 R) (k : R) : k <> 0 -> vdot u (vdivs v k) = vdot u v / k.
Proof.
  intros Hk. destruct u as [a b c], v as [x y z]. unfold vdot, vdivs; simpl. field. exact Hk.
Qed.

Lemma vnorm_vdivs (v : Vec3 R) (k : R) : 0 < k -> vnorm (vdivs v k) = vnorm v / k.
Proof.
  intros Hk. unfold vnorm.
  replace (vdot (vdivs v k) (vdivs v k)) with (vdot v v / (k * k)).
  - rewrite sqrt_div_alt by nra. rewrite sqrt_square by lra. reflexivity.
  - destruct v as [x y z]. unfold vdot, vdivs; simpl. field. lra.
Qed.

(** The arc-cosine angle does not depend on the length of its second
    argument. *)
Lemma angle_acos_scale (u v : Vec3 R) (k : R) :
  0 < k -> RealExamples.angle_acos u (vdivs v k) = RealExamples.angle_acos u v.
Proof.
  intros Hk. unfold RealExamples.angle_acos. f_equal.
  rewrite vdot_vdivs by lra. rewrite vnorm_vdivs by exact Hk.
  destruct (Req_dec (vnorm u * vnorm v) 0) as [Hz | Hnz].
  - replace (vnorm u * (vnorm v / k)) with (vnorm u * vnorm v / k) by (field; lra).
    rewrite Hz. replace (0 / k) with 0 by (field; lra). now rewrite !Rdiv_0_r.
  - field. repeat split; try lra; intros Hx; apply Hnz; rewrite Hx; ring.
Qed.
End AngleAcos.

Section GenerateFromChoice.
Context {Scalar : Type} `{ScalarOps Scalar} `{!ScalarOrder Scalar} `{TrigOps Scalar}.

(** In any arithmetic: which of the two rotations generateFrom takes, and
    that the candidate is directed along it. *)
Lemma generateFrom_choice (fresh_tags : Tags PrimTag) (UNSET : Z)
    (angleInRad : Vec3 Scalar -> Vec3 Scalar -> Scalar)
    (self other : LinePrimitive Scalar) (closest_angle_id : Z) (angles : list Scalar)
    (angle_multiplier a : Scalar) :
  at_index angles closest_angle_id = Ok a ->
  let d0 := rotateZ (s_mul a angle_multiplier) (dir other) in
  let d1 := rotateZ (s_opp (s_mul a angle_multiplier)) (dir other) in
  exists out chosen,
    generateFrom fresh_tags UNSET angleInRad self other closest_angle_id angles angle_multiplier
    = Ok (true, out) /\
    pos out = pos self /\
    dir out = vnormalized chosen /\
    (s_gtb (angleInRad (dir self) d0) (angleInRad (dir self) d1) = false -> chosen = d0) /\
    (s_gtb (angleInRad (dir self) d0) (angleInRad (dir self) d1) = true -> chosen = d1) /\
    s_gtb (angleInRad (dir self) chosen) (angleInRad (dir self) d0) = false /\
    s_gtb (angleInRad (dir self) chosen) (angleInRad (dir self) d1) = false.
Proof.
  intros Ha d0 d1. unfold generateFrom. rewrite Ha, Result_bind_ret. cbn zeta.
  fold d0 d1. unfold s_gtb.
  destruct (s_ltb (angleInRad (dir self) d1) (angleInRad (dir self) d0)) eqn:Hrev.
  - exists (with_tags
              (with_tags
                 (with_tags (LinePrimitive_from fresh_tags (pos self) d1)
                    (setTag GID (getTag GID (tags self))
                       (tags (LinePrimitive_from fresh_tags (pos self) d1))))
                 (setTag DIR_GID (getTag DIR_GID (tags other))
                    (setTag GID (getTag GID (tags self))
                       (tags (LinePrimitive_from fresh_tags (pos self) d1)))))
              (setTag STATUS UNSET
                 (setTag DIR_GID (getTag DIR_GID (tags other))
                    (setTag GID (getTag GID (tags self))
                       (tags (LinePrimitive_from fresh_tags (pos self) d1)))))), d1.
    split; [reflexivity |]. split; [reflexivity |]. split; [reflexivity |].
    split; [discriminate |]. split; [reflexivity |].
    split; [apply s_ltb_asym, Hrev | apply s_ltb_irrefl].
  - exists (with_tags
              (with_tags
                 (with_tags (LinePrimitive_from fresh_tags (pos self) d0)
                    (setTag GID (getTag GID (tags self))
                       (tags (LinePrimitive_from fresh_tags (pos self) d0))))
                 (setTag DIR_GID (getTag DIR_GID (tags other))
                    (setTag GID (getTag GID (tags self))
                       (tags (LinePrimitive_from fresh_tags (pos self) d0)))))
              (setTag STATUS UNSET
                 (setTag DIR_GID (getTag DIR_GID (tags other))
                    (setTag GID (getTag GID (tags self))
                       (tags (LinePrimitive_from fresh_tags (pos self) d0)))))), d0.
    split; [reflexivity |]. split; [reflexivity |]. split; [reflexivity |].
    split; [reflexivity |]. split; [discriminate |].
    split; [apply s_ltb_irrefl | exact Hrev].
Qed.
End GenerateFromChoice.

(** C5, as the code has it. In any arithmetic, for an angle index in
    range: generateFrom returns a candidate anchored at self's position
    and directed along the normalization v / |v| of one of the two
    rotations of other's direction about the z axis: the one by minus the
    angle if the one by the angle makes the greater angle with self's
    direction, and the one by the angle otherwise (also on a tie); the
    rotation taken makes with self's direction an angle that exceeds that
    of neither rotation. In exact arithmetic, with other's direction not
    null: the candidate's direction has length 1, and its angle to self's
    direction is at most that of either rotation, so at most that of the
    rotation branch not chosen. ([angleInRad], which is not among the
    sources, is any function; for the exact part one that does not change
    when its second argument is divided by a positive number.) *)
Theorem generateFrom_unit_and_closer :
  (forall (Scalar : Type) (ops : ScalarOps Scalar) (order : ScalarOrder Scalar)
          (trig : TrigOps Scalar) (fresh_tags : Tags PrimTag) (UNSET : Z)
          (angleInRad : Vec3 Scalar -> Vec3 Scalar -> Scalar)
          (self other : LinePrimitive Scalar) (closest_angle_id : Z) (angles : list Scalar)
          (angle_multiplier a : Scalar),
      at_index angles closest_angle_id = Ok a ->
      let d0 := rotateZ (s_mul a angle_multiplier) (dir other) in
      let d1 := rotateZ (s_opp (s_mul a angle_multiplier)) (dir other) in
      exists out chosen,
        generateFrom fresh_tags UNSET angleInRad self other closest_angle_id angles
                     angle_multiplier = Ok (true, out) /\
        pos out = pos self /\
        dir out = vnormalized chosen /\
        (s_gtb (angleInRad (dir self) d0) (angleInRad (dir self) d1) = false -> chosen = d0) /\
        (s_gtb (angleInRad (dir self) d0) (angleInRad (dir self) d1) = true -> chosen = d1) /\
        s_gtb (angleInRad (dir self) chosen) (angleInRad (dir self) d0) = false /\
        s_gtb (angleInRad (dir self) chosen) (angleInRad (dir self) d1) = false) /\
  (forall (fresh_tags : Tags PrimTag) (UNSET : Z) (angleInRad : Vec3 R -> Vec3 R -> R)
          (self other : LinePrimitive R) (closest_angle_id : Z) (angles : list R)
          (angle_multiplier : R),
      in_range angles closest_angle_id ->
      vnorm (dir other) <> 0%R ->
      (forall u v k, (0 < k)%R -> angleInRad u (vdivs v k) = angleInRad u v) ->
      exists a out not_chosen,
        at_index angles closest_angle_id = Ok a /\
        generateFrom fresh_tags UNSET angleInRad self other closest_angle_id angles
                     angle_multiplier = Ok (true, out) /\
        other_branch angleInRad self other closest_angle_id angles angle_multiplier
        = Ok not_chosen /\
        pos out = pos self /\
        vnorm (dir out) = 1%R /\
        (angleInRad (dir self) (dir out)
         <= angleInRad (dir self) (rotateZ (a * angle_multiplier) (dir other)))%R /\
        (angleInRad (dir self) (dir out)
         <= angleInRad (dir self) (rotateZ (- (a * angle_multiplier)) (dir other)))%R /\
        (angleInRad (dir self) (dir out) <= angleInRad (dir self) not_chosen)%R).
Proof.
  split.
  - intros Scalar ops order trig fresh_tags UNSET angleInRad self other closest_angle_id
           angles angle_multiplier a.
    apply generateFrom_choice.
  - apply generateFrom_exact.
Qed.

(** In exact arithmetic: two lines at a right angle, the angle pi / 2 and
    the arc-cosine angle. In single precision: the diagonal line and the
    angle 0. *)
Lemma generateFrom_unit_and_closer_witness :
  (in_range RealExamples.angles 1 /\
   vnorm (dir RealExamples.other_line) <> 0%R /\
   exists out not_chosen,
     generateFrom Examples.no_tags (-1) RealExamples.angle_acos RealExamples.self_line
                  RealExamples.other_line 1 RealExamples.angles 1%R = Ok (true, out) /\
     vnorm (dir out) = 1%R /\
     (RealExamples.angle_acos (dir RealExamples.self_line) (dir out)
      <= RealExamples.angle_acos (dir RealExamples.self_line) not_chosen)%R) /\
  (at_index [f32 0] 0 = Ok (f32 0) /\
   exists out chosen,
     @generateFrom spec_float Float32.ops Examples.no_tags (-1) MoreExamples.trig_at_zero
                   (fun _ _ => f32 0) (x_axis 3) MoreExamples.diagonal_line 0 [f32 0] (f32 1)
     = Ok (true, out) /\
     dir out = vnormalized chosen).
Proof.
  split.
  - assert (Hid : in_range RealExamples.angles 1) by (unfold in_range; simpl; lia).
    assert (Hother : vnorm (dir RealExamples.other_line) <> 0%R).
    { unfold vnorm, vdot; simpl.
      replace (0 * 0 + 1 * 1 + 0 * 0)%R with 1%R by ring. rewrite sqrt_1. lra. }
    split; [exact Hid |]. split; [exact Hother |].
    destruct (proj2 generateFrom_unit_and_closer Examples.no_tags (-1) RealExamples.angle_acos
                RealExamples.self_line RealExamples.other_line 1 RealExamples.angles 1%R
                Hid Hother angle_acos_scale)
      as (a & out & not_chosen & _ & Hout & _ & _ & Hunit & _ & _ & Hcloser).
    exists out, not_chosen. split; [exact Hout |]. split; [exact Hunit | exact Hcloser].
  - assert (Ha : at_index [f32 0] 0 = Ok (f32 0)) by reflexivity.
    split; [exact Ha |].
    destruct (proj1 generateFrom_unit_and_closer spec_float Float32.ops Float32Order.order
                MoreExamples.trig_at_zero Examples.no_tags (-1) (fun _ _ => f32 0)
                (x_axis 3) MoreExamples.diagonal_line 0 [f32 0] (f32 1) (f32 0) Ha)
      as (out & chosen & Hout & _ & Hdir & _).
    exists out, chosen. split; [exact Hout | exact Hdir].
Defined.

(** C5, as claimed, fails in single precision: for other's direction
    (1, 1, 0) and the angle 0 both rotations are (1, 1, 0), whatever
    [angleInRad] is; the candidate's direction is (1, 1, 0) divided by the
    rounded square root of 2, that is (0.70710677, 0.70710677, 0), and its
    length, computed in single precision, is 0.99999994 and not 1. *)
Lemma generateFrom_direction_not_unit :
  exists out,
    @generateFrom spec_float Float32.ops Examples.no_tags (-1) MoreExamples.trig_at_zero
                  (fun _ _ => f32 0) (x_axis 3) MoreExamples.diagonal_line 0 [f32 0] (f32 1)
    = Ok (true, out) /\
    dir out = mkVec3 (S754_finite false 11863283 (-24)) (S754_finite false 11863283 (-24))
                     (S754_zero false) /\
    vnorm (dir out) = S754_finite false 16777215 (-24) /\
    s_ltb (vnorm (dir out)) (f32 1) = true /\
    vnorm (dir out) <> f32 1.
Proof.
  eexists. split; [reflexivity |].
  split; [vm_compute; reflexivity |]. split; [vm_compute; reflexivity |].
  split; [vm_compute; reflexivity |]. vm_compute. discriminate.
Qed.

(* ===================================================================== *)
(** * The geometry of a line, in exact arithmetic                         *)
(* ===================================================================== *)

(** Unfolds the vector operations on real vectors given by coordinates. *)
Ltac vec_unfold :=
  unfold getDistance, projectPoint, vdot4, vnorm, vnormalized, vcross, vsub, vadd, vscale,
         smul, vdivs, vdot in *; simpl in *.

Section GeometryReal.
Local Open Scope R_scope.

Lemma distance_of_line_point (self : LinePrimitive R) (t : R) :
  getDistance self (vadd (pos self) (smul t (dir self))) = 0.
Proof.
  destruct self as [[px py pz] [dx dy dz] tg ex]. vec_unfold.
  rewrite <- sqrt_0. f_equal. ring.
Qed.

(** X1: every point of the line (pos plus a multiple of dir) has distance 0 to it,
    whatever the direction's length, and no point has a negative
    distance. *)
Theorem getDistance_on_line (self : LinePrimitive R) (t : R) (point : Vec3 R) :
  getDistance self (vadd (pos self) (smul t (dir self))) = 0 /\
  0 <= getDistance self point.
Proof. split; [apply distance_of_line_point | apply sqrt_pos]. Qed.

(** X2: for a direction that is not null, the projection of any point
    lies on the line: its distance to the line is 0. *)
Theorem projectPoint_on_line (self : LinePrimitive R) (point : Vec3 R) :
  vdot (dir self) (dir self) <> 0 ->
  getDistance self (projectPoint self point) = 0.
Proof. intros _. unfold projectPoint. apply distance_of_line_point. Qed.

Lemma vdot_self_zero (v : Vec3 R) : vdot v v = 0 -> v = mkVec3 0 0 0.
Proof.
  destruct v as [x y z]. unfold vdot; simpl. intros Hz.
  assert (x = 0) by nra. assert (y = 0) by nra. assert (z = 0) by nra. subst. reflexivity.
Qed.

(** X3: for a direction that is not null, projectPoint leaves the points
    of the line where they are, and projecting twice is projecting once. *)
Theorem projectPoint_fixes_line (self : LinePrimitive R) (t : R) (point : Vec3 R) :
  vdot (dir self) (dir self) <> 0 ->
  projectPoint self (vadd (pos self) (smul t (dir self))) = vadd (pos self) (smul t (dir self)) /\
  projectPoint self (projectPoint self point) = projectPoint self point.
Proof.
  intros Hd.
  assert (Hfix : forall k, projectPoint self (vadd (pos self) (smul k (dir self)))
                           = vadd (pos self) (smul k (dir self))).
  { intros k. destruct self as [[px py pz] [dx dy dz] tg ex]. vec_unfold.
    f_equal; field; exact Hd. }
  split; [apply Hfix |]. unfold projectPoint at 2 3. apply Hfix.
Qed.

(** X4: for a direction that is not null the projection is orthogonal:
    the vector from the projection to the point is perpendicular to the
    direction. *)
Theorem projectPoint_orthogonal (self : LinePrimitive R) (point : Vec3 R) :
  vdot (dir self) (dir self) <> 0 ->
  vdot (vsub point (projectPoint self point)) (dir self) = 0.
Proof.
  intros Hd. destruct self as [[px py pz] [dx dy dz] tg ex], point as [x y z].
  vec_unfold. field. exact Hd.
Qed.

(** X5: getDistance is the distance from the point to its projection
    multiplied by the length of the direction; it is the perpendicular
    distance exactly when the direction has length 1. *)
Theorem getDistance_is_scaled_perpendicular (self : LinePrimitive R) (point : Vec3 R) :
  vdot (dir self) (dir self) <> 0 ->
  getDistance self point
  = vnorm (dir self) * vnorm (vsub point (projectPoint self point)) /\
  (vnorm (dir self) = 1 ->
   getDistance self point = vnorm (vsub point (projectPoint self point))).
Proof.
  intros Hd.
  assert (Hmain : getDistance self point
                  = vnorm (dir self) * vnorm (vsub point (projectPoint self point))).
  { unfold getDistance, vnorm at 1 2 3. rewrite <- sqrt_mult_alt by apply vdot_self_nonneg.
    f_equal.
    destruct self as [[px py pz] [dx dy dz] tg ex], point as [x y z].
    vec_unfold. field. exact Hd. }
  split; [exact Hmain |]. intros Hunit. rewrite Hmain, Hunit. ring.
Qed.
End GeometryReal.

Lemma self_line_dir_not_null :
  vdot (dir RealExamples.self_line) (dir RealExamples.self_line) <> 0%R.
Proof. unfold vdot; simpl. lra. Qed.

(** The line through (1, 2, 0) along the x axis and the point (4, 5, 6). *)
Lemma projectPoint_on_line_witness :
  vdot (dir RealExamples.self_line) (dir RealExamples.self_line) <> 0%R /\
  getDistance RealExamples.self_line (projectPoint RealExamples.self_line (mkVec3 4 5 6)%R)
  = 0%R.
Proof.
  split; [exact self_line_dir_not_null |].
  exact (projectPoint_on_line RealExamples.self_line (mkVec3 4 5 6)%R self_line_dir_not_null).
Defined.

(** The line through (1, 2, 0) along the x axis. *)
Lemma projectPoint_fixes_line_witness :
  vdot (dir RealExamples.self_line) (dir RealExamples.self_line) <> 0%R /\
  projectPoint RealExamples.self_line
    (projectPoint RealExamples.self_line (mkVec3 4 5 6)%R)
  = projectPoint RealExamples.self_line (mkVec3 4 5 6)%R.
Proof.
  split; [exact self_line_dir_not_null |].
  exact (proj2 (projectPoint_fixes_line RealExamples.self_line 0%R (mkVec3 4 5 6)%R
                  self_line_dir_not_null)).
Defined.

(** The line through (1, 2, 0) along the x axis and the point (4, 5, 6). *)
Lemma projectPoint_orthogonal_witness :
  vdot (dir RealExamples.self_line) (dir RealExamples.self_line) <> 0%R /\
  vdot (vsub (mkVec3 4 5 6)%R (projectPoint RealExamples.self_line (mkVec3 4 5 6)%R))
       (dir RealExamples.self_line) = 0%R.
Proof.
  split; [exact self_line_dir_not_null |].
  exact (projectPoint_orthogonal RealExamples.self_line (mkVec3 4 5 6)%R
           self_line_dir_not_null).
Defined.

(** The line through (1, 2, 0) along the x axis and the point (4, 5, 6). *)
Lemma getDistance_is_scaled_perpendicular_witness :
  vdot (dir RealExamples.self_line) (dir RealExamples.self_line) <> 0%R /\
  getDistance RealExamples.self_line (mkVec3 4 5 6)%R
  = (vnorm (dir RealExamples.self_line)
     * vnorm (vsub (mkVec3 4 5 6)%R (projectPoint RealExamples.self_line (mkVec3 4 5 6)%R)))%R.
Proof.
  split; [exact self_line_dir_not_null |].
  exact (proj1 (getDistance_is_scaled_perpendicular RealExamples.self_line (mkVec3 4 5 6)%R
                  self_line_dir_not_null)).
Defined.

Section MembersReal.
Local Open Scope R_scope.

(** X6: [draw] stretches a segment about its midpoint: the two points it
    hands to the visualizer differ by stretch times the difference of the
    end points and have the same sum; a stretch of 1 gives the end points
    back. *)
Theorem stretched_scales_about_midpoint (p0 p1 : Vec3 R) (stretch : R) :
  exists q0 q1,
    stretched [p0; p1] stretch = Ok [q0; q1] /\
    vsub q1 q0 = smul stretch (vsub p1 p0) /\
    vadd q0 q1 = vadd p0 p1 /\
    (stretch = 1 -> q0 = p0 /\ q1 = p1).
Proof.
  eexists _, _. split; [reflexivity |].
  destruct p0 as [x0 y0 z0], p1 as [x1 y1 z1]. vec_unfold.
  split; [f_equal; field |]. split; [f_equal; field |].
  intros ->. split; f_equal; field.
Qed.

Lemma vnorm_not_null (v : Vec3 R) : vnorm v <> 0 -> vnorm (vnormalized v) <> 0.
Proof. intros Hv. rewrite (vnorm_normalized v Hv). lra. Qed.

(** X7: the line fromEndPoints builds from two different points is
    anchored at the first, has a direction of length 1 and passes through
    both points. *)
Theorem fromEndPoints_through_both (fresh_tags : Tags PrimTag) (p0 p1 : Vec3 R) :
  vnorm (vsub p1 p0) <> 0 ->
  pos (fromEndPoints fresh_tags p0 p1) = p0 /\
  vnorm (dir (fromEndPoints fresh_tags p0 p1)) = 1 /\
  getDistance (fromEndPoints fresh_tags p0 p1) p0 = 0 /\
  getDistance (fromEndPoints fresh_tags p0 p1) p1 = 0.
Proof.
  intros Hne. unfold fromEndPoints, LinePrimitive_from. cbn [pos dir].
  split; [reflexivity |].
  split; [apply vnorm_normalized, vnorm_not_null, Hne |].
  unfold getDistance. cbn [pos dir].
  set (n1 := vnorm (vsub p1 p0)). unfold vnormalized at 1 3. fold n1.
  set (n2 := vnorm (vnormalized (vsub p1 p0))).
  unfold vnormalized. fold n1.
  destruct p0 as [x0 y0 z0], p1 as [x1 y1 z1].
  unfold vnorm at 1 2, vcross, vsub, vdivs, vdot; simpl.
  split; rewrite <- sqrt_0; f_equal; unfold Rdiv; ring.
Qed.
End MembersReal.

Section NormalReal.
Local Open Scope R_scope.

(** The normal of a line whose direction is not vertical, in the plane
    z = 0: the direction's horizontal part, turned by a right angle and
    normalized. *)
Lemma normal_explicit (self : LinePrimitive R) :
  vx (dir self) * vx (dir self) + vy (dir self) * vy (dir self) <> 0 ->
  normal self UnitZ
  = mkVec3 (vy (dir self) / sqrt (vx (dir self) * vx (dir self) + vy (dir self) * vy (dir self)))
           (- vx (dir self) / sqrt (vx (dir self) * vx (dir self) + vy (dir self) * vy (dir self)))
           0.
Proof.
  destruct self as [p [dx dy dz] tg ex]. cbn [dir vx vy]. intros Hxy.
  set (s := sqrt (dx * dx + dy * dy)).
  assert (Hpos : 0 < dx * dx + dy * dy) by nra.
  assert (Hs : s * s = dx * dx + dy * dy) by (apply sqrt_def; lra).
  assert (Hs0 : s <> 0) by (pose proof (sqrt_lt_R0 _ Hpos); fold s in H; lra).
  unfold normal, UnitZ. cbn [dir s_of_Z Real.ops].
  set (perp := vscale (mkVec3 0 0 1) (vdot (mkVec3 dx dy dz) (mkVec3 0 0 1))).
  assert (Hn1 : vnorm (vsub (mkVec3 dx dy dz) perp) = s).
  { unfold s, vnorm. f_equal. unfold perp. vec_unfold. ring. }
  unfold vnormalized at 2. rewrite Hn1.
  set (c := vcross (vdivs (vsub (mkVec3 dx dy dz) perp) s) (mkVec3 0 0 1)).
  assert (Hc : vnorm c = 1).
  { unfold vnorm. rewrite <- sqrt_1. f_equal. unfold c, perp. vec_unfold.
    transitivity ((dx * dx + dy * dy) / (s * s)); [field; exact Hs0 |].
    rewrite Hs. field. lra. }
  unfold vnormalized. rewrite Hc. unfold c, perp. vec_unfold.
  f_equal; field; exact Hs0.
Qed.

(** X8: for a direction that is not vertical, the normal in the plane
    z = 0 has length 1, is perpendicular to the direction and lies in the
    plane. *)
Theorem normal_unit_perpendicular (self : LinePrimitive R) :
  vx (dir self) * vx (dir self) + vy (dir self) * vy (dir self) <> 0 ->
  vnorm (normal self UnitZ) = 1 /\
  vdot (normal self UnitZ) (dir self) = 0 /\
  vdot (normal self UnitZ) UnitZ = 0.
Proof.
  intros Hxy. rewrite (normal_explicit self Hxy).
  destruct self as [p [dx dy dz] tg ex]. cbn [dir vx vy] in *.
  set (s := sqrt (dx * dx + dy * dy)).
  assert (Hpos : 0 < dx * dx + dy * dy) by nra.
  assert (Hs : s * s = dx * dx + dy * dy) by (apply sqrt_def; lra).
  assert (Hs0 : s <> 0) by (pose proof (sqrt_lt_R0 _ Hpos); fold s in H; lra).
  split; [| split].
  - unfold vnorm. rewrite <- sqrt_1. f_equal. unfold vdot; simpl.
    transitivity ((dx * dx + dy * dy) / (s * s)); [field; exact Hs0 |].
    rewrite Hs. field. lra.
  - unfold vdot; simpl. field. exact Hs0.
  - unfold vdot, UnitZ; simpl. ring.
Qed.

(** X9: reading back the six numbers toFileEntry writes (taken exactly, not
    rounded to nine decimals) gives, for a direction that is not vertical,
    a line at the same position whose direction is the horizontal part of
    the direction, normalized and reversed; a horizontal direction of
    length 1 comes back negated. *)
Theorem fromFileEntry_toFileEntry (fresh_tags : Tags PrimTag) (self : LinePrimitive R) :
  vx (dir self) * vx (dir self) + vy (dir self) * vy (dir self) <> 0 ->
  exists line,
    fromFileEntry fresh_tags (toFileEntry_values self) = Ok line /\
    pos line = pos self /\
    dir line = vdivs (mkVec3 (- vx (dir self)) (- vy (dir self)) 0)
                     (sqrt (vx (dir self) * vx (dir self) + vy (dir self) * vy (dir self))) /\
    (vz (dir self) = 0 -> vnorm (dir self) = 1 -> dir line = smul (-1) (dir self)).
Proof.
  intros Hxy. unfold toFileEntry_values. rewrite (normal_explicit self Hxy).
  destruct self as [[px py pz] [dx dy dz] tg ex]. cbn [dir pos vx vy vz] in *.
  set (s := sqrt (dx * dx + dy * dy)).
  assert (Hpos : 0 < dx * dx + dy * dy) by nra.
  assert (Hs : s * s = dx * dx + dy * dy) by (apply sqrt_def; lra).
  assert (Hs0 : s <> 0) by (pose proof (sqrt_lt_R0 _ Hpos); fold s in H; lra).
  eexists. split; [reflexivity |]. unfold LinePrimitive_from. cbn [pos dir].
  split; [reflexivity |].
  set (c := vcross (mkVec3 (dy / s) (- dx / s) 0) UnitZ).
  assert (Hc : vnorm c = 1).
  { unfold vnorm. rewrite <- sqrt_1. f_equal. unfold c, UnitZ, vcross, vdot; simpl.
    transitivity ((dx * dx + dy * dy) / (s * s)); [field; exact Hs0 |].
    rewrite Hs. field. lra. }
  assert (Hdir : vnormalized c = vdivs (mkVec3 (- dx) (- dy) 0) s).
  { unfold vnormalized. rewrite Hc. unfold c, UnitZ, vcross, vdivs; simpl.
    f_equal; field; exact Hs0. }
  split; [exact Hdir |].
  intros -> Hunit. rewrite Hdir.
  assert (Hs1 : s = 1).
  { unfold vnorm, vdot in Hunit; simpl in Hunit. unfold s. rewrite <- Hunit. f_equal. ring. }
  rewrite Hs1. unfold vdivs, smul; simpl. f_equal; field.
Qed.
End NormalReal.

(** The line through (1, 2, 0) along the x axis. *)
Lemma self_line_not_vertical :
  (vx (dir RealExamples.self_line) * vx (dir RealExamples.self_line)
   + vy (dir RealExamples.self_line) * vy (dir RealExamples.self_line) <> 0)%R.
Proof. simpl. lra. Qed.

(** The line through (1, 2, 0) along the x axis. *)
Lemma normal_unit_perpendicular_witness :
  (vx (dir RealExamples.self_line) * vx (dir RealExamples.self_line)
   + vy (dir RealExamples.self_line) * vy (dir RealExamples.self_line) <> 0)%R /\
  vnorm (normal RealExamples.self_line UnitZ) = 1%R /\
  vdot (normal RealExamples.self_line UnitZ) (dir RealExamples.self_line) = 0%R.
Proof.
  split; [exact self_line_not_vertical |].
  destruct (normal_unit_perpendicular RealExamples.self_line self_line_not_vertical)
    as (Hunit & Hperp & _).
  split; [exact Hunit | exact Hperp].
Defined.

(** The line through (1, 2, 0) along the x axis comes back along the
    negative x axis. *)
Lemma fromFileEntry_toFileEntry_witness :
  (vx (dir RealExamples.self_line) * vx (dir RealExamples.self_line)
   + vy (dir RealExamples.self_line) * vy (dir RealExamples.self_line) <> 0)%R /\
  exists line,
    fromFileEntry Examples.no_tags (toFileEntry_values RealExamples.self_line) = Ok line /\
    pos line = pos RealExamples.self_line /\
    dir line = smul (-1)%R (dir RealExamples.self_line).
Proof.
  split; [exact self_line_not_vertical |].
  destruct (fromFileEntry_toFileEntry Examples.no_tags RealExamples.self_line
              self_line_not_vertical) as (line & Hread & Hpos & _ & Hneg).
  exists line. split; [exact Hread |]. split; [exact Hpos |].
  apply Hneg; [reflexivity |].
  unfold vnorm, vdot; simpl.
  replace (1 * 1 + 0 * 0 + 0 * 0)%R with 1%R by ring. apply sqrt_1.
Defined.

(** The points (0, 0, 0) and (3, 4, 0). *)
Lemma fromEndPoints_through_both_witness :
  vnorm (vsub (mkVec3 3 4 0)%R (mkVec3 0 0 0)%R) <> 0%R /\
  vnorm (dir (fromEndPoints Examples.no_tags (mkVec3 0 0 0)%R (mkVec3 3 4 0)%R)) = 1%R /\
  getDistance (fromEndPoints Examples.no_tags (mkVec3 0 0 0)%R (mkVec3 3 4 0)%R)
              (mkVec3 3 4 0)%R = 0%R.
Proof.
  assert (Hne : vnorm (vsub (mkVec3 3 4 0)%R (mkVec3 0 0 0)%R) <> 0%R).
  { unfold vnorm, vsub, vdot; simpl.
    replace ((3 - 0) * (3 - 0) + (4 - 0) * (4 - 0) + (0 - 0) * (0 - 0))%R with (5 * 5)%R by ring.
    rewrite sqrt_square by lra. lra. }
  split; [exact Hne |].
  destruct (fromEndPoints_through_both Examples.no_tags _ _ Hne) as (_ & Hunit & _ & Hp1).
  split; [exact Hunit | exact Hp1].
Defined.

(* ===================================================================== *)
(** * [getExtent]: inliers, orthogonal projections and extrema            *)
(* ===================================================================== *)

Section ProjectionFacts.
Context {Scalar : Type} `{ScalarOps Scalar}.

Lemma points_at_In (cloud : list (PointPrimitive Scalar)) (pids : list Z) pt :
  In pt (points_at cloud pids) <-> exists pid, In pid pids /\ at_index cloud pid = Ok pt.
Proof.
  unfold points_at. rewrite in_flat_map. split.
  - intros (pid & Hpid & Hin). exists pid. split; [exact Hpid |].
    destruct (at_index cloud pid) as [p | |]; simpl in Hin; try (now destruct Hin).
    destruct Hin as [<- | []]. reflexivity.
  - intros (pid & Hpid & Hat). exists pid. split; [exact Hpid |]. rewrite Hat. now left.
Qed.

(** The images under projectPoint that getExtent scans are those of the
    inliers. *)
Lemma projections_of_inliers (self : LinePrimitive Scalar) cloud threshold indices_arg q :
  In q (projections self cloud threshold indices_arg) <->
  exists pid pt, In pid (inlier_ids self cloud threshold indices_arg) /\
                 at_index cloud pid = Ok pt /\ q = projectPoint self (pnt_pos pt).
Proof.
  unfold projections. rewrite in_map_iff. split.
  - intros (pt & <- & Hpt). apply points_at_In in Hpt as (pid & Hpid & Hat).
    exists pid, pt. auto.
  - intros (pid & pt & Hpid & Hat & ->). exists pt. split; [reflexivity |].
    apply points_at_In. exists pid. auto.
Qed.

(** The first image is the image of the first inlier. *)
Lemma projections_head (self : LinePrimitive Scalar) cloud threshold indices_arg p0 :
  Forall (in_range cloud) (visited cloud indices_arg) ->
  head (projections self cloud threshold indices_arg) = Some p0 ->
  exists pid0 pt0, head (inlier_ids self cloud threshold indices_arg) = Some pid0 /\
                   at_index cloud pid0 = Ok pt0 /\ p0 = projectPoint self (pnt_pos pt0).
Proof.
  intros Hrange. unfold projections.
  pose proof (filter_in_range cloud (is_inlier self cloud threshold) _ Hrange) as Hin.
  fold (inlier_ids self cloud threshold indices_arg) in Hin.
  destruct (inlier_ids self cloud threshold indices_arg) as [| pid0 l]; [discriminate |].
  apply Forall_cons in Hin as [Hpid0 _].
  destruct (at_index_in_range _ _ Hpid0) as [pt0 Hpt0].
  cbn [points_at flat_map]. rewrite Hpt0. cbn [app map head]. intros [= <-].
  exists pid0, pt0. auto.
Qed.
End ProjectionFacts.

Section ProjectionReal.
Local Open Scope R_scope.

(** In exact arithmetic and for a direction that is not null, the point
    projectPoint returns is the orthogonal projection. *)
Lemma projectPoint_orthogonal_projection (self : LinePrimitive R) (p : Vec3 R) :
  vdot (dir self) (dir self) <> 0 ->
  orthogonal_projection self p (projectPoint self p).
Proof.
  intros Hd. split.
  - eexists. reflexivity.
  - destruct self as [[ox oy oz] [dx dy dz] tg ex], p as [x y z].
    vec_unfold. field. exact Hd.
Qed.

(** There is no other. *)
Lemma orthogonal_projection_unique (self : LinePrimitive R) (p q : Vec3 R) :
  vdot (dir self) (dir self) <> 0 ->
  orthogonal_projection self p q -> q = projectPoint self p.
Proof.
  intros Hd [[k ->] Horth].
  destruct self as [[ox oy oz] [dx dy dz] tg ex], p as [x y z].
  vec_unfold.
  assert (Hk : k = (x * dx + y * dy + z * dz + 0 * 0 - (ox * dx + oy * dy + oz * dz + 0 * 0))
                   / (dx * dx + dy * dy + dz * dz + 0 * 0)).
  { apply Rmult_eq_reg_r with (r := dx * dx + dy * dy + dz * dz); [| exact Hd].
    field_simplify; [| lra]. lra. }
  rewrite <- Hk. reflexivity.
Qed.

Lemma scan_dist_self (p0 line_dir : Vec3 R) : zero_like (scan_dist p0 line_dir p0).
Proof.
  assert (E : scan_dist p0 line_dir p0 = 0).
  { destruct p0 as [x y z], line_dir as [dx dy dz]. unfold scan_dist, vdot, vsub, vadd; simpl.
    ring. }
  intros x. rewrite E. split; reflexivity.
Qed.
End ProjectionReal.

(** C4, as the code has it. In any arithmetic: on a primitive whose extent
    cache is not populated and with indices in range, getExtent selects
    exactly the visited points (the given indices, or all) whose
    point-to-line distance, converted to double, is strictly below the
    threshold; it returns the failure code if and only if there is none,
    leaving its output as it was; otherwise it returns two of the images
    of the inliers under projectPoint, the first with no image of smaller
    and the second with no image of larger signed distance
    dot(p_i - p_0, p_0 + direction), p_0 being the first image (whose own
    signed distance is taken to compare as 0 does). In exact arithmetic
    and for a direction that is not null, these images are the orthogonal
    projections: the two points returned are the orthogonal projections of
    two inliers, and among the orthogonal projections of all inliers none
    has a smaller signed distance than the first or a larger than the
    second, relative to the orthogonal projection of the first inlier. *)
Theorem getExtent_inliers_and_extrema :
  (forall (Scalar : Type) (ops : ScalarOps Scalar) (order : ScalarOrder Scalar)
          (self : LinePrimitive Scalar) (minMax : ExtentsT Scalar)
          (cloud : list (PointPrimitive Scalar)) (threshold : Double Scalar)
          (indices_arg : option (list Z)),
      isUpdated (_extents self) = false ->
      Forall (in_range cloud) (visited cloud indices_arg) ->
      (forall p0, head (projections self cloud threshold indices_arg) = Some p0 ->
                  zero_like (scan_dist p0 (dir self) p0)) ->
      let inliers := inlier_ids self cloud threshold indices_arg in
      let proj := projections self cloud threshold indices_arg in
      select_inliers self cloud threshold (visited cloud indices_arg) [] = Ok inliers /\
      (forall pid, In pid inliers <->
         In pid (visited cloud indices_arg) /\
         exists p, at_index cloud pid = Ok p /\
                   d_ltb (s_to_double (getDistance self (pnt_pos p))) threshold = true) /\
      ((exists mm s, getExtent self minMax cloud threshold indices_arg = Ok (EXIT_FAILURE, mm, s))
       <-> inliers = []) /\
      (inliers = [] ->
       getExtent self minMax cloud threshold indices_arg = Ok (EXIT_FAILURE, minMax, self)) /\
      (inliers <> [] ->
       exists p0 pmin pmax,
         head proj = Some p0 /\ In pmin proj /\ In pmax proj /\
         getExtent self minMax cloud threshold indices_arg
         = Ok (EXIT_SUCCESS, [pmin; pmax], with_extents self (upd_update [pmin; pmax])) /\
         forall p, In p proj ->
           s_ltb (scan_dist p0 (dir self) p) (scan_dist p0 (dir self) pmin) = false /\
           s_ltb (scan_dist p0 (dir self) pmax) (scan_dist p0 (dir self) p) = false)) /\
  (forall (self : LinePrimitive R) (minMax : ExtentsT R) (cloud : list (PointPrimitive R))
          (threshold : Double R) (indices_arg : option (list Z)),
      isUpdated (_extents self) = false ->
      Forall (in_range cloud) (visited cloud indices_arg) ->
      vdot (dir self) (dir self) <> 0%R ->
      inlier_ids self cloud threshold indices_arg <> [] ->
      exists pid0 pidmin pidmax pt0 ptmin ptmax q0 qmin qmax,
        head (inlier_ids self cloud threshold indices_arg) = Some pid0 /\
        In pidmin (inlier_ids self cloud threshold indices_arg) /\
        In pidmax (inlier_ids self cloud threshold indices_arg) /\
        at_index cloud pid0 = Ok pt0 /\
        at_index cloud pidmin = Ok ptmin /\
        at_index cloud pidmax = Ok ptmax /\
        orthogonal_projection self (pnt_pos pt0) q0 /\
        orthogonal_projection self (pnt_pos ptmin) qmin /\
        orthogonal_projection self (pnt_pos ptmax) qmax /\
        getExtent self minMax cloud threshold indices_arg
        = Ok (EXIT_SUCCESS, [qmin; qmax], with_extents self (upd_update [qmin; qmax])) /\
        forall pid pt q,
          In pid (inlier_ids self cloud threshold indices_arg) ->
          at_index cloud pid = Ok pt ->
          orthogonal_projection self (pnt_pos pt) q ->
          (scan_dist q0 (dir self) qmin <= scan_dist q0 (dir self) q)%R /\
          (scan_dist q0 (dir self) q <= scan_dist q0 (dir self) qmax)%R).
Proof.
  split.
  - intros Scalar ops order self minMax cloud threshold indices_arg.
    apply getExtent_selects_and_scans.
  - intros self minMax cloud threshold indices_arg Hup Hrange Hd Hne.
    destruct (getExtent_selects_and_scans self minMax cloud threshold indices_arg Hup Hrange)
      as (_ & _ & _ & _ & Hok); [intros p0 _; apply scan_dist_self |].
    destruct (Hok Hne) as (p0 & pmin & pmax & Hhead & Hmin & Hmax & Hcall & Hext).
    destruct (projections_head self cloud threshold indices_arg p0 Hrange Hhead)
      as (pid0 & pt0 & Hpid0 & Hpt0 & ->).
    apply projections_of_inliers in Hmin as (pidmin & ptmin & Hpidmin & Hptmin & ->).
    apply projections_of_inliers in Hmax as (pidmax & ptmax & Hpidmax & Hptmax & ->).
    exists pid0, pidmin, pidmax, pt0, ptmin, ptmax.
    eexists _, _, _.
    split; [exact Hpid0 |]. split; [exact Hpidmin |]. split; [exact Hpidmax |].
    split; [exact Hpt0 |]. split; [exact Hptmin |]. split; [exact Hptmax |].
    split; [apply projectPoint_orthogonal_projection, Hd |].
    split; [apply projectPoint_orthogonal_projection, Hd |].
    split; [apply projectPoint_orthogonal_projection, Hd |].
    split; [exact Hcall |].
    intros pid pt q Hpid Hpt Hq.
    apply (orthogonal_projection_unique self _ _ Hd) in Hq. subst q.
    destruct (Hext (projectPoint self (pnt_pos pt))) as [Hlo Hhi].
    { apply projections_of_inliers. exists pid, pt. auto. }
    apply RealOrder.Rltb_false in Hlo, Hhi. split; lra.
Qed.

(** In single precision: the x axis and four points, three of them within
    distance 1. In exact arithmetic: the line through (1, 2, 0) along the
    x axis and a point at distance 1/2. *)
Lemma getExtent_inliers_and_extrema_witness :
  (isUpdated (_extents (x_axis 0)) = false /\
   Forall (in_range cloud4) (visited cloud4 None) /\
   inlier_ids (x_axis 0) cloud4 (f64 1) None = [0; 2; 3] /\
   exists p0 pmin pmax,
     getExtent (x_axis 0) [] cloud4 (f64 1) None
     = Ok (EXIT_SUCCESS, [pmin; pmax], with_extents (x_axis 0) (upd_update [pmin; pmax])) /\
     forall p, In p (projections (x_axis 0) cloud4 (f64 1) None) ->
       s_ltb (scan_dist p0 (dir (x_axis 0)) p) (scan_dist p0 (dir (x_axis 0)) pmin) = false /\
       s_ltb (scan_dist p0 (dir (x_axis 0)) pmax) (scan_dist p0 (dir (x_axis 0)) p) = false) /\
  (isUpdated (_extents RealExamples.self_line) = false /\
   Forall (in_range MoreExamples.near_point) (visited MoreExamples.near_point None) /\
   vdot (dir RealExamples.self_line) (dir RealExamples.self_line) <> 0%R /\
   inlier_ids RealExamples.self_line MoreExamples.near_point MoreExamples.one None <> [] /\
   exists ptmin ptmax qmin qmax,
     orthogonal_projection RealExamples.self_line (pnt_pos ptmin) qmin /\
     orthogonal_projection RealExamples.self_line (pnt_pos ptmax) qmax /\
     getExtent RealExamples.self_line [] MoreExamples.near_point MoreExamples.one None
     = Ok (EXIT_SUCCESS, [qmin; qmax],
           with_extents RealExamples.self_line (upd_update [qmin; qmax]))).
Proof.
  split.
  - assert (Hup : isUpdated (_extents (x_axis 0)) = false) by reflexivity.
    assert (Hrange : Forall (in_range cloud4) (visited cloud4 None)) by apply upto_in_range.
    assert (Hzero : forall p0, head (projections (x_axis 0) cloud4 (f64 1) None) = Some p0 ->
                               zero_like (scan_dist p0 (dir (x_axis 0)) p0)).
    { intros p0 Hp0. vm_compute in Hp0. injection Hp0 as <-.
      assert (E : scan_dist (mkVec3 (S754_finite false 8388608 (-23)) (S754_zero false)
                                    (S754_zero false))
                    (dir (x_axis 0))
                    (mkVec3 (S754_finite false 8388608 (-23)) (S754_zero false)
                            (S754_zero false))
                  = S754_zero false) by (vm_compute; reflexivity).
      rewrite E. apply Float32Order.zero_like_zero. }
    destruct (proj1 getExtent_inliers_and_extrema spec_float Float32.ops Float32Order.order
                (x_axis 0) [] cloud4 (f64 1) None Hup Hrange Hzero)
      as (Hsel & _ & _ & _ & Hok).
    split; [exact Hup |]. split; [exact Hrange |].
    split; [vm_compute; reflexivity |].
    destruct Hok as (p0 & pmin & pmax & _ & _ & _ & Hcall & Hext); [vm_compute; discriminate |].
    exists p0, pmin, pmax. split; [exact Hcall | exact Hext].
  - assert (Hup : isUpdated (_extents RealExamples.self_line) = false) by reflexivity.
    assert (Hrange : Forall (in_range MoreExamples.near_point)
                            (visited MoreExamples.near_point None)) by apply upto_in_range.
    assert (Hne : inlier_ids RealExamples.self_line MoreExamples.near_point MoreExamples.one None
                  <> []).
    { unfold inlier_ids, visited, upto.
      change (map Z.of_nat (seq 0 (length MoreExamples.near_point))) with [Z.of_nat 0].
      cbn [List.filter].
      assert (Hin : is_inlier RealExamples.self_line MoreExamples.near_point MoreExamples.one
                      (Z.of_nat 0) = true).
      { unfold is_inlier. cbn [at_index Z.leb Z.of_nat Z.compare Z.to_nat lookup list_lookup
                                 MoreExamples.near_point pnt_pos].
        apply RealOrder.Rltb_true. cbn [s_to_double Real.ops]. unfold MoreExamples.one.
        unfold getDistance, vnorm, vcross, vsub, vdot; simpl.
        apply Rlt_le_trans with (sqrt 1); [apply sqrt_lt_1_alt; lra | rewrite sqrt_1; lra]. }
      rewrite Hin. discriminate. }
    split; [exact Hup |]. split; [exact Hrange |]. split; [exact self_line_dir_not_null |].
    split; [exact Hne |].
    destruct (proj2 getExtent_inliers_and_extrema RealExamples.self_line []
                MoreExamples.near_point MoreExamples.one None Hup Hrange
                self_line_dir_not_null Hne)
      as (pid0 & pidmin & pidmax & pt0 & ptmin & ptmax & q0 & qmin & qmax &
          _ & _ & _ & _ & _ & _ & _ & Hqmin & Hqmax & Hcall & _).
    exists ptmin, ptmax, qmin, qmax. split; [exact Hqmin |]. split; [exact Hqmax | exact Hcall].
Defined.

(** C4, as claimed, fails in single precision: for the line through the
    origin along (3, 1, 0) and the point (1, 0, 0) getExtent returns
    (0.90000004, 0.3 rounded, 0) twice; the vector from it to the point is
    not perpendicular to the direction (the product is -2^-23), so the
    point returned is not the orthogonal projection, which is
    (0.9, 0.3, 0) and not a single-precision point. And for a primitive
    whose direction is the null vector every point is an inlier, and
    getExtent succeeds with points whose coordinates are NaN. *)
Lemma getExtent_projection_not_orthogonal :
  let q := mkVec3 (S754_finite false 15099495 (-24)) (S754_finite false 10066330 (-25))
                  (S754_zero false) in
  let nan := mkVec3 S754_nan S754_nan S754_nan in
  (inlier_ids MoreExamples.slanted_line MoreExamples.slanted_cloud (f64 2) None = [0] /\
   getExtent MoreExamples.slanted_line [] MoreExamples.slanted_cloud (f64 2) None
   = Ok (EXIT_SUCCESS, [q; q], with_extents MoreExamples.slanted_line (upd_update [q; q])) /\
   vdot (vsub (v3 1 0 0) q) (dir MoreExamples.slanted_line) = S754_finite true 8388608 (-46) /\
   ~ orthogonal_projection MoreExamples.slanted_line (v3 1 0 0) q) /\
  (inlier_ids MoreExamples.null_line MoreExamples.slanted_cloud (f64 2) None = [0] /\
   getExtent MoreExamples.null_line [] MoreExamples.slanted_cloud (f64 2) None
   = Ok (EXIT_SUCCESS, [nan; nan], with_extents MoreExamples.null_line (upd_update [nan; nan])) /\
   ~ orthogonal_projection MoreExamples.null_line (v3 1 0 0) nan).
Proof.
  intros q nan.
  assert (Hdot : vdot (vsub (v3 1 0 0) q) (dir MoreExamples.slanted_line)
                 = S754_finite true 8388608 (-46)) by (vm_compute; reflexivity).
  split.
  - split; [vm_compute; reflexivity |]. split; [vm_compute; reflexivity |].
    split; [exact Hdot |].
    intros [_ Horth]. rewrite Hdot in Horth. vm_compute in Horth. discriminate.
  - split; [vm_compute; reflexivity |]. split; [vm_compute; reflexivity |].
    intros [_ Horth]. vm_compute in Horth. discriminate.
Qed.

(* ===================================================================== *)
(** * More on [getExtent]                                                 *)
(* ===================================================================== *)

Section ExtentMore.
Context {Scalar : Type} `{ScalarOps Scalar}.

Lemma projections_In (self : LinePrimitive Scalar) cloud threshold indices_arg q :
  In q (projections self cloud threshold indices_arg) ->
  exists p, q = projectPoint self (pnt_pos p).
Proof.
  unfold projections. intros Hq. apply in_map_iff in Hq as (p & <- & _). now exists p.
Qed.

(** X11: with a single inlier getExtent succeeds and returns the
    projection of that point twice: an extent of length zero. *)
Theorem getExtent_single_inlier (self : LinePrimitive Scalar) minMax cloud threshold
    indices_arg pid :
  isUpdated (_extents self) = false ->
  Forall (in_range cloud) (visited cloud indices_arg) ->
  inlier_ids self cloud threshold indices_arg = [pid] ->
  exists p,
    at_index cloud pid = Ok p /\
    getExtent self minMax cloud threshold indices_arg
    = Ok (EXIT_SUCCESS, [projectPoint self (pnt_pos p); projectPoint self (pnt_pos p)],
          with_extents self (upd_update [projectPoint self (pnt_pos p);
                                         projectPoint self (pnt_pos p)])).
Proof.
  intros Hup Hrange Hone.
  assert (Hpid : in_range cloud pid).
  { assert (Hin : Forall (in_range cloud) (inlier_ids self cloud threshold indices_arg))
      by (apply filter_in_range; exact Hrange).
    rewrite Hone in Hin. now apply Forall_cons in Hin as [Hin _]. }
  destruct (at_index_in_range _ _ Hpid) as [p Hp]. exists p. split; [exact Hp |].
  rewrite (getExtent_unpopulated self minMax cloud threshold indices_arg Hup Hrange).
  unfold projections. rewrite Hone. unfold points_at. simpl. rewrite Hp. reflexivity.
Qed.
End ExtentMore.

Section ExtentMoreReal.
Local Open Scope R_scope.

(** X10: in exact arithmetic and for a direction that is not null, the
    two end points a successful getExtent returns lie on the line, and the
    call changes nothing of the primitive but its cache. *)
Theorem getExtent_endpoints_on_line (self : LinePrimitive R) minMax cloud threshold
    indices_arg minMax' self' :
  isUpdated (_extents self) = false ->
  Forall (in_range cloud) (visited cloud indices_arg) ->
  vdot (dir self) (dir self) <> 0 ->
  getExtent self minMax cloud threshold indices_arg = Ok (EXIT_SUCCESS, minMax', self') ->
  length minMax' = 2%nat /\
  List.Forall (fun q => getDistance self q = 0) minMax' /\
  pos self' = pos self /\ dir self' = dir self /\ tags self' = tags self.
Proof.
  intros Hup Hrange _ Hcall.
  destruct (decide (inlier_ids self cloud threshold indices_arg = [])) as [Hids | Hne].
  - rewrite getExtent_no_inlier in Hcall; [discriminate | exact Hup |].
    rewrite (select_inliers_filter _ _ _ _ Hrange). simpl app.
    unfold inlier_ids in Hids. now rewrite Hids.
  - destruct (getExtent_with_inliers self minMax cloud threshold indices_arg Hup Hrange Hne)
      as (p0 & rest & Hproj & Hmin & Hmax & Hok).
    rewrite Hok in Hcall. injection Hcall as <- <-.
    split; [reflexivity |]. split; [| repeat split].
    assert (Hon : forall i, (i < length (p0 :: rest))%nat ->
                            getDistance self (nth i (p0 :: rest) p0) = 0).
    { intros i Hi. pose proof (nth_In (p0 :: rest) p0 Hi) as Hin.
      assert (Hin' : In (nth i (p0 :: rest) p0) (projections self cloud threshold indices_arg))
        by (rewrite Hproj; exact Hin).
      apply projections_In in Hin' as [p ->]. unfold projectPoint. apply distance_of_line_point. }
    constructor; [apply Hon, Hmin |]. constructor; [apply Hon, Hmax | constructor].
Qed.
End ExtentMoreReal.

(** The line through (1, 2, 0) along the x axis and two of its points. *)
Lemma getExtent_endpoints_on_line_witness :
  isUpdated (_extents RealExamples.self_line) = false /\
  Forall (in_range MoreExamples.line_points) (visited MoreExamples.line_points None) /\
  vdot (dir RealExamples.self_line) (dir RealExamples.self_line) <> 0%R /\
  exists minMax' self',
    getExtent RealExamples.self_line [] MoreExamples.line_points MoreExamples.one None
    = Ok (EXIT_SUCCESS, minMax', self') /\
    List.Forall (fun q => getDistance RealExamples.self_line q = 0%R) minMax'.
Proof.
  assert (Hup : isUpdated (_extents RealExamples.self_line) = false) by reflexivity.
  assert (Hrange : Forall (in_range MoreExamples.line_points)
                          (visited MoreExamples.line_points None)) by apply upto_in_range.
  split; [exact Hup |]. split; [exact Hrange |]. split; [exact self_line_dir_not_null |].
  assert (Hne : inlier_ids RealExamples.self_line MoreExamples.line_points MoreExamples.one None
                <> []).
  { unfold inlier_ids, visited, upto.
    change (map Z.of_nat (seq 0 (length MoreExamples.line_points)))
      with [Z.of_nat 0; Z.of_nat 1].
    cbn [List.filter].
    assert (Hin : is_inlier RealExamples.self_line MoreExamples.line_points MoreExamples.one (Z.of_nat 0) = true).
    { unfold is_inlier. cbn [at_index Z.leb Z.of_nat Z.compare Z.to_nat lookup list_lookup
                               MoreExamples.line_points pnt_pos].
      apply RealOrder.Rltb_true.
      replace (mkVec3 1 2 0)%R
        with (vadd (pos RealExamples.self_line) (smul 0%R (dir RealExamples.self_line)))
        by (unfold vadd, smul; simpl; f_equal; ring).
      cbn [pnt_pos s_to_double Real.ops]. rewrite distance_of_line_point.
      unfold MoreExamples.one. lra. }
    rewrite Hin. discriminate. }
  destruct (getExtent_with_inliers RealExamples.self_line [] MoreExamples.line_points MoreExamples.one None
              Hup Hrange Hne) as (p0 & rest & _ & _ & _ & Hok).
  eexists _, _. split; [exact Hok |].
  exact (proj1 (proj2 (getExtent_endpoints_on_line _ _ _ _ _ _ _ Hup Hrange
                         self_line_dir_not_null Hok))).
Defined.

(** The x axis and two points at distance 5, of which the index list
    names one. *)
Lemma getExtent_single_inlier_witness :
  isUpdated (_extents (x_axis 0)) = false /\
  Forall (in_range far_cloud) (visited far_cloud (Some [1])) /\
  inlier_ids (x_axis 0) far_cloud (f64 8) (Some [1]) = [1] /\
  exists p,
    getExtent (x_axis 0) [] far_cloud (f64 8) (Some [1])
    = Ok (EXIT_SUCCESS, [p; p], with_extents (x_axis 0) (upd_update [p; p])).
Proof.
  assert (Hup : isUpdated (_extents (x_axis 0)) = false) by reflexivity.
  assert (Hrange : Forall (in_range far_cloud) (visited far_cloud (Some [1]))).
  { constructor; [unfold in_range; simpl; lia | constructor]. }
  assert (Hone : inlier_ids (x_axis 0) far_cloud (f64 8) (Some [1]) = [1])
    by (vm_compute; reflexivity).
  split; [exact Hup |]. split; [exact Hrange |]. split; [exact Hone |].
  destruct (getExtent_single_inlier (x_axis 0) [] far_cloud (f64 8) (Some [1]) 1
              Hup Hrange Hone) as (p & _ & Hcall).
  eexists. exact Hcall.
Defined.

(* ===================================================================== *)
(** * More on [draw]                                                      *)
(* ===================================================================== *)

Section DrawMore.
Context {Scalar Colour : Type} `{ScalarOps Scalar}.
Variable addLine_result : @Viewer Scalar Colour -> string -> bool.
Variables (line : LinePrimitive Scalar) (cloud : list (PointPrimitive Scalar)).
Variables (radius : Scalar) (indices : option (list Z)).
Hypothesis Hfresh : isUpdated (_extents line) = false.
Hypothesis Hrange : Forall (in_range cloud) (visited cloud indices).

(** Among the first [n] attempts either all fail or one is the first not
    to. *)
Lemma first_success_or_all_fail (n : nat) :
  (forall k, (k < n)%nat -> attempt_fails line cloud radius indices k) \/
  exists k, (k < n)%nat /\
            (forall j, (j < k)%nat -> attempt_fails line cloud radius indices j) /\
            ~ attempt_fails line cloud radius indices k.
Proof.
  induction n as [| n [IH | IH]].
  - left. intros k Hk. lia.
  - destruct (decide (inlier_ids line cloud (s_to_double (doubled radius n)) indices = []))
      as [Hn | Hn].
    + left. intros k Hk. destruct (decide (k = n)) as [-> | Hne]; [exact Hn | apply IH; lia].
    + right. exists n. split; [lia |]. split; [exact IH | exact Hn].
  - right. destruct IH as (k & Hk & Hbefore & Hok). exists k. split; [lia | auto].
Qed.

(** How the loop of [draw] ends. *)
Lemma draw_retry_outcome :
  exists rs p0 p1,
    draw_retry 10 line cloud indices [] 0 radius = Ok rs /\
    (if max_it <=? rs_it rs then fallback_segment line else rs_minMax rs) = [p0; p1] /\
    pos (rs_line rs) = pos line /\ dir (rs_line rs) = dir line /\
    tags (rs_line rs) = tags line /\
    ((rs_err rs = EXIT_SUCCESS /\
      exists k, (k < 10)%nat /\ ~ attempt_fails line cloud radius indices k) \/
     (rs_err rs = EXIT_FAILURE /\
      forall k, (k < 10)%nat -> attempt_fails line cloud radius indices k)).
Proof.
  destruct (first_success_or_all_fail 10) as [Hall | (k & Hk & Hbefore & Hok)].
  - eexists _, _, _. split.
    + apply (draw_retry_all_fail line cloud radius indices Hfresh Hrange 9 0); [lia |].
      intros k Hk. apply Hall. lia.
    + cbn [rs_it rs_line rs_err]. split; [reflexivity |]. repeat split. right. split; auto.
  - destruct (draw_retry_first_success line cloud radius indices Hfresh Hrange k 0 k 9)
      as (pmin & pmax & _ & Hretry); try lia; auto.
    { intros j Hj. apply Hbefore. lia. }
    eexists _, pmin, pmax. split; [exact Hretry |].
    cbn [rs_it rs_line rs_err rs_minMax].
    replace (max_it <=? Z.of_nat k) with false
      by (symmetry; apply Z.leb_gt; unfold max_it; lia).
    split; [reflexivity |]. repeat split. left. split; [reflexivity |]. now exists k.
Qed.

(** X12: on a primitive whose extent cache is not populated draw always
    returns, and it has asked the visualizer for exactly one line and then
    for its width, whether inliers were found or not; the primitive it
    leaves differs from the one it was given in the cache only. *)
Theorem draw_always_draws_one_line (v : Viewer) (plane_name : string) (r g b : Colour)
    (viewport_id : Z) (stretch : Scalar) :
  exists err q0 q1 line',
    draw addLine_result line cloud radius indices v plane_name r g b viewport_id stretch
    = Ok (err, v ++ [AddLine q0 q1 r g b plane_name viewport_id; SetLineWidth plane_name],
          line') /\
    pos line' = pos line /\ dir line' = dir line /\ tags line' = tags line.
Proof.
  destruct draw_retry_outcome as (rs & p0 & p1 & Hretry & Hseg & Hpos & Hdir & Htags & _).
  destruct (stretched_pair p0 p1 stretch) as (q0 & q1 & Hps).
  rewrite <- Hseg in Hps.
  eexists _, q0, q1, _. split; [| split; [exact Hpos | split; [exact Hdir | exact Htags]]].
  exact (draw_after_retry addLine_result line cloud radius indices v plane_name r g b
           viewport_id stretch rs q0 q1 Hretry Hps).
Qed.

(** X13: on a primitive whose extent cache is not populated and with
    indices in range, the code draw returns is the code its last getExtent
    attempt returned plus the visualizer's answer to addLine read as a
    number; the last attempt is the first that finds an inlier, or else
    the tenth. So the code is EXIT_SUCCESS exactly when some attempt found
    an inlier and addLine answered false; when addLine answers true, the
    code is not EXIT_SUCCESS. *)
Theorem draw_return_code (v : Viewer) (plane_name : string) (r g b : Colour)
    (viewport_id : Z) (stretch : Scalar) :
  exists (k : nat) code minMax' line' v',
    (k < 10)%nat /\
    (forall j, (j < k)%nat -> attempt_fails line cloud radius indices j) /\
    (k = 9%nat \/ ~ attempt_fails line cloud radius indices k) /\
    getExtent line [] cloud (s_to_double (doubled radius k)) indices
    = Ok (code, minMax', line') /\
    draw addLine_result line cloud radius indices v plane_name r g b viewport_id stretch
    = Ok (code + Z.b2z (addLine_result v plane_name), v', line') /\
    (code + Z.b2z (addLine_result v plane_name) = EXIT_SUCCESS <->
     addLine_result v plane_name = false /\
     exists k', (k' < 10)%nat /\ ~ attempt_fails line cloud radius indices k') /\
    (addLine_result v plane_name = true ->
     code + Z.b2z (addLine_result v plane_name) <> EXIT_SUCCESS).
Proof.
  destruct (first_success_or_all_fail 10) as [Hall | (k & Hk & Hbefore & Hok)].
  - assert (Hretry : draw_retry 10 line cloud indices [] 0 radius
                     = Ok (mkRetry EXIT_FAILURE [] line 10 (doubled radius 10))).
    { apply (draw_retry_all_fail line cloud radius indices Hfresh Hrange 9 0); [lia |].
      intros k Hk. apply Hall. lia. }
    destruct (stretched_pair (pos line) (vadd (pos line) (vdivs (dir line) (s_of_Z 10)))
                stretch) as (q0 & q1 & Hps).
    exists 9%nat, EXIT_FAILURE, [], line. eexists.
    split; [lia |]. split; [intros j Hj; apply Hall; lia |]. split; [now left |].
    split; [apply (attempt_fails_getExtent line cloud radius indices Hfresh Hrange), Hall; lia |].
    split.
    + exact (draw_after_retry addLine_result line cloud radius indices v plane_name r g b
               viewport_id stretch _ q0 q1 Hretry Hps).
    + unfold EXIT_SUCCESS, EXIT_FAILURE.
      destruct (addLine_result v plane_name); cbn [Z.b2z]; (split; [| intros; lia]);
        (split; [lia |]); intros [_ (k' & Hk' & Hok')]; exfalso; apply Hok', Hall, Hk'.
  - destruct (draw_retry_first_success line cloud radius indices Hfresh Hrange k 0 k 9)
      as (pmin & pmax & Hcall & Hretry); try lia; auto.
    { intros j Hj. apply Hbefore. lia. }
    destruct (stretched_pair pmin pmax stretch) as (q0 & q1 & Hps).
    exists k, EXIT_SUCCESS, [pmin; pmax], (with_extents line (upd_update [pmin; pmax])).
    eexists.
    split; [exact Hk |]. split; [exact Hbefore |]. split; [now right |].
    split; [exact Hcall |]. split.
    + refine (draw_after_retry addLine_result line cloud radius indices v plane_name r g b
                viewport_id stretch _ q0 q1 Hretry _).
      cbn [rs_it rs_minMax].
      replace (max_it <=? Z.of_nat k) with false
        by (symmetry; apply Z.leb_gt; unfold max_it; lia).
      exact Hps.
    + unfold EXIT_SUCCESS.
      destruct (addLine_result v plane_name); cbn [Z.b2z]; (split; [| intros; lia]); split;
        try lia; try (intros [Hd _]; discriminate).
      intros _. split; [reflexivity |]. now exists k.
Qed.
End DrawMore.

(** The x axis and two points at distance 5, from the radius 1. *)
Lemma draw_always_draws_one_line_witness :
  isUpdated (_extents (x_axis 0)) = false /\
  Forall (in_range far_cloud) (visited far_cloud None) /\
  exists err q0 q1 line',
    draw accepting_viewer (x_axis 0) far_cloud (f32 1) None [] "line"%string tt tt tt 0 (f32 1)
    = Ok (err, [] ++ [AddLine q0 q1 tt tt tt "line"%string 0; SetLineWidth "line"%string],
          line').
Proof.
  assert (Hfresh : isUpdated (_extents (x_axis 0)) = false) by reflexivity.
  assert (Hrange : Forall (in_range far_cloud) (visited far_cloud None)) by apply upto_in_range.
  split; [exact Hfresh |]. split; [exact Hrange |].
  destruct (draw_always_draws_one_line accepting_viewer (x_axis 0) far_cloud (f32 1) None
              Hfresh Hrange [] "line"%string tt tt tt 0 (f32 1))
    as (err & q0 & q1 & line' & Hdraw & _).
  exists err, q0, q1, line'. exact Hdraw.
Defined.

(** The same call: the visualizer accepts the line, the code returned is
    not EXIT_SUCCESS. *)
Lemma draw_return_code_witness :
  isUpdated (_extents (x_axis 0)) = false /\
  Forall (in_range far_cloud) (visited far_cloud None) /\
  exists err v' line',
    draw accepting_viewer (x_axis 0) far_cloud (f32 1) None [] "line"%string tt tt tt 0 (f32 1)
    = Ok (err, v', line') /\ err <> EXIT_SUCCESS.
Proof.
  assert (Hfresh : isUpdated (_extents (x_axis 0)) = false) by reflexivity.
  assert (Hrange : Forall (in_range far_cloud) (visited far_cloud None)) by apply upto_in_range.
  split; [exact Hfresh |]. split; [exact Hrange |].
  destruct (draw_return_code accepting_viewer (x_axis 0) far_cloud (f32 1) None
              Hfresh Hrange [] "line"%string tt tt tt 0 (f32 1))
    as (k & code & mm & line' & v' & _ & _ & _ & _ & Hdraw & _ & Hne).
  eexists _, v', line'. split; [exact Hdraw | apply Hne; reflexivity].
Defined.

(* ===================================================================== *)
(** * The threshold of [getExtent]                                        *)
(* ===================================================================== *)

Lemma filter_none {A} (f : A -> bool) (l : list A) :
  (forall x, f x = false) -> List.filter f l = [].
Proof.
  intros Hf. induction l as [| x l IH]; [reflexivity |]. simpl. now rewrite Hf.
Qed.

#[global] Instance Float32_double_order : DoubleOrder spec_float :=
  @Build_DoubleOrder spec_float Float32.ops Float32.ordered Float32Order.SFltb_negtrans.

#[global] Instance Real_double_order : DoubleOrder R :=
  @Build_DoubleOrder R Real.ops (fun _ => true) RealOrder.Rltb_negtrans.

Section ThresholdOrder.
Context {Scalar : Type} `{ScalarOps Scalar} `{!DoubleOrder Scalar}.

Lemma inlier_ids_grow (self : LinePrimitive Scalar)
    (cloud : list (PointPrimitive Scalar)) (t1 t2 : Double Scalar)
    (indices_arg : option (list Z)) :
  d_ordered t1 = true -> d_ordered t2 = true ->
  (forall p, In p cloud -> d_ordered (s_to_double (getDistance self (pnt_pos p))) = true) ->
  d_ltb t2 t1 = false ->
  incl (inlier_ids self cloud t1 indices_arg) (inlier_ids self cloud t2 indices_arg).
Proof.
  intros Ht1 Ht2 Hd Hle pid Hin. unfold inlier_ids in *.
  apply filter_In in Hin as [Hvis Hin]. apply filter_In. split; [exact Hvis |].
  unfold is_inlier in *. destruct (at_index cloud pid) as [p | |] eqn:Hp; try discriminate.
  destruct (d_ltb (s_to_double (getDistance self (pnt_pos p))) t2) eqn:Hlt; [reflexivity |].
  assert (Hpin : In p cloud).
  { apply at_index_Ok in Hp as [_ Hl].
    apply list_elem_of_In. eapply list_elem_of_lookup_2. exact Hl. }
  rewrite (d_ltb_negtrans _ t2 t1 (Hd p Hpin) Ht2 Ht1 Hlt Hle) in Hin. discriminate.
Qed.

(** X15: on a primitive whose extent cache is not populated, with indices
    in range and ordered values (no NaN among the two thresholds and the
    distances of the points), the inliers getExtent selects at a
    threshold are among those it selects at any threshold that is not
    smaller; so if it succeeds at the smaller threshold, it succeeds at
    the larger. *)
Theorem getExtent_larger_threshold (self : LinePrimitive Scalar) (minMax : ExtentsT Scalar)
    (cloud : list (PointPrimitive Scalar)) (t1 t2 : Double Scalar)
    (indices_arg : option (list Z)) :
  isUpdated (_extents self) = false ->
  Forall (in_range cloud) (visited cloud indices_arg) ->
  d_ordered t1 = true -> d_ordered t2 = true ->
  (forall p, In p cloud -> d_ordered (s_to_double (getDistance self (pnt_pos p))) = true) ->
  d_ltb t2 t1 = false ->
  exists l1 l2,
    select_inliers self cloud t1 (visited cloud indices_arg) [] = Ok l1 /\
    select_inliers self cloud t2 (visited cloud indices_arg) [] = Ok l2 /\
    incl l1 l2 /\
    ((exists mm s, getExtent self minMax cloud t1 indices_arg = Ok (EXIT_SUCCESS, mm, s)) ->
     exists mm s, getExtent self minMax cloud t2 indices_arg = Ok (EXIT_SUCCESS, mm, s)).
Proof.
  intros Hup Hrange Ht1 Ht2 Hd Hle.
  pose proof (inlier_ids_grow self cloud t1 t2 indices_arg Ht1 Ht2 Hd Hle) as Hincl.
  exists (inlier_ids self cloud t1 indices_arg), (inlier_ids self cloud t2 indices_arg).
  split; [rewrite (select_inliers_filter _ _ _ _ Hrange); reflexivity |].
  split; [rewrite (select_inliers_filter _ _ _ _ Hrange); reflexivity |].
  split; [exact Hincl |].
  intros (mm & s & Hcall).
  destruct (decide (inlier_ids self cloud t2 indices_arg = [])) as [Hnil | Hne].
  - exfalso.
    assert (Hnil1 : inlier_ids self cloud t1 indices_arg = []).
    { destruct (inlier_ids self cloud t1 indices_arg) as [| pid l]; [reflexivity |].
      specialize (Hincl pid (or_introl eq_refl)). rewrite Hnil in Hincl. destruct Hincl. }
    rewrite getExtent_no_inlier in Hcall; [discriminate | exact Hup |].
    rewrite (select_inliers_filter _ _ _ _ Hrange). simpl app.
    unfold inlier_ids in Hnil1. now rewrite Hnil1.
  - destruct (getExtent_with_inliers self minMax cloud t2 indices_arg Hup Hrange Hne)
      as (p0 & rest & _ & _ & _ & Hok).
    eexists _, _. exact Hok.
Qed.
End ThresholdOrder.

(** The x axis and the points of [cloud4], with the thresholds 1 and 8. *)
Lemma getExtent_larger_threshold_witness :
  isUpdated (_extents (x_axis 0)) = false /\
  Forall (in_range cloud4) (visited cloud4 None) /\
  d_ordered (f64 1) = true /\ d_ordered (f64 8) = true /\
  (forall p, In p cloud4 ->
     d_ordered (s_to_double (getDistance (x_axis 0) (pnt_pos p))) = true) /\
  d_ltb (f64 8) (f64 1) = false /\
  exists l1 l2,
    select_inliers (x_axis 0) cloud4 (f64 1) (visited cloud4 None) [] = Ok l1 /\
    select_inliers (x_axis 0) cloud4 (f64 8) (visited cloud4 None) [] = Ok l2 /\
    incl l1 l2.
Proof.
  assert (Hup : isUpdated (_extents (x_axis 0)) = false) by reflexivity.
  assert (Hrange : Forall (in_range cloud4) (visited cloud4 None)) by apply upto_in_range.
  assert (Hd : forall p, In p cloud4 ->
                 d_ordered (s_to_double (getDistance (x_axis 0) (pnt_pos p))) = true).
  { intros p [<- | [<- | [<- | [<- | []]]]]; vm_compute; reflexivity. }
  assert (Hle : d_ltb (f64 8) (f64 1) = false) by (vm_compute; reflexivity).
  assert (Ho1 : d_ordered (f64 1) = true) by reflexivity.
  assert (Ho8 : d_ordered (f64 8) = true) by reflexivity.
  split; [exact Hup |]. split; [exact Hrange |].
  split; [exact Ho1 |]. split; [exact Ho8 |]. split; [exact Hd |]. split; [exact Hle |].
  destruct (getExtent_larger_threshold (x_axis 0) [] cloud4 (f64 1) (f64 8) None
              Hup Hrange Ho1 Ho8 Hd Hle) as (l1 & l2 & H1 & H2 & Hincl & _).
  exists l1, l2. split; [exact H1 |]. split; [exact H2 | exact Hincl].
Defined.

Section RadiusFloat32.

(** A product with the literal 2 is positive only if the other factor is. *)
Lemma SFmul_two_not_positive (t : spec_float) :
  SFltb (Float32.of_Z 0) t = false ->
  SFltb (Float32.of_Z 0) (SFmul Float32.prec Float32.emax t (Float32.of_Z 2)) = false.
Proof.
  intros Ht.
  let two := eval vm_compute in (Float32.of_Z 2) in change (Float32.of_Z 2) with two.
  destruct t as [s | s | | s m e]; try destruct s; try reflexivity; try discriminate Ht.
  unfold SFmul. cbn [xorb]. unfold binary_round_aux.
  destruct (shr_fexp Float32.prec Float32.emax _ _ loc_Exact) as [mrs' e'].
  destruct (shr_fexp Float32.prec Float32.emax _ e' loc_Exact) as [mrs'' e''].
  destruct (shr_m mrs''); try reflexivity.
  destruct (Z.leb e'' _); reflexivity.
Qed.

Lemma not_positive_signed (t : spec_float) :
  SFltb (Float32.of_Z 0) t = false -> signed_or_nan true t.
Proof.
  destruct t as [s | s | | s m e]; try destruct s; simpl; auto; discriminate.
Qed.

Lemma SFsqrt_signed (d : spec_float) :
  signed_or_nan false (SFsqrt Float32.prec Float32.emax d).
Proof.
  destruct d as [sd | sd | | sd md ed]; try destruct sd; simpl; auto.
  unfold SFsqrt.
  destruct (SFsqrt_core_binary Float32.prec Float32.emax (Z.pos md) ed) as [[mz ez] lz].
  unfold binary_round_aux.
  destruct (shr_fexp Float32.prec Float32.emax mz ez lz) as [mrs' e'].
  destruct (shr_fexp Float32.prec Float32.emax _ e' loc_Exact) as [mrs'' e''].
  destruct (shr_m mrs''); simpl; auto.
  destruct (Z.leb e'' _); simpl; auto.
Qed.

(** The conversion to [double] keeps the sign. *)
Lemma to_double_signed (s : bool) (x : spec_float) :
  signed_or_nan s x -> signed_or_nan s (Float32.to_double x).
Proof.
  destruct x as [sx | sx | | sx m e]; simpl; auto. intros ->.
  unfold binary_normalize. destruct s; unfold binary_round;
    destruct (shl_align m e _) as [mz ez];
    unfold binary_round_aux;
    destruct (shr_fexp Float64.prec Float64.emax _ ez loc_Exact) as [mrs' e'];
    destruct (shr_fexp Float64.prec Float64.emax _ e' loc_Exact) as [mrs'' e''];
    destruct (shr_m mrs''); simpl; auto;
    destruct (Z.leb e'' _); simpl; auto.
Qed.

(** Nothing of positive sign is below something of negative sign. *)
Lemma signed_not_below (a b : spec_float) :
  signed_or_nan false a -> signed_or_nan true b -> SFltb a b = false.
Proof.
  destruct a as [sa | sa | | sa ma ea], b as [sb | sb | | sb mb eb]; simpl;
    intros Ha Hb; subst; try reflexivity; try destruct sa; try destruct sb; reflexivity.
Qed.

(** No square root is, as a [double], below a radius that is not
    positive. *)
Lemma SFsqrt_not_below (d t : spec_float) :
  SFltb (Float32.of_Z 0) t = false ->
  SFltb (Float32.to_double (SFsqrt Float32.prec Float32.emax d)) (Float32.to_double t) = false.
Proof.
  intros Ht. apply signed_not_below.
  - apply to_double_signed, SFsqrt_signed.
  - apply to_double_signed, not_positive_signed, Ht.
Qed.

Lemma doubled_not_positive (radius : spec_float) (k : nat) :
  SFltb (Float32.of_Z 0) radius = false ->
  SFltb (Float32.of_Z 0) (doubled radius k) = false.
Proof.
  intros Hr. induction k as [| k IH]; [exact Hr |].
  cbn [doubled]. apply SFmul_two_not_positive, IH.
Qed.

(** X14: in single precision, on a primitive whose extent cache is not
    populated and with indices in range, a radius that is not positive
    (zero, negative or NaN) finds no inlier at any doubling, whatever the
    cloud: draw makes its ten attempts and draws the fallback segment. *)
Theorem draw_radius_not_positive {Colour : Type}
    (addLine_result : @Viewer spec_float Colour -> string -> bool)
    (line : LinePrimitive spec_float) (cloud : list (PointPrimitive spec_float))
    (radius : spec_float) (indices : option (list Z)) (v : Viewer) (plane_name : string)
    (r g b : Colour) (viewport_id : Z) (stretch : spec_float) :
  isUpdated (_extents line) = false ->
  Forall (in_range cloud) (visited cloud indices) ->
  s_ltb (s_of_Z 0) radius = false ->
  (forall k, attempt_fails line cloud radius indices k) /\
  exists q0 q1,
    stretched (fallback_segment line) stretch = Ok [q0; q1] /\
    draw addLine_result line cloud radius indices v plane_name r g b viewport_id stretch
    = Ok (EXIT_FAILURE + Z.b2z (addLine_result v plane_name),
          v ++ [AddLine q0 q1 r g b plane_name viewport_id] ++ [SetLineWidth plane_name],
          line).
Proof.
  intros Hfresh Hrange Hr.
  assert (Hfail : forall k, attempt_fails line cloud radius indices k).
  { intros k. unfold attempt_fails, inlier_ids. apply filter_none. intros pid.
    unfold is_inlier. destruct (at_index cloud pid) as [p | |]; try reflexivity.
    unfold getDistance, vnorm. cbn [d_ltb s_to_double s_sqrt Float32.ops].
    apply SFsqrt_not_below, doubled_not_positive, Hr. }
  split; [exact Hfail |].
  destruct (stretched_pair (pos line) (vadd (pos line) (vdivs (dir line) (s_of_Z 10))) stretch)
    as (q0 & q1 & Hps).
  exists q0, q1. split; [exact Hps |].
  assert (Hretry : draw_retry 10 line cloud indices [] 0 radius
                   = Ok (mkRetry EXIT_FAILURE [] line 10 (doubled radius 10))).
  { apply (draw_retry_all_fail line cloud radius indices Hfresh Hrange 9 0); [lia |].
    intros k _. apply Hfail. }
  exact (draw_after_retry addLine_result line cloud radius indices v plane_name r g b
           viewport_id stretch _ q0 q1 Hretry Hps).
Qed.
End RadiusFloat32.

(** The x axis, points on it, and the radius 0. *)
Lemma draw_radius_not_positive_witness :
  isUpdated (_extents (x_axis 0)) = false /\
  Forall (in_range cloud4) (visited cloud4 None) /\
  s_ltb (s_of_Z 0) (f32 0) = false /\
  exists q0 q1,
    draw accepting_viewer (x_axis 0) cloud4 (f32 0) None [] "line"%string tt tt tt 0 (f32 1)
    = Ok (EXIT_FAILURE + 1,
          [] ++ [AddLine q0 q1 tt tt tt "line"%string 0] ++ [SetLineWidth "line"%string],
          x_axis 0).
Proof.
  assert (Hfresh : isUpdated (_extents (x_axis 0)) = false) by reflexivity.
  assert (Hrange : Forall (in_range cloud4) (visited cloud4 None)) by apply upto_in_range.
  assert (Hr : s_ltb (s_of_Z 0) (f32 0) = false) by (vm_compute; reflexivity).
  split; [exact Hfresh |]. split; [exact Hrange |]. split; [exact Hr |].
  destruct (draw_radius_not_positive accepting_viewer (x_axis 0) cloud4 (f32 0) None []
              "line"%string tt tt tt 0 (f32 1) Hfresh Hrange Hr) as (_ & q0 & q1 & _ & Hdraw).
  exists q0, q1. exact Hdraw.
Defined.

(* ===================================================================== *)
(** * More on the correspondences                                         *)
(* ===================================================================== *)

Section RowFacts.
Context {Scalar : Type} `{ScalarOps Scalar}.

Lemma prim_ids_In (m : @PrimitiveMapT Scalar) (id : GidLid) :
  In id (prim_ids m) <-> exists lid a, prim_at m (fst id) lid a /\ snd id = Z.of_nat lid.
Proof.
  unfold prim_ids, group_ids, prim_at. rewrite in_flat_map. split.
  - intros ([gid prims] & Hin & Hid). apply in_map_iff in Hid as (lid & <- & Hlid).
    apply in_seq in Hlid. simpl in *.
    destruct (lookup_lt_is_Some_2 prims lid) as [a Ha]; [lia |].
    exists lid, a. split; [exists prims; auto | reflexivity].
  - intros (lid & a & (prims & Hin & Hl) & Hid). exists (fst id, prims). split; [exact Hin |].
    apply in_map_iff. exists lid. simpl. split.
    + destruct id; simpl in *; congruence.
    + apply in_seq. apply lookup_lt_Some in Hl. lia.
Qed.

Lemma prim_ids_length (m : @PrimitiveMapT Scalar) : length (prim_ids m) = prim_count m.
Proof.
  unfold prim_ids, prim_count. induction m as [| [gid prims] m IH]; simpl; [reflexivity |].
  rewrite length_app, IH. unfold group_ids. now rewrite length_map, length_seq.
Qed.

Lemma prim_ids_NoDup (m : @PrimitiveMapT Scalar) :
  StdMap.ascending Z.ltb m -> List.NoDup (prim_ids m).
Proof.
  induction m as [| [gid prims] m IH]; intros Hm; [constructor |].
  apply StdMapFacts.ascending_cons_inv in Hm as [Hm Hall].
  change (prim_ids ((gid, prims) :: m)) with (group_ids (gid, prims) ++ prim_ids m).
  apply NoDup_ListNoDup, NoDup_app. split; [| split].
  - apply NoDup_ListNoDup. unfold group_ids. apply Finite.Injective_map_NoDup.
    + intros i j [= Hij]. lia.
    + apply seq_NoDup.
  - intros id Hid Hid'. apply list_elem_of_In in Hid, Hid'.
    unfold group_ids in Hid. apply in_map_iff in Hid as (lid & <- & _).
    unfold prim_ids in Hid'. apply in_flat_map in Hid' as ([gid' prims'] & Hin & Hid').
    unfold group_ids in Hid'. apply in_map_iff in Hid' as (lid' & [= <- _] & _).
    specialize (Hall _ Hin). simpl in Hall. rewrite Z.ltb_irrefl in Hall. discriminate.
  - apply NoDup_ListNoDup, IH, Hm.
Qed.

Lemma accepted_grows (l : list (@CostEntry Scalar)) (st : @Greedy Scalar) :
  exists later, accepted (greedy_from st l) = accepted st ++ later.
Proof.
  destruct (greedy_from_chosen_prefix l st) as [later Hl].
  exists (map snd later). unfold accepted. now rewrite Hl, map_app.
Qed.

Lemma greedy_from_chosen_incl (l : list (@CostEntry Scalar)) :
  forall (st : @Greedy Scalar) e,
    In e (chosen (greedy_from st l)) -> In e (chosen st) \/ In e l.
Proof.
  induction l as [| x l IH]; intros st e Hin; simpl in *; [auto |].
  apply IH in Hin as [Hin | Hin]; [| auto].
  rewrite greedy_step_chosen in Hin. destruct (both_free st x); [| auto].
  apply in_app_iff in Hin as [Hin | [<- | []]]; auto.
Qed.

Lemma both_free_false (st : @Greedy Scalar) (e : @CostEntry Scalar) :
  greedy_inv st -> both_free st e = false ->
  In (fst (snd e)) (map fst (accepted st)) \/ In (snd (snd e)) (map snd (accepted st)).
Proof.
  intros Hinv Hf. unfold both_free in Hf.
  apply andb_false_iff in Hf as [Hf | Hf]; apply bool_decide_eq_false in Hf;
    [left; apply (gi_takenA _ Hinv) | right; apply (gi_takenB _ Hinv)];
    apply dec_stable; exact Hf.
Qed.

(** After the scan every entry of the cost list has one of its two
    primitives in a pair taken. *)
Lemma greedy_from_covers (l : list (@CostEntry Scalar)) :
  forall st : @Greedy Scalar, greedy_inv st ->
    forall e, In e l ->
      In (fst (snd e)) (map fst (accepted (greedy_from st l))) \/
      In (snd (snd e)) (map snd (accepted (greedy_from st l))).
Proof.
  induction l as [| x l IH]; intros st Hinv e Hin; [destruct Hin |].
  destruct Hin as [<- | Hin]; [| apply IH; [apply greedy_step_inv, Hinv | exact Hin]].
  cbn [greedy_from fold_left]. fold (greedy_from (greedy_step st x) l).
  destruct (accepted_grows l (greedy_step st x)) as [later ->].
  rewrite !map_app. setoid_rewrite in_app_iff.
  assert (Hx : In (fst (snd x)) (map fst (accepted (greedy_step st x))) \/
               In (snd (snd x)) (map snd (accepted (greedy_step st x)))).
  { destruct (both_free st x) eqn:Hf.
    - left. unfold accepted. rewrite greedy_step_chosen, Hf, !map_app, in_app_iff.
      right. simpl. auto.
    - unfold greedy_step. rewrite Hf. apply both_free_false; assumption. }
  destruct Hx; auto.
Qed.

Lemma rows_A_accepted (st : @Greedy Scalar) (a : GidLid) :
  greedy_inv st -> (In a (map rowA (emit (corresps st))) <-> In a (map fst (accepted st))).
Proof.
  intros Hinv. rewrite emit_rowA, !in_map_iff.
  split; intros (x & Hx & Hin); exists x; (split; [exact Hx |]); apply (gi_entries _ Hinv), Hin.
Qed.

Lemma rows_B_accepted (st : @Greedy Scalar) (b : GidLid) :
  greedy_inv st -> (In b (map rowB (emit (corresps st))) <-> In b (map snd (accepted st))).
Proof.
  intros Hinv. rewrite emit_rowB, !in_map_iff.
  split; intros (x & Hx & Hin); exists x; (split; [exact Hx |]); apply (gi_entries _ Hinv), Hin.
Qed.

Lemma make_cost_list_In (costs : @CostMap Scalar) c key :
  In (c, key) (make_cost_list costs) <-> In (key, c) costs.
Proof.
  assert (Hperm : Permutation (map (fun it => (snd it, fst it)) costs) (make_cost_list costs))
    by apply std_sort_perm.
  split.
  - intros Hin. apply Permutation_in with (l' := map (fun it => (snd it, fst it)) costs) in Hin;
      [| now symmetry].
    apply in_map_iff in Hin as [[k v] [[= <- <-] Hin]]. exact Hin.
  - intros Hin. eapply Permutation_in; [exact Hperm |].
    apply in_map_iff. exists (key, c). auto.
Qed.

Lemma calc_costs_In (prims_mapA prims_mapB : @PrimitiveMapT Scalar) key c :
  In (key, c) (calc_costs prims_mapA prims_mapB) ->
  exists gidA lidA a gidB lidB b,
    prim_at prims_mapA gidA lidA a /\ prim_at prims_mapB gidB lidB b /\
    key = ((gidA, Z.of_nat lidA), (gidB, Z.of_nat lidB)) /\
    c = estimateDistance a b.
Proof.
  intros Hin. rewrite calc_costs_entries in Hin.
  apply insert_all_In in Hin as [Hin | []]; [| constructor].
  apply entries_patchesA_In in Hin as (gA & i & a & gB & j & b & Ha & Hb & [= -> ->]).
  exists gA, i, a, gB, j, b. auto.
Qed.

(** A key assigned to stays in the table, whatever is assigned later. *)
Lemma insert_all_keys (l : list (CostKey * Scalar)) :
  forall (m : @CostMap Scalar) k,
    StdMap.ascending costkey_ltb m ->
    In k (map fst l) \/ In k (map fst m) -> In k (map fst (insert_all l m)).
Proof.
  induction l as [| [k0 v0] l IH]; intros m k Hm Hk; simpl.
  - destruct Hk as [[] | Hk]. exact Hk.
  - apply IH; [apply StdMapFacts.insert_ascending; [apply costkey_ltb_strict_total | exact Hm] |].
    simpl in Hk. destruct Hk as [[-> | Hk] | Hk]; [right | now left | right].
    + apply in_map_iff. exists (k, v0). split; [reflexivity |].
      apply (StdMapFacts.insert_In _ costkey_ltb_strict_total); auto.
    + destruct (decide (k = k0)) as [-> | Hne].
      * apply in_map_iff. exists (k0, v0). split; [reflexivity |].
        apply (StdMapFacts.insert_In _ costkey_ltb_strict_total); auto.
      * apply in_map_iff in Hk as (x & <- & Hx). apply in_map_iff. exists x.
        split; [reflexivity |]. apply (StdMapFacts.insert_In _ costkey_ltb_strict_total); auto.
Qed.

Lemma calc_costs_has_key (prims_mapA prims_mapB : @PrimitiveMapT Scalar)
    gidA lidA a gidB lidB b :
  prim_at prims_mapA gidA lidA a -> prim_at prims_mapB gidB lidB b ->
  exists c, In (((gidA, Z.of_nat lidA), (gidB, Z.of_nat lidB)), c)
               (calc_costs prims_mapA prims_mapB).
Proof.
  intros Ha Hb.
  assert (Hk : In ((gidA, Z.of_nat lidA), (gidB, Z.of_nat lidB))
                  (map fst (calc_costs prims_mapA prims_mapB))).
  { rewrite calc_costs_entries. apply insert_all_keys; [constructor |]. left.
    apply in_map_iff. exists (((gidA, Z.of_nat lidA), (gidB, Z.of_nat lidB)), estimateDistance a b).
    split; [reflexivity |]. apply entries_patchesA_In. exists gidA, lidA, a, gidB, lidB, b. auto. }
  apply in_map_iff in Hk as ([k c] & Hk & Hin). simpl in Hk. subst k. now exists c.
Qed.

(** Every pair taken is a pair of a primitive of A and one of B. *)
Lemma accepted_from_prims (prims_mapA prims_mapB : @PrimitiveMapT Scalar) key :
  In key (accepted (correspond prims_mapA prims_mapB)) ->
  exists gidA lidA a gidB lidB b,
    prim_at prims_mapA gidA lidA a /\ prim_at prims_mapB gidB lidB b /\
    key = ((gidA, Z.of_nat lidA), (gidB, Z.of_nat lidB)) /\
    In (key, estimateDistance a b) (calc_costs prims_mapA prims_mapB).
Proof.
  unfold accepted, correspond, greedy. intros Hin.
  apply in_map_iff in Hin as ([c k] & Hk & Hin). simpl in Hk. subst k.
  apply greedy_from_chosen_incl in Hin as [[] | Hin].
  apply make_cost_list_In in Hin.
  destruct (calc_costs_In _ _ _ _ Hin) as (gA & i & a & gB & j & b & Ha & Hb & -> & ->).
  exists gA, i, a, gB, j, b. auto.
Qed.

(** X16: the rows are a maximal matching: of a primitive of A and a
    primitive of B at least one is in a row, so no pair is left that both
    sides could still form. *)
Theorem correspCli_rows_maximal (prims_mapA prims_mapB : @PrimitiveMapT Scalar)
    gidA lidA a gidB lidB b :
  prim_at prims_mapA gidA lidA a -> prim_at prims_mapB gidB lidB b ->
  In (gidA, Z.of_nat lidA) (map rowA (correspCli_rows prims_mapA prims_mapB)) \/
  In (gidB, Z.of_nat lidB) (map rowB (correspCli_rows prims_mapA prims_mapB)).
Proof.
  intros Ha Hb. destruct (calc_costs_has_key _ _ _ _ _ _ _ _ Ha Hb) as [c Hc].
  apply make_cost_list_In in Hc.
  unfold correspCli_rows, correspond.
  pose proof (greedy_inv_greedy (make_cost_list (calc_costs prims_mapA prims_mapB))) as Hinv.
  rewrite (rows_A_accepted _ _ Hinv), (rows_B_accepted _ _ Hinv).
  exact (greedy_from_covers _ _ greedy_inv_start _ Hc).
Qed.

(** X17: on two maps with distinct group ids the number of rows is the
    smaller of the two numbers of primitives: the side with fewer
    primitives is matched completely. *)
Theorem correspCli_rows_count (prims_mapA prims_mapB : @PrimitiveMapT Scalar) :
  StdMap.ascending Z.ltb prims_mapA ->
  StdMap.ascending Z.ltb prims_mapB ->
  length (correspCli_rows prims_mapA prims_mapB)
  = Nat.min (prim_count prims_mapA) (prim_count prims_mapB).
Proof.
  intros HwfA HwfB. rewrite <- !prim_ids_length.
  unfold correspCli_rows.
  pose proof (greedy_inv_greedy (make_cost_list (calc_costs prims_mapA prims_mapB))) as Hinv.
  fold (correspond prims_mapA prims_mapB) in Hinv.
  set (st := correspond prims_mapA prims_mapB) in *.
  assert (Hlen : length (emit (corresps st)) = length (accepted st)).
  { unfold emit. rewrite length_map. apply Permutation_length, corresps_accepted, Hinv. }
  rewrite Hlen.
  assert (HinA : incl (map fst (accepted st)) (prim_ids prims_mapA)).
  { intros x Hx. apply in_map_iff in Hx as (key & <- & Hkey).
    apply accepted_from_prims in Hkey as (gA & i & a & gB & j & b & Ha & _ & -> & _).
    apply prim_ids_In. exists i, a. auto. }
  assert (HinB : incl (map snd (accepted st)) (prim_ids prims_mapB)).
  { intros x Hx. apply in_map_iff in Hx as (key & <- & Hkey).
    apply accepted_from_prims in Hkey as (gA & i & a & gB & j & b & _ & Hb & -> & _).
    apply prim_ids_In. exists j, b. auto. }
  assert (HleA : (length (accepted st) <= length (prim_ids prims_mapA))%nat).
  { replace (length (accepted st)) with (length (map fst (accepted st))) by apply length_map.
    apply NoDup_incl_length; [| exact HinA].
    apply NoDup_ListNoDup, (gi_nodupA _ Hinv). }
  assert (HleB : (length (accepted st) <= length (prim_ids prims_mapB))%nat).
  { replace (length (accepted st)) with (length (map snd (accepted st))) by apply length_map.
    apply NoDup_incl_length; [| exact HinB].
    apply NoDup_ListNoDup, (gi_nodupB _ Hinv). }
  assert (Hmax : forall x y, In x (prim_ids prims_mapA) -> In y (prim_ids prims_mapB) ->
                             In x (map fst (accepted st)) \/ In y (map snd (accepted st))).
  { intros [gA lA] [gB lB] Hx Hy.
    apply prim_ids_In in Hx as (i & a & Ha & Hi). apply prim_ids_In in Hy as (j & b & Hb & Hj).
    simpl in *. subst lA lB.
    destruct (calc_costs_has_key _ _ _ _ _ _ _ _ Ha Hb) as [c Hc].
    apply make_cost_list_In in Hc.
    exact (greedy_from_covers _ _ greedy_inv_start _ Hc). }
  destruct (@Forall_Exists_dec GidLid (fun x => In x (map fst (accepted st)))
              (fun x => ~ In x (map fst (accepted st)))
              (fun x => in_dec (fun u v : GidLid => decide (u = v)) x (map fst (accepted st)))
              (prim_ids prims_mapA)) as [Hall | Hex].
  - assert ((length (prim_ids prims_mapA) <= length (accepted st))%nat).
    { replace (length (accepted st)) with (length (map fst (accepted st))) by apply length_map.
      apply NoDup_incl_length; [apply prim_ids_NoDup, HwfA |].
      intros x Hx. exact (proj1 (List.Forall_forall _ _) Hall x Hx). }
    lia.
  - apply Exists_exists in Hex as (x & Hx & Hnot). apply list_elem_of_In in Hx.
    assert ((length (prim_ids prims_mapB) <= length (accepted st))%nat).
    { replace (length (accepted st)) with (length (map snd (accepted st))) by apply length_map.
      apply NoDup_incl_length; [apply prim_ids_NoDup, HwfB |].
      intros y Hy. destruct (Hmax x y Hx Hy) as [Hm | Hm]; [contradiction | exact Hm]. }
    lia.
Qed.
End RowFacts.

Section PrintLoop.
Context {Scalar : Type} `{ScalarOps Scalar}.

Lemma prim_lookup_prim_at (m : @PrimitiveMapT Scalar) gid lid a :
  StdMap.ascending Z.ltb m -> prim_at m gid lid a ->
  prim_lookup m (gid, Z.of_nat lid) = Ok a.
Proof.
  intros Hm (prims & Hin & Hl). unfold prim_lookup. cbn [fst snd].
  apply (StdMapFacts.find_In _ Zltb_strict_total _ _ _ Hm) in Hin. rewrite Hin.
  apply at_index_of_nat, Hl.
Qed.

Lemma prim_at_count (m : @PrimitiveMapT Scalar) gid lid a :
  prim_at m gid lid a -> (0 < prim_count m)%nat.
Proof.
  intros Ha. rewrite <- prim_ids_length.
  assert (Hin : In (gid, Z.of_nat lid) (prim_ids m)) by (apply prim_ids_In; exists lid, a; auto).
  destruct (prim_ids m); [destruct Hin | simpl; lia].
Qed.

(** X18: on two maps with distinct group ids every look-up of the print
    loop is defined: for each row written the A identity indexes a
    primitive of the first map, the B identity one of the second, and the
    cost table holds the distance of just these two primitives under the
    pair. *)
Theorem print_loop_lookups_defined (prims_mapA prims_mapB : @PrimitiveMapT Scalar)
    (row : Z * Z * Z * Z) :
  StdMap.ascending Z.ltb prims_mapA ->
  StdMap.ascending Z.ltb prims_mapB ->
  In row (correspCli_rows prims_mapA prims_mapB) ->
  exists a b,
    prim_lookup prims_mapA (rowA row) = Ok a /\
    prim_lookup prims_mapB (rowB row) = Ok b /\
    StdMap.find costkey_ltb (rowA row, rowB row) (calc_costs prims_mapA prims_mapB)
    = Some (estimateDistance a b).
Proof.
  intros HwfA HwfB Hrow. unfold correspCli_rows, emit in Hrow.
  apply in_map_iff in Hrow as (key & <- & Hkey).
  pose proof (greedy_inv_greedy (make_cost_list (calc_costs prims_mapA prims_mapB))) as Hinv.
  apply (gi_entries _ Hinv) in Hkey.
  apply accepted_from_prims in Hkey as (gA & i & a & gB & j & b & Ha & Hb & -> & Hc).
  exists a, b. unfold rowA, rowB. cbn [fst snd].
  split; [apply prim_lookup_prim_at; assumption |].
  split; [apply prim_lookup_prim_at; assumption |].
  apply (StdMapFacts.find_In _ costkey_ltb_strict_total); [apply calc_costs_ascending | exact Hc].
Qed.

(** X20: the "duplicate choice" diagnostic of the scan never fires: when
    an entry is found free on both sides, its A identity has no entry in
    the map of correspondences; and looking an A identity up in that map
    gives its partner exactly for the pairs taken. *)
Theorem duplicate_choice_never (cost_list : list (@CostEntry Scalar)) (e : @CostEntry Scalar) :
  duplicate_choice (greedy cost_list) e = false /\
  forall a b, StdMap.find gidlid_ltb a (corresps (greedy cost_list)) = Some b <->
              In (a, b) (accepted (greedy cost_list)).
Proof.
  pose proof (greedy_inv_greedy cost_list) as Hinv.
  assert (Hfind : forall a b, StdMap.find gidlid_ltb a (corresps (greedy cost_list)) = Some b <->
                              In (a, b) (accepted (greedy cost_list))).
  { intros a b.
    rewrite (StdMapFacts.find_In _ gidlid_ltb_strict_total _ _ _ (gi_ascending _ Hinv)).
    apply (gi_entries _ Hinv). }
  split; [| exact Hfind].
  unfold duplicate_choice. destruct (both_free (greedy cost_list) e) eqn:Hfree; [| reflexivity].
  apply (both_free_iff _ _ Hinv) in Hfree as [HnotA _].
  destruct (StdMap.find gidlid_ltb (fst (snd e)) (corresps (greedy cost_list))) as [b |] eqn:Hb;
    [| reflexivity].
  exfalso. apply HnotA. apply Hfind in Hb. apply in_map_iff. exists (fst (snd e), b). auto.
Qed.

(** X21: when one of the two maps holds no primitive, the cost table stays
    empty and no row is written. *)
Theorem correspCli_rows_empty_side (prims_mapA prims_mapB : @PrimitiveMapT Scalar) :
  prim_count prims_mapA = 0%nat \/ prim_count prims_mapB = 0%nat ->
  calc_costs prims_mapA prims_mapB = [] /\ correspCli_rows prims_mapA prims_mapB = [].
Proof.
  intros Hempty.
  assert (Hnone : forall gA i a gB j b,
             prim_at prims_mapA gA i a -> prim_at prims_mapB gB j b -> False).
  { intros gA i a gB j b Ha Hb. apply prim_at_count in Ha, Hb. lia. }
  split.
  - destruct (calc_costs prims_mapA prims_mapB) as [| [key c] rest] eqn:Hc; [reflexivity |].
    exfalso. destruct (calc_costs_In prims_mapA prims_mapB key c)
      as (gA & i & a & gB & j & b & Ha & Hb & _); [rewrite Hc; now left |].
    exact (Hnone _ _ _ _ _ _ Ha Hb).
  - unfold correspCli_rows.
    pose proof (greedy_inv_greedy (make_cost_list (calc_costs prims_mapA prims_mapB))) as Hinv.
    fold (correspond prims_mapA prims_mapB) in Hinv.
    destruct (corresps (correspond prims_mapA prims_mapB)) as [| key rest] eqn:Hc; [reflexivity |].
    exfalso. assert (Hin : In key (accepted (correspond prims_mapA prims_mapB)))
      by (apply (gi_entries _ Hinv); rewrite Hc; now left).
    apply accepted_from_prims in Hin as (gA & i & a & gB & j & b & Ha & Hb & _).
    exact (Hnone _ _ _ _ _ _ Ha Hb).
Qed.
End PrintLoop.

Section CostListOrder.
Context {Scalar : Type} `{ScalarOps Scalar} `{!ScalarOrder Scalar}.

Lemma cost_entries_ordered (prims_mapA prims_mapB : @PrimitiveMapT Scalar) :
  costs_ordered prims_mapA prims_mapB ->
  List.Forall (fun e : @CostEntry Scalar => s_ordered (fst e) = true)
              (map (fun it => (snd it, fst it)) (calc_costs prims_mapA prims_mapB)).
Proof.
  intros Hord. apply List.Forall_forall. intros [c key] Hin.
  apply in_map_iff in Hin as [[k v] [[= <- <-] Hin]]. simpl.
  apply calc_costs_In in Hin as (gA & i & a & gB & j & b & Ha & Hb & _ & ->).
  apply (Hord _ _ _ _ _ _ Ha Hb).
Qed.

Lemma cost_entries_keys (prims_mapA prims_mapB : @PrimitiveMapT Scalar) :
  List.NoDup (map snd (map (fun it : CostKey * Scalar => (snd it, fst it))
                           (calc_costs prims_mapA prims_mapB))).
Proof.
  rewrite map_map. simpl. apply NoDup_ListNoDup.
  apply (StdMapFacts.ascending_NoDup_keys _ costkey_ltb_strict_total).
  apply calc_costs_ascending.
Qed.

Lemma make_cost_list_sorted (prims_mapA prims_mapB : @PrimitiveMapT Scalar) :
  costs_ordered prims_mapA prims_mapB ->
  StronglySorted (fun e1 e2 => entry_ltb e1 e2 = true)
                 (make_cost_list (calc_costs prims_mapA prims_mapB)).
Proof.
  intros Hord. unfold make_cost_list.
  apply (std_sort_sorted entry_ltb snd (fun e => s_ordered (fst e) = true)).
  - apply entry_ltb_total.
  - intros x y z. apply entry_ltb_trans.
  - apply cost_entries_ordered, Hord.
  - apply cost_entries_keys.
Qed.

(** X19: the scan always takes the first entry of the cost list, and with
    ordered costs (no NaN) no other entry has a smaller cost: the cheapest
    pair of all is among the correspondences. *)
Theorem cheapest_pair_is_taken (prims_mapA prims_mapB : @PrimitiveMapT Scalar)
    (e : @CostEntry Scalar) (rest : list (@CostEntry Scalar)) :
  costs_ordered prims_mapA prims_mapB ->
  make_cost_list (calc_costs prims_mapA prims_mapB) = e :: rest ->
  (exists later, chosen (correspond prims_mapA prims_mapB) = e :: later) /\
  In (snd e) (corresps (correspond prims_mapA prims_mapB)) /\
  forall e', In e' rest -> s_ltb (fst e') (fst e) = false.
Proof.
  intros Hord Hlist.
  pose proof (greedy_inv_greedy (make_cost_list (calc_costs prims_mapA prims_mapB))) as Hinv.
  fold (correspond prims_mapA prims_mapB) in Hinv.
  assert (Hhead : exists later, chosen (correspond prims_mapA prims_mapB) = e :: later).
  { unfold correspond, greedy. rewrite Hlist. cbn [greedy_from fold_left].
    fold (greedy_from (greedy_step greedy_start e) rest).
    destruct (greedy_from_chosen_prefix rest (greedy_step greedy_start e)) as [later ->].
    rewrite greedy_step_chosen.
    replace (both_free greedy_start e) with true; [now exists later |].
    unfold both_free, greedy_start. cbn [taken_primsA taken_primsB].
    rewrite !bool_decide_eq_true_2 by set_solver. reflexivity. }
  split; [exact Hhead |]. split.
  - apply (gi_entries _ Hinv). destruct Hhead as [later Hl]. unfold accepted. rewrite Hl.
    now left.
  - intros e' He'. pose proof (make_cost_list_sorted _ _ Hord) as Hsorted.
    rewrite Hlist in Hsorted. apply StronglySorted_inv in Hsorted as [_ Hall].
    pose proof (proj1 (List.Forall_forall _ _) Hall e' He') as Hlt.
    destruct e as [c k], e' as [c' k']. unfold entry_ltb, pair_ltb in Hlt. simpl in *.
    apply orb_true_iff in Hlt as [Hlt | Hlt].
    + apply s_ltb_asym, Hlt.
    + apply andb_true_iff in Hlt as [Hlt _]. now apply negb_true_iff in Hlt.
Qed.

(** X22: with ordered costs the cost list does not depend on how the
    sorting is done: every arrangement of the entries of the cost table
    that ascends under the comparison of the entries is the list the code
    scans. *)
Theorem cost_list_is_the_ascending_arrangement
    (prims_mapA prims_mapB : @PrimitiveMapT Scalar) (l' : list (@CostEntry Scalar)) :
  costs_ordered prims_mapA prims_mapB ->
  Permutation (map (fun it => (snd it, fst it)) (calc_costs prims_mapA prims_mapB)) l' ->
  StronglySorted (fun e1 e2 => entry_ltb e1 e2 = true) l' ->
  l' = make_cost_list (calc_costs prims_mapA prims_mapB).
Proof.
  intros Hord Hperm Hsorted. unfold make_cost_list.
  apply (sort_unique entry_ltb snd (fun e => s_ordered (fst e) = true)).
  - apply entry_ltb_total.
  - intros x y z. apply entry_ltb_trans.
  - apply entry_ltb_asym.
  - apply cost_entries_ordered, Hord.
  - apply cost_entries_keys.
  - exact Hperm.
  - exact Hsorted.
Qed.
End CostListOrder.

(** The first primitive of A and the second of B of the examples. *)
Lemma correspCli_rows_maximal_witness :
  prim_at primsA 0 0 (line_at 0) /\ prim_at primsB 0 1 (line_at 1) /\
  (In (0, Z.of_nat 0) (map rowA (correspCli_rows primsA primsB)) \/
   In (0, Z.of_nat 1) (map rowB (correspCli_rows primsA primsB))).
Proof.
  assert (Ha : prim_at primsA 0 0 (line_at 0))
    by (eexists; split; [left; reflexivity | reflexivity]).
  assert (Hb : prim_at primsB 0 1 (line_at 1))
    by (eexists; split; [left; reflexivity | reflexivity]).
  split; [exact Ha |]. split; [exact Hb |].
  exact (correspCli_rows_maximal primsA primsB 0 0%nat (line_at 0) 0 1%nat (line_at 1) Ha Hb).
Defined.

(** Two primitives on each side: two rows. *)
Lemma correspCli_rows_count_witness :
  StdMap.ascending Z.ltb primsA /\ StdMap.ascending Z.ltb primsB /\
  length (correspCli_rows primsA primsB) = Nat.min (prim_count primsA) (prim_count primsB).
Proof.
  destruct examples_ascending as [HA HB]. split; [exact HA |]. split; [exact HB |].
  exact (correspCli_rows_count primsA primsB HA HB).
Defined.

(** The row 0,0,0,1 of the examples. *)
Lemma print_loop_lookups_defined_witness :
  StdMap.ascending Z.ltb primsA /\ StdMap.ascending Z.ltb primsB /\
  In (0, 0, 0, 1) (correspCli_rows primsA primsB) /\
  exists a b,
    prim_lookup primsA (rowA (0, 0, 0, 1)) = Ok a /\
    prim_lookup primsB (rowB (0, 0, 0, 1)) = Ok b.
Proof.
  destruct examples_ascending as [HA HB].
  assert (Hrow : In (0, 0, 0, 1) (correspCli_rows primsA primsB))
    by (vm_compute; left; reflexivity).
  split; [exact HA |]. split; [exact HB |]. split; [exact Hrow |].
  destruct (print_loop_lookups_defined primsA primsB (0, 0, 0, 1) HA HB Hrow)
    as (a & b & Hla & Hlb & _).
  exists a, b. split; [exact Hla | exact Hlb].
Defined.

(** The cost list of the examples starts with the pair at distance 0. *)
Lemma cheapest_pair_is_taken_witness :
  costs_ordered primsA primsB /\
  exists e rest,
    make_cost_list (calc_costs primsA primsB) = e :: rest /\
    In (snd e) (corresps (correspond primsA primsB)).
Proof.
  split; [exact examples_costs_ordered |].
  assert (Hl : exists e rest, make_cost_list (calc_costs primsA primsB) = e :: rest).
  { eexists _, _. vm_compute. reflexivity. }
  destruct Hl as (e & rest & Hl). exists e, rest. split; [exact Hl |].
  exact (proj1 (proj2 (cheapest_pair_is_taken primsA primsB e rest examples_costs_ordered Hl))).
Defined.

(** A first map whose only group is empty. *)
Lemma correspCli_rows_empty_side_witness :
  (prim_count MoreExamples.no_prims = 0%nat \/ prim_count primsB = 0%nat) /\
  correspCli_rows MoreExamples.no_prims primsB = [].
Proof.
  assert (Hempty : prim_count MoreExamples.no_prims = 0%nat \/ prim_count primsB = 0%nat)
    by (left; reflexivity).
  split; [exact Hempty |].
  exact (proj2 (correspCli_rows_empty_side MoreExamples.no_prims primsB Hempty)).
Defined.

(** The four entries of the examples, by ascending cost. *)
Lemma cost_list_is_the_ascending_arrangement_witness :
  let l' := [(f32 0, ((0, 1), (0, 0))); (f32 1, ((0, 0), (0, 1)));
             (f32 4, ((0, 1), (0, 1))); (f32 5, ((0, 0), (0, 0)))] in
  costs_ordered primsA primsB /\
  Permutation (map (fun it => (snd it, fst it)) (calc_costs primsA primsB)) l' /\
  StronglySorted (fun e1 e2 => entry_ltb e1 e2 = true) l' /\
  l' = make_cost_list (calc_costs primsA primsB).
Proof.
  intros l'.
  assert (Heq : make_cost_list (calc_costs primsA primsB) = l') by (vm_compute; reflexivity).
  assert (Hperm : Permutation (map (fun it => (snd it, fst it)) (calc_costs primsA primsB)) l')
    by (rewrite <- Heq; apply std_sort_perm).
  assert (Hsorted : StronglySorted (fun e1 e2 => entry_ltb e1 e2 = true) l')
    by (rewrite <- Heq; apply make_cost_list_sorted, examples_costs_ordered).
  split; [exact examples_costs_ordered |]. split; [exact Hperm |]. split; [exact Hsorted |].
  exact (cost_list_is_the_ascending_arrangement primsA primsB l'
           examples_costs_ordered Hperm Hsorted).
Defined.

(* ===================================================================== *)
(** * The constructor from an eigen decomposition                         *)
(* ===================================================================== *)

Section EigenConstructor.
Context {Scalar : Type} `{ScalarOps Scalar} `{!ScalarOrder Scalar}.

Lemma max_element3_largest (v : Vec3 Scalar) :
  (max_element3 v < 3)%nat /\
  forall j, s_ltb (coeff v (max_element3 v)) (coeff v j) = false.
Proof.
  destruct v as [x y z]. unfold max_element3. cbn [coeff vx vy vz].
  destruct (s_ltb x y) eqn:Hxy; cbn [coeff vx vy vz].
  - destruct (s_ltb y z) eqn:Hyz; (split; [lia |]);
      intros [| [| j]]; cbn [coeff vx vy vz].
    + apply s_ltb_asym. eapply s_ltb_trans; eassumption.
    + apply s_ltb_asym, Hyz.
    + apply s_ltb_irrefl.
    + apply s_ltb_asym, Hxy.
    + apply s_ltb_irrefl.
    + exact Hyz.
  - destruct (s_ltb x z) eqn:Hxz; (split; [lia |]);
      intros [| [| j]]; cbn [coeff vx vy vz].
    + apply s_ltb_asym, Hxz.
    + destruct (s_ltb z y) eqn:Hzy; [| reflexivity].
      rewrite (s_ltb_trans _ _ _ Hxz Hzy) in Hxy. discriminate.
    + apply s_ltb_irrefl.
    + apply s_ltb_irrefl.
    + exact Hxy.
    + exact Hxz.
Qed.

(** X23: the constructor from an eigen decomposition anchors the line at
    the centroid and directs it along the normalized eigen vector of an
    eigen value that no eigen value exceeds. *)
Theorem from_eigen_takes_largest (fresh_tags : Tags PrimTag)
    (centroid eigen_values : Vec3 Scalar) (eigen_vectors : Mat3 Scalar) :
  let i := max_element3 eigen_values in
  (i < 3)%nat /\
  (forall j, s_ltb (coeff eigen_values i) (coeff eigen_values j) = false) /\
  pos (LinePrimitive_from_eigen fresh_tags centroid eigen_values eigen_vectors) = centroid /\
  dir (LinePrimitive_from_eigen fresh_tags centroid eigen_values eigen_vectors)
  = vnormalized (mcol eigen_vectors i).
Proof.
  intros i. destruct (max_element3_largest eigen_values) as [Hlt Hmax].
  split; [exact Hlt |]. split; [exact Hmax |]. split; reflexivity.
Qed.

(** X24: among ordered eigen values (no NaN) the one taken is the first
    of the largest: every eigen value before it is less than it. *)
Theorem max_element3_first_largest (v : Vec3 Scalar) (j : nat) :
  s_ordered (vx v) = true -> s_ordered (vy v) = true -> s_ordered (vz v) = true ->
  (j < max_element3 v)%nat ->
  s_ltb (coeff v j) (coeff v (max_element3 v)) = true.
Proof.
  destruct v as [x y z]. unfold max_element3. cbn [coeff vx vy vz]. intros Hx Hy Hz.
  destruct (s_ltb x y) eqn:Hxy; cbn [coeff vx vy vz].
  - destruct (s_ltb y z) eqn:Hyz; intros Hj.
    + destruct j as [| [| j]]; cbn [coeff vx vy vz]; [| exact Hyz | lia].
      eapply s_ltb_trans; eassumption.
    + destruct j as [| j]; cbn [coeff vx vy vz]; [exact Hxy | lia].
  - destruct (s_ltb x z) eqn:Hxz; intros Hj; [| lia].
    destruct j as [| [| j]]; cbn [coeff vx vy vz]; [exact Hxz | | lia].
    destruct (s_ltb y z) eqn:Hyz; [reflexivity |].
    rewrite (s_ltb_negtrans x y z Hx Hy Hz Hxy Hyz) in Hxz. discriminate.
Qed.
End EigenConstructor.

(** The eigen values 1, 9 and 4: the second is taken. *)
Lemma max_element3_first_largest_witness :
  s_ordered (vx MoreExamples.eigen_values) = true /\
  s_ordered (vy MoreExamples.eigen_values) = true /\
  s_ordered (vz MoreExamples.eigen_values) = true /\
  (0 < max_element3 MoreExamples.eigen_values)%nat /\
  s_ltb (coeff MoreExamples.eigen_values 0)
        (coeff MoreExamples.eigen_values (max_element3 MoreExamples.eigen_values)) = true.
Proof.
  assert (Hj : (0 < max_element3 MoreExamples.eigen_values)%nat) by (vm_compute; lia).
  split; [reflexivity |]. split; [reflexivity |]. split; [reflexivity |]. split; [exact Hj |].
  exact (max_element3_first_largest MoreExamples.eigen_values 0
           eq_refl eq_refl eq_refl Hj).
Defined.

(* ===================================================================== *)
(** * The conversions of [pcl_util.hpp]                                   *)
(* ===================================================================== *)

Section PclUtilFacts.
Context {Scalar : Type} {Point : Type}.
Variable eval : Vec3 Scalar -> Point.

Lemma cloudToVector_loop_from (post : list (Vec3 Scalar)) :
  forall (pre : list (Vec3 Scalar)) (container : list Point),
    cloudToVector_loop eval (pre ++ post)
      (map Z.of_nat (seq (length pre) (length post))) container
    = Ok (container ++ map eval post).
Proof.
  induction post as [| p post IH]; intros pre container; cbn [length seq map cloudToVector_loop].
  - now rewrite app_nil_r.
  - rewrite (at_index_of_nat (pre ++ p :: post) (length pre) p)
      by (now apply list_lookup_middle).
    rewrite Result_bind_ret.
    replace (pre ++ p :: post) with ((pre ++ [p]) ++ post) by now rewrite <- app_assoc.
    replace (S (length pre)) with (length (pre ++ [p])) by (rewrite length_app; simpl; lia).
    rewrite IH, <- app_assoc. reflexivity.
Qed.

(** X25: cloudToVector never fails on an index: it returns EXIT_SUCCESS
    with the container it was given followed by the converted points of
    the cloud, one per point and in the cloud's order. *)
Theorem cloudToVector_appends (container : list Point) (cloud : list (Vec3 Scalar)) :
  cloudToVector eval container cloud = Ok (EXIT_SUCCESS, container ++ map eval cloud).
Proof.
  unfold cloudToVector, upto.
  pose proof (cloudToVector_loop_from cloud [] container) as Hloop.
  cbn [app length] in Hloop. rewrite Hloop. reflexivity.
Qed.

Lemma buildANN_cloud_from (points : list (PointPrimitive Scalar)) :
  forall ann_cloud, buildANN_cloud points ann_cloud = ann_cloud ++ map pnt_pos points.
Proof.
  induction points as [| p points IH]; intros ann_cloud; simpl.
  - now rewrite app_nil_r.
  - rewrite IH, <- app_assoc. destruct p as [[x y z] tg]. reflexivity.
Qed.

(** X26: the cloud buildANN hands to the search tree holds the positions
    of the points, one per point and in their order; converting it back
    with cloudToVector gives the converted positions of the points. *)
Theorem buildANN_cloud_positions (points : list (PointPrimitive Scalar)) :
  buildANN_cloud points [] = map pnt_pos points /\
  length (buildANN_cloud points []) = length points /\
  cloudToVector eval [] (buildANN_cloud points [])
  = Ok (EXIT_SUCCESS, map (fun p => eval (pnt_pos p)) points).
Proof.
  rewrite buildANN_cloud_from. cbn [app]. split; [reflexivity |].
  split; [apply length_map |].
  unfold cloudToVector, upto.
  pose proof (cloudToVector_loop_from (map pnt_pos points) [] []) as Hloop.
  cbn [app length] in Hloop. rewrite Hloop, map_map. reflexivity.
Qed.
End PclUtilFacts.

(* ===================================================================== *)
(** * More on [getSpatialSignificance] and [estimateDistance]             *)
(* ===================================================================== *)

Section SignificanceMore.
Context {Scalar : Type} `{ScalarOps Scalar}.

(** X27: whatever the population, getSpatialSignificance overwrites the
    vector it is given: the first coefficient becomes the first eigen
    value (or its square root), every other coefficient becomes 0, and
    the length is kept; so the result does not depend on what the vector
    held before. *)
Theorem getSpatialSignificance_overwrites
    (eigenDecomposition : list (PointPrimitive Scalar) -> list Z -> Vec3 Scalar)
    (self : LinePrimitive Scalar) (in_ : list Scalar)
    (points : list (PointPrimitive Scalar)) (indices : option (list Z))
    (return_squared : bool) :
  in_ <> [] ->
  let ev := vx (eigenDecomposition points (population self points indices)) in
  getSpatialSignificance eigenDecomposition self in_ points indices return_squared
  = Ok ((if return_squared then ev else s_sqrt ev)
          :: repeat (s_of_Z 0) (length in_ - 1)) /\
  forall in', length in' = length in_ ->
    getSpatialSignificance eigenDecomposition self in' points indices return_squared
    = getSpatialSignificance eigenDecomposition self in_ points indices return_squared.
Proof.
  intros Hne ev.
  assert (Hshape : forall v : list Scalar, v <> [] ->
             getSpatialSignificance eigenDecomposition self v points indices return_squared
             = Ok ((if return_squared then ev else s_sqrt ev)
                     :: repeat (s_of_Z 0) (length v - 1))).
  { intros v Hv. unfold getSpatialSignificance. fold ev.
    assert (Hconst : setConstant (s_of_Z 0)
                       (if (length (population self points indices) =? 0)%nat
                        then setConstant (s_of_Z (-1)) v else v)
                     = repeat (s_of_Z 0) (length v)).
    { destruct (length (population self points indices) =? 0)%nat;
        rewrite ?setConstant_twice; unfold setConstant;
        clear; induction v as [| c v IH]; simpl; congruence. }
    rewrite Hconst. destruct v as [| c v]; [congruence |].
    replace (length (c :: v) - 1)%nat with (length v) by (simpl; lia).
    cbn [length repeat set_coeff0]. destruct return_squared; reflexivity. }
  split; [apply Hshape, Hne |].
  intros in' Hlen. rewrite (Hshape in_ Hne), Hshape, Hlen; [reflexivity |].
  intros ->. destruct in_; [congruence | discriminate].
Qed.
End SignificanceMore.

(** A first eigen value of 4 and a vector of two coefficients. *)
Lemma getSpatialSignificance_overwrites_witness :
  [f32 5; f32 7] <> [] /\
  getSpatialSignificance (fun _ _ => v3 4 0 0) (x_axis 0) [f32 5; f32 7] cloud4 None true
  = Ok [f32 4; f32 0].
Proof.
  assert (Hne : [f32 5; f32 7] <> []) by discriminate.
  split; [exact Hne |].
  exact (proj1 (getSpatialSignificance_overwrites (fun _ _ => v3 4 0 0) (x_axis 0)
                  [f32 5; f32 7] cloud4 None true Hne)).
Defined.

Section EstimateDistanceReal.
Local Open Scope R_scope.

(** X28: in exact arithmetic the cost of a pair is symmetric, never
    negative, and 0 exactly when the two primitives are anchored at the
    same position, whatever their directions. *)
Theorem estimateDistance_metric (a b : LinePrimitive R) :
  estimateDistance a b = estimateDistance b a /\
  0 <= estimateDistance a b /\
  (estimateDistance a b = 0 <-> pos a = pos b).
Proof.
  destruct a as [[ax ay az] da ta ea], b as [[bx b_y bz] db tb eb].
  unfold estimateDistance, vnorm, vsub, vdot. cbn [pos vx vy vz s_sqrt s_add s_sub s_mul Real.ops].
  split; [f_equal; ring |]. split; [apply sqrt_pos |]. split.
  - intros Hzero.
    pose proof (Rle_0_sqr (ax - bx)) as Hx. pose proof (Rle_0_sqr (ay - b_y)) as Hy.
    pose proof (Rle_0_sqr (az - bz)) as Hz. unfold Rsqr in Hx, Hy, Hz.
    apply sqrt_eq_0 in Hzero; [| lra].
    assert (ax - bx = 0) by (apply Rsqr_0_uniq; unfold Rsqr; lra).
    assert (ay - b_y = 0) by (apply Rsqr_0_uniq; unfold Rsqr; lra).
    assert (az - bz = 0) by (apply Rsqr_0_uniq; unfold Rsqr; lra).
    f_equal; lra.
  - intros [= -> -> ->]. rewrite <- sqrt_0. f_equal. ring.
Qed.
End EstimateDistanceReal.
